(** * EdgeVPNio (evio) control plane: tunnel managers, timed transactions,
      JID cache and graph builder.

    A shallow embedding of the Python sources
      - [broker/timed_transactions.py]
      - [controllers/signal.py]          (classes [JidCache] and [Signal])
      - [controllers/graph_builder.py]   ([_prep], [_get_successors],
                                          [_distance], [build_adj_list_ata])
      - [controllers/geneve_tunnel.py]   (class [GeneveTunnel])
      - [controllers/link_manager.py]    (class [LinkManager])
    together with the properties of the specification that were checked
    against them (C1 to C10) and further properties of the code (X1 and
    up). *)

From Stdlib Require Import ZArith String Ascii List Lia Bool.
From stdpp Require Import base option list gmap strings sorting pretty.

#[local] Set Warnings "-clear-no-such-hyp,-register-all".
Local Open Scope Z_scope.

(** ** Python prelude: exceptions, the state-and-exception monad, slices,
       insertion-ordered dictionaries. *)

Module Py.

(** The exception classes the modelled code can raise.  All of them are
    subclasses of Python's [Exception], so [except Exception] catches
    every one of them. *)
Inductive exn : Type :=
| KeyError (key : string)
| AttributeError (what : string)
| TypeError (what : string)
| IndexError
| ValueError
| ZeroDivisionError
| UnboundLocalError (var : string)
| RuntimeWarning (msg : string)
| NetlinkError (ifname : string)
| UserError (msg : string).

Inductive outcome (A : Type) : Type :=
| Ok (a : A)
| Raise (e : exn).
Arguments Ok {A} a.
Arguments Raise {A} e.

(** A method of an object whose attributes are [St]: it returns or raises,
    and the mutations done before a [raise] persist. *)
Definition M (St A : Type) : Type := St → outcome A * St.

#[export] Instance M_ret {St} : MRet (M St) := λ A a s, (Ok a, s).
#[export] Instance M_bind {St} : MBind (M St) := λ A B f m s,
  match m s with
  | (Ok a, s') => f a s'
  | (Raise e, s') => (Raise e, s')
  end.

Definition raise {St A} (e : exn) : M St A := λ s, (Raise e, s).
Definition gets {St A} (f : St → A) : M St A := λ s, (Ok (f s), s).
Definition modify {St} (f : St → St) : M St unit := λ s, (Ok tt, f s).
Definition lift {St A} (o : outcome A) : M St A := λ s, (o, s).

(** [d[k]] on a value that may be missing. *)
Definition getitem {St A} (key : string) (o : option A) : M St A :=
  match o with
  | Some v => mret v
  | None => raise (KeyError key)
  end.

(** [try: body except Exception as err: handler(err)] *)
Definition try_except {St A} (body : M St A) (handler : exn → M St A) : M St A :=
  λ s, match body s with
       | (Ok a, s') => (Ok a, s')
       | (Raise e, s') => handler e s'
       end.

(** [try: body finally: fin]: [fin] always runs; an exception of [fin]
    replaces the pending one. *)
Definition try_finally {St A} (body : M St A) (fin : M St unit) : M St A :=
  λ s, match body s with
       | (r, s') =>
           match fin s' with
           | (Ok _, s'') => (r, s'')
           | (Raise e, s'') => (Raise e, s'')
           end
       end.

(** Local variables of a function body that may be read before they are
    bound: the body runs on the object state paired with its locals [L]. *)
Definition on_self {St L A} (m : M St A) : M (St * L) A := λ sl,
  match m sl.1 with
  | (r, s') => (r, (s', sl.2))
  end.
Definition with_locals {St L A} (l0 : L) (m : M (St * L) A) : M St A := λ s,
  match m (s, l0) with
  | (r, sl) => (r, sl.1)
  end.
Definition assign {St L} (f : L → L) : M (St * L) unit := λ sl,
  (Ok tt, (sl.1, f sl.2)).
Definition local {St L A} (name : string) (f : L → option A) : M (St * L) A := λ sl,
  match f sl.2 with
  | Some v => (Ok v, sl)
  | None => (Raise (UnboundLocalError name), sl)
  end.

(** [str(err)], used in log and response messages only. *)
Definition exn_str (e : exn) : string :=
  match e with
  | KeyError k => "'" +:+ k +:+ "'"
  | AttributeError w | TypeError w | RuntimeWarning w | UserError w => w
  | UnboundLocalError v =>
      "cannot access local variable '" +:+ v +:+ "' where it is not associated with a value"
  | NetlinkError ifname => "netlink error on " +:+ ifname
  | IndexError => "list index out of range"
  | ValueError => "value error"
  | ZeroDivisionError => "integer modulo by zero"
  end.

(** [for x in xs: body(x)] *)
Fixpoint for_each {St A} (xs : list A) (body : A → M St unit) : M St unit :=
  match xs with
  | [] => mret tt
  | x :: xs' => body x ;; for_each xs' body
  end.

(** [l[i]]; a negative index counts from the end of the list. *)
Definition list_getitem {A} (l : list A) (i : Z) : outcome A :=
  let n := Z.of_nat (length l) in
  let j := if decide (i < 0) then i + n else i in
  if decide (0 ≤ j < n)
  then match l !! Z.to_nat j with
       | Some x => Ok x
       | None => Raise IndexError
       end
  else Raise IndexError.

(** [l.index(x)]: the position of the first occurrence. *)
Fixpoint list_index (x : string) (l : list string) : option nat :=
  match l with
  | [] => None
  | y :: l' => if decide (x = y) then Some O else S <$> list_index x l'
  end.

Definition str_le (a b : string) : Prop := String.leb a b = true.
#[export] Instance str_le_dec a b : Decision (str_le a b).
Proof. unfold str_le. apply _. Defined.

(** [sorted(l)] on a list of [str]: strings compare by code point, which
    for the byte strings used here is [String.leb]. *)
Definition py_sorted (l : list string) : list string := merge_sort str_le l.

Definition str_len (s : string) : Z := Z.of_nat (String.length s).

(** [s[:stop]]; a negative [stop] counts from the end of the string. *)
Definition slice_to (s : string) (stop : Z) : string :=
  if decide (0 ≤ stop)
  then substring 0 (Z.to_nat stop) s
  else substring 0 (String.length s - Z.to_nat (- stop)) s.

(** *** dict: keys are unique and iteration follows insertion order. *)
Section dict.
Context {V : Type}.

Fixpoint dict_get (k : string) (d : list (string * V)) : option V :=
  match d with
  | [] => None
  | (k', v) :: d' => if decide (k = k') then Some v else dict_get k d'
  end.

(** [d[k] = v] *)
Fixpoint dict_set (k : string) (v : V) (d : list (string * V)) : list (string * V) :=
  match d with
  | [] => [(k, v)]
  | (k', v') :: d' =>
      if decide (k = k') then (k, v) :: d' else (k', v') :: dict_set k v d'
  end.

(** [d.pop(k, None)] *)
Fixpoint dict_pop (k : string) (d : list (string * V)) : list (string * V) :=
  match d with
  | [] => []
  | (k', v') :: d' =>
      if decide (k = k') then d' else (k', v') :: dict_pop k d'
  end.

Definition dict_mem (k : string) (d : list (string * V)) : bool :=
  bool_decide (is_Some (dict_get k d)).

Definition dict_keys (d : list (string * V)) : list string := d.*1.
Definition dict_values (d : list (string * V)) : list V := d.*2.
End dict.

End Py.
Import Py.

(** ** Facts about the prelude *)

Section prelude_facts.

Lemma length_substring0 (n : nat) (s : string) :
  String.length (substring 0 n s) = (n `min` String.length s)%nat.
Proof.
  revert n. induction s as [|c s IH]; intros [|n]; simpl; auto.
Qed.

Lemma substring0_all (n : nat) (s : string) :
  (String.length s ≤ n)%nat → substring 0 n s = s.
Proof.
  revert n. induction s as [|c s IH]; intros [|n]; simpl; auto.
  - lia.
  - intros ?. f_equal. apply IH. lia.
Qed.

Lemma length_append (s1 s2 : string) :
  String.length (s1 +:+ s2) = (String.length s1 + String.length s2)%nat.
Proof. induction s1 as [|c s1 IH]; simpl; auto. Qed.

Lemma slice_to_length (s : string) (stop : Z) :
  0 ≤ stop → str_len (slice_to s stop) = Z.min stop (str_len s).
Proof.
  intros Hs. unfold slice_to, str_len.
  destruct (decide (0 ≤ stop)) as [_|]; [|lia].
  rewrite length_substring0. lia.
Qed.

Lemma slice_to_length_neg (s : string) (stop : Z) :
  stop < 0 → str_len (slice_to s stop) = Z.max 0 (str_len s + stop).
Proof.
  intros Hs. unfold slice_to, str_len.
  destruct (decide (0 ≤ stop)) as [|_]; [lia|].
  rewrite length_substring0. lia.
Qed.

Context {V : Type}.
Implicit Types (d : list (string * V)) (k : string) (v : V).

Lemma dict_get_Some_elem k v d : dict_get k d = Some v → (k, v) ∈ d.
Proof.
  induction d as [|[k' v'] d IH]; simpl; [done|].
  destruct (decide (k = k')) as [->|]; intros H.
  - injection H as ->. apply list_elem_of_here.
  - apply list_elem_of_further. auto.
Qed.

Lemma dict_get_None_keys k d : dict_get k d = None ↔ k ∉ dict_keys d.
Proof.
  unfold dict_keys. induction d as [|[k' v'] d IH]; simpl.
  - split; [intros _; apply not_elem_of_nil | done].
  - destruct (decide (k = k')) as [->|Hne].
    + split; [done|]. intros H. exfalso. apply H. apply list_elem_of_here.
    + rewrite IH, not_elem_of_cons. naive_solver.
Qed.

Lemma dict_elem_get k v d : NoDup (dict_keys d) → (k, v) ∈ d → dict_get k d = Some v.
Proof.
  unfold dict_keys. induction d as [|[k' v'] d IH]; simpl; intros Hnd Hin.
  - by apply elem_of_nil in Hin.
  - apply NoDup_cons in Hnd as [Hk' Hnd].
    apply elem_of_cons in Hin as [Heq|Hin].
    + injection Heq as -> ->. by rewrite decide_True.
    + destruct (decide (k = k')) as [->|]; [|by auto].
      exfalso. apply Hk'. apply list_elem_of_fmap. by exists (k', v).
Qed.

Lemma dict_pop_subset k d kv : kv ∈ dict_pop k d → kv ∈ d.
Proof.
  induction d as [|[k' v'] d IH]; simpl; [done|].
  destruct (decide (k = k')).
  - apply list_elem_of_further.
  - rewrite !elem_of_cons. naive_solver.
Qed.

Lemma dict_pop_keys_subset k d x : x ∈ dict_keys (dict_pop k d) → x ∈ dict_keys d.
Proof.
  unfold dict_keys. rewrite !list_elem_of_fmap.
  intros (kv & -> & Hin). exists kv. split; [done|]. by eapply dict_pop_subset.
Qed.

Lemma dict_pop_NoDup k d : NoDup (dict_keys d) → NoDup (dict_keys (dict_pop k d)).
Proof.
  unfold dict_keys. induction d as [|[k' v'] d IH]; simpl; [done|].
  intros [Hk' Hnd]%NoDup_cons. destruct (decide (k = k')); [done|].
  simpl. apply NoDup_cons. split; [|by auto].
  intros Hin. apply Hk'. by apply (dict_pop_keys_subset k).
Qed.

Lemma dict_get_pop_eq k d : NoDup (dict_keys d) → dict_get k (dict_pop k d) = None.
Proof.
  unfold dict_keys. induction d as [|[k' v'] d IH]; simpl; [done|].
  intros [Hk' Hnd]%NoDup_cons. destruct (decide (k = k')) as [->|Hne].
  - by apply dict_get_None_keys.
  - simpl. rewrite decide_False by done. auto.
Qed.

Lemma dict_get_pop_ne k k' d : k ≠ k' → dict_get k' (dict_pop k d) = dict_get k' d.
Proof.
  intros Hne. induction d as [|[k0 v0] d IH]; simpl; [done|].
  destruct (decide (k = k0)) as [->|].
  - by rewrite decide_False by done.
  - simpl. by rewrite IH.
Qed.

Lemma dict_get_set_eq k v d : dict_get k (dict_set k v d) = Some v.
Proof.
  induction d as [|[k0 v0] d IH]; simpl.
  - by rewrite decide_True.
  - destruct (decide (k = k0)) as [->|]; simpl.
    + by rewrite decide_True.
    + by rewrite decide_False.
Qed.

Lemma dict_get_set_ne k k' v d : k ≠ k' → dict_get k' (dict_set k v d) = dict_get k' d.
Proof.
  intros Hne. induction d as [|[k0 v0] d IH]; simpl.
  - by rewrite decide_False.
  - destruct (decide (k = k0)) as [->|]; simpl.
    + by rewrite !(decide_False (P := k' = k0)) by done.
    + by rewrite IH.
Qed.

Lemma dict_set_elem k v d kv : kv ∈ dict_set k v d → kv = (k, v) ∨ kv ∈ d.
Proof.
  induction d as [|[k0 v0] d IH]; simpl.
  - rewrite list_elem_of_singleton. auto.
  - destruct (decide (k = k0)); rewrite !elem_of_cons; naive_solver.
Qed.

Lemma dict_set_keys k v d x : x ∈ dict_keys (dict_set k v d) → x = k ∨ x ∈ dict_keys d.
Proof.
  unfold dict_keys. rewrite !list_elem_of_fmap. intros (kv & -> & [->|Hin]%dict_set_elem).
  - by left.
  - right. by exists kv.
Qed.

Lemma dict_set_NoDup k v d : NoDup (dict_keys d) → NoDup (dict_keys (dict_set k v d)).
Proof.
  unfold dict_keys. induction d as [|[k0 v0] d IH]; simpl.
  - intros _. apply NoDup_singleton.
  - intros [Hk0 Hnd]%NoDup_cons. destruct (decide (k = k0)) as [->|Hne]; simpl.
    + by apply NoDup_cons.
    + apply NoDup_cons. split; [|by auto].
      intros [->|Hin]%dict_set_keys; [done|]. by apply Hk0.
Qed.

End prelude_facts.

(** ** Specifications of methods: a precondition on the object state, a
       postcondition for a normal return and one for a raised exception. *)

Section triples.
Context {St : Type}.
Implicit Types (P I : St → Prop).

Definition triple {A} (P : St → Prop) (m : M St A)
    (Q : A → St → Prop) (E : exn → St → Prop) : Prop :=
  ∀ s, P s →
    match m s with
    | (Ok a, s') => Q a s'
    | (Raise e, s') => E e s'
    end.

(** [m] keeps [I], however it ends. *)
Definition keeps {A} (I : St → Prop) (m : M St A) : Prop :=
  triple I m (λ _, I) (λ _, I).

Lemma triple_conseq {A} P P' (m : M St A) Q Q' E E' :
  triple P m Q E →
  (∀ s, P' s → P s) → (∀ a s, Q a s → Q' a s) → (∀ e s, E e s → E' e s) →
  triple P' m Q' E'.
Proof.
  intros Hm HP HQ HE s Hs. specialize (Hm s (HP s Hs)).
  destruct (m s) as [[a|e] s']; auto.
Qed.

Lemma triple_ret {A} (a : A) Q E : triple (Q a) (mret a) Q E.
Proof. intros s Hs. exact Hs. Qed.

Lemma triple_raise {A} (e : exn) (Q : A → St → Prop) E : triple (E e) (raise e) Q E.
Proof. intros s Hs. exact Hs. Qed.

Lemma triple_bind {A B} P (m : M St A) (f : A → M St B) R Q E :
  triple P m R E → (∀ a, triple (R a) (f a) Q E) → triple P (m ≫= f) Q E.
Proof.
  intros Hm Hf s Hs. specialize (Hm s Hs). unfold mbind, M_bind.
  destruct (m s) as [[a|e] s']; [by apply Hf|done].
Qed.

Lemma triple_try_except {A} P (body : M St A) (handler : exn → M St A) R Q E :
  triple P body Q R → (∀ e, triple (R e) (handler e) Q E) →
  triple P (try_except body handler) Q E.
Proof.
  intros Hb Hh s Hs. specialize (Hb s Hs). unfold try_except.
  destruct (body s) as [[a|e] s']; [done|by apply Hh].
Qed.

Lemma keeps_ret {A} I (a : A) : keeps I (mret a).
Proof. intros s Hs. exact Hs. Qed.

Lemma keeps_raise {A} I (e : exn) : keeps I (raise (A := A) e).
Proof. intros s Hs. exact Hs. Qed.

Lemma keeps_bind {A B} I (m : M St A) (f : A → M St B) :
  keeps I m → (∀ a, keeps I (f a)) → keeps I (m ≫= f).
Proof. intros Hm Hf. by eapply triple_bind. Qed.

Lemma keeps_gets {A} I (f : St → A) : keeps I (gets f).
Proof. intros s Hs. exact Hs. Qed.

Lemma keeps_lift {A} I (o : outcome A) : keeps I (lift o).
Proof. intros s Hs. unfold lift. by destruct o. Qed.

Lemma keeps_getitem {A} I key (o : option A) : keeps I (getitem key o).
Proof. destruct o; [apply keeps_ret|apply keeps_raise]. Qed.

Lemma keeps_modify I (f : St → St) : (∀ s, I s → I (f s)) → keeps I (modify f).
Proof. intros Hf s Hs. by apply Hf. Qed.

Lemma keeps_try_except {A} I (body : M St A) (handler : exn → M St A) :
  keeps I body → (∀ e, keeps I (handler e)) → keeps I (try_except body handler).
Proof. intros Hb Hh. by eapply triple_try_except. Qed.

Lemma keeps_try_finally {A} I (body : M St A) (fin : M St unit) :
  keeps I body → keeps I fin → keeps I (try_finally body fin).
Proof.
  intros Hb Hf s Hs. specialize (Hb s Hs). unfold try_finally.
  destruct (body s) as [r s'].
  assert (I s') as Hs' by (by destruct r).
  specialize (Hf s' Hs'). destruct (fin s') as [[[]|e] s'']; [|done].
  by destruct r.
Qed.

Lemma keeps_for_each {A} I (xs : list A) (body : A → M St unit) :
  (∀ x, keeps I (body x)) → keeps I (for_each xs body).
Proof.
  intros Hb. induction xs as [|x xs IH]; simpl.
  - apply keeps_ret.
  - apply keeps_bind; [apply Hb|by intros _].
Qed.

End triples.

(** Methods with local variables: the locals ride along. *)
Section triples_with_locals.
Context {St L : Type}.
Implicit Types (I : St → Prop).

Lemma keeps_on_self {A} I (m : M St A) :
  keeps I m → keeps (λ sl : St * L, I sl.1) (on_self m).
Proof.
  intros Hm [s l] Hs. specialize (Hm s Hs). unfold on_self. simpl.
  by destruct (m s) as [[a|e] s'].
Qed.

Lemma keeps_with_locals {A} I (l0 : L) (m : M (St * L) A) :
  keeps (λ sl : St * L, I sl.1) m → keeps I (with_locals l0 m).
Proof.
  intros Hm s Hs. specialize (Hm (s, l0) Hs). unfold with_locals.
  by destruct (m (s, l0)) as [[a|e] [s' l']].
Qed.

Lemma triple_on_self {A} (P : St → Prop) (m : M St A) Q E :
  triple P m Q E →
  triple (λ sl : St * L, P sl.1) (on_self m) (λ a sl, Q a sl.1) (λ e sl, E e sl.1).
Proof.
  intros Hm [s l] Hs. specialize (Hm s Hs). unfold on_self. simpl.
  by destruct (m s) as [[a|e] s'].
Qed.

Lemma keeps_assign I (f : L → L) : keeps (λ sl : St * L, I sl.1) (assign f).
Proof. intros [s l] Hs. exact Hs. Qed.

Lemma keeps_local {A} I name (f : L → option A) :
  keeps (λ sl : St * L, I sl.1) (local name f).
Proof. intros [s l] Hs. unfold local. simpl. by destruct (f l). Qed.

End triples_with_locals.

(** Sequencing two methods when the first one returns, or raises. *)
Lemma bind_returns {St A B} (m : M St A) (f : A → M St B) (s s' : St) (a : A) :
  m s = (Ok a, s') → (m ≫= f) s = f a s'.
Proof. unfold mbind, M_bind. by intros ->. Qed.

Lemma bind_raises {St A B} (m : M St A) (f : A → M St B) (s s' : St) (e : exn) :
  m s = (Raise e, s') → (m ≫= f) s = (Raise e, s').
Proof. unfold mbind, M_bind. by intros ->. Qed.


(** ** controllers/graph_builder.py: [_prep] and [_get_successors] *)

Module GraphBuilder.

(** The attributes of [GraphBuilder] that [_prep] and [_get_successors]
    read or write. *)
Record t : Type := mk {
  _node_id : string;
  _peers : list string;
  _nodes : list string;
  _my_idx : Z;
  _min_successors : Z;
}.

Definition _prep (peers : list string) : M t unit := λ self,
  let nodes := py_sorted (peers ++ [_node_id self]) in
  match list_index (_node_id self) nodes with
  | Some i =>
      (Ok tt, {| _node_id := _node_id self; _peers := peers; _nodes := nodes;
                 _my_idx := Z.of_nat i;
                 _min_successors := _min_successors self |})
  | None =>
      (Raise ValueError,
       {| _node_id := _node_id self; _peers := peers; _nodes := nodes;
          _my_idx := _my_idx self;
          _min_successors := _min_successors self |})
  end.

(** The body of [for _ in range(num_succ)], [n] iterations left. *)
Fixpoint successors_loop (nodes : list string) (num_nodes : Z) (n : nat)
    (successor_index : Z) (successors : list string) : outcome (list string) :=
  match n with
  | O => Ok successors
  | S n' =>
      if decide (num_nodes = 0) then Raise ZeroDivisionError
      else
        let successor_index := successor_index `mod` num_nodes in
        match list_getitem nodes successor_index with
        | Ok x =>
            successors_loop nodes num_nodes n' (successor_index + 1) (successors ++ [x])
        | Raise e => Raise e
        end
  end.

Definition _get_successors : M t (list string) := λ self,
  let num_peers := Z.of_nat (length (_peers self)) in
  let num_nodes := Z.of_nat (length (_nodes self)) in
  let successor_index := _my_idx self + 1 in
  let num_succ :=
    if decide (num_peers >= _min_successors self)
    then _min_successors self else num_peers in
  (successors_loop (_nodes self) num_nodes (Z.to_nat num_succ) successor_index [],
   self).

(** The successor claim in short: exactly [min(min_successors, |peers|)]
    distinct successors. *)
Definition successors_as_specified (self : t) (peers : list string) : Prop :=
  ∃ self' succ,
    _prep peers self = (Ok tt, self') ∧
    _get_successors self' = (Ok succ, self') ∧
    Z.of_nat (length succ) = Z.min (_min_successors self) (Z.of_nat (length peers)) ∧
    NoDup succ.

(** *** Properties *)

Lemma list_index_first (x : string) (l : list string) :
  x ∈ l → ∃ i, list_index x l = Some i ∧ l !! i = Some x.
Proof.
  induction l as [|y l IH]; simpl; intros Hin.
  - by apply elem_of_nil in Hin.
  - destruct (decide (x = y)) as [->|Hne]; [by exists O|].
    apply elem_of_cons in Hin as [?|Hin]; [done|].
    destruct (IH Hin) as (i & -> & Hi). by exists (S i).
Qed.

(** When [x] is not among [peers], it occupies exactly one position of any
    rearrangement of [peers ++ [x]], and every other position holds a peer. *)
Lemma single_occurrence (x : string) (peers nodes : list string) :
  nodes ≡ₚ peers ++ [x] → x ∉ peers →
  ∀ i y, nodes !! i = Some y →
    (y = x → ∀ j, nodes !! j = Some x → i = j) ∧ (y ≠ x → y ∈ peers).
Proof.
  intros Hperm Hnot i y Hi.
  assert (x ∈ nodes) as Hx by (rewrite Hperm; set_solver).
  apply list_elem_of_split in Hx as (l1 & l2 & ->).
  assert (l1 ++ l2 ≡ₚ peers) as Hrest.
  { apply (Permutation_cons_inv (a := x)).
    rewrite Permutation_middle, Hperm. by rewrite Permutation_app_comm. }
  assert (x ∉ l1 ++ l2) as Hnot' by (by rewrite Hrest).
  assert (∀ k, (l1 ++ x :: l2) !! k = Some x → k = length l1) as Hpos.
  { intros k Hk. apply lookup_app_Some in Hk as [Hk|[Hge Hk]].
    - exfalso. apply Hnot'. apply elem_of_app. left.
      by apply list_elem_of_lookup_2 in Hk.
    - destruct (k - length l1)%nat as [|m] eqn:Hm; [lia|].
      simpl in Hk. exfalso. apply Hnot'. apply elem_of_app. right.
      by apply list_elem_of_lookup_2 in Hk. }
  split.
  - intros -> j Hj. rewrite (Hpos _ Hi), (Hpos _ Hj). done.
  - intros Hne. rewrite <- Hrest.
    apply list_elem_of_lookup_2 in Hi.
    rewrite elem_of_app, elem_of_cons in Hi. rewrite elem_of_app. naive_solver.
Qed.

Lemma list_getitem_in_range {A} (l : list A) (i : Z) :
  0 ≤ i < Z.of_nat (length l) →
  ∃ x, list_getitem l i = Ok x ∧ l !! Z.to_nat i = Some x.
Proof.
  intros Hi. unfold list_getitem.
  destruct (decide (i < 0)) as [|_]; [lia|].
  destruct (decide (0 ≤ i < Z.of_nat (length l))) as [_|]; [|lia].
  destruct (lookup_lt_is_Some_2 l (Z.to_nat i)) as [x Hx]; [lia|].
  exists x. by rewrite Hx.
Qed.

Lemma successors_loop_spec (nodes : list string) (n : nat) (start : Z)
    (acc : list string) :
  0 < Z.of_nat (length nodes) →
  ∃ succ,
    successors_loop nodes (Z.of_nat (length nodes)) n start acc = Ok (acc ++ succ) ∧
    length succ = n ∧
    ∀ j, (j < n)%nat →
      succ !! j =
      nodes !! Z.to_nat ((start + Z.of_nat j) `mod` Z.of_nat (length nodes)).
Proof.
  intros HN. revert start acc. induction n as [|n IH]; intros start acc; simpl.
  - exists []. rewrite app_nil_r. split_and!; [done..|]. intros j Hj. lia.
  - rewrite decide_False by lia.
    pose proof (Z.mod_pos_bound start (Z.of_nat (length nodes)) HN) as Hb.
    destruct (list_getitem_in_range nodes _ Hb) as (x & -> & Hx).
    destruct (IH (start `mod` Z.of_nat (length nodes) + 1) (acc ++ [x]))
      as (succ & -> & Hlen & Hsucc).
    exists (x :: succ). rewrite <- app_assoc. split_and!; [done|simpl; lia|].
    intros [|j] Hj; simpl.
    + by rewrite Z.add_0_r, Hx.
    + rewrite Hsucc by lia. do 2 f_equal.
      rewrite <- Z.add_assoc, Zplus_mod_idemp_l. f_equal. lia.
Qed.

Lemma py_sorted_Permutation (l : list string) : py_sorted l ≡ₚ l.
Proof. apply merge_sort_Permutation. Qed.

Lemma py_sorted_Sorted (l : list string) : Sorted str_le (py_sorted l).
Proof.
  apply Sorted_merge_sort. intros a b. unfold str_le. apply String.leb_total.
Qed.

Lemma _prep_spec (self : t) (peers : list string) :
  ∃ i, list_index (_node_id self) (py_sorted (peers ++ [_node_id self])) = Some i ∧
       py_sorted (peers ++ [_node_id self]) !! i = Some (_node_id self) ∧
       _prep peers self =
         (Ok tt, {| _node_id := _node_id self; _peers := peers;
                    _nodes := py_sorted (peers ++ [_node_id self]);
                    _my_idx := Z.of_nat i;
                    _min_successors := _min_successors self |}).
Proof.
  destruct (list_index_first (_node_id self) (py_sorted (peers ++ [_node_id self])))
    as (i & Hidx & Hi).
  { rewrite py_sorted_Permutation. set_solver. }
  exists i. split_and!; [done..|]. unfold _prep. by rewrite Hidx.
Qed.

Lemma clockwise_index_not_self (N i j : Z) :
  0 ≤ i < N → 0 ≤ j → j + 1 < N → (i + 1 + j) `mod` N ≠ i.
Proof.
  intros Hi Hj HjN Heq.
  pose proof (Z.div_mod (i + 1 + j) N ltac:(lia)) as Hdm.
  rewrite Heq in Hdm. set (q := (i + 1 + j) `div` N) in Hdm.
  assert (N * q = j + 1) as Hq by lia.
  destruct (Z_lt_le_dec q 1); nia.
Qed.

Lemma clockwise_index_inj (N i j1 j2 : Z) :
  0 ≤ j1 < N → 0 ≤ j2 < N →
  (i + 1 + j1) `mod` N = (i + 1 + j2) `mod` N → j1 = j2.
Proof.
  intros H1 H2 Heq.
  assert ((j1 - j2) `mod` N = 0) as Hm.
  { replace (j1 - j2) with ((i + 1 + j1) - (i + 1 + j2)) by lia.
    rewrite Zminus_mod, Heq, Z.sub_diag. apply Z.mod_0_l. lia. }
  apply Z.mod_divide in Hm; [|lia]. destruct Hm as [q Hq].
  assert (q = 0) by nia. lia.
Qed.

(** For every peer list that does not contain the self node id, with or
    without duplicates and whatever the sign of [MinSuccessors]: [_prep]
    followed by [_get_successors] returns
    [max(0, min(min_successors, |peers|))] successors; the j-th one is
    [nodes[(my_idx + 1 + j) mod |nodes|]] in [nodes = sorted(peers + [self])];
    the self id is never among them, every successor is a peer, and the
    successors are pairwise distinct when the peer list has no duplicate. *)
Lemma successors_are_clockwise_neighbours (self : t) (peers : list string) :
  _node_id self ∉ peers →
  ∃ self' succ,
    _prep peers self = (Ok tt, self') ∧
    _nodes self' = py_sorted (peers ++ [_node_id self]) ∧
    Sorted str_le (_nodes self') ∧
    0 ≤ _my_idx self' ∧
    _nodes self' !! Z.to_nat (_my_idx self') = Some (_node_id self) ∧
    _get_successors self' = (Ok succ, self') ∧
    Z.of_nat (length succ) =
      Z.max 0 (Z.min (_min_successors self) (Z.of_nat (length peers))) ∧
    (∀ j, (j < length succ)%nat →
       succ !! j =
       _nodes self' !! Z.to_nat ((_my_idx self' + 1 + Z.of_nat j)
                                  `mod` Z.of_nat (length (_nodes self')))) ∧
    (_node_id self ∉ succ) ∧
    (∀ x, x ∈ succ → x ∈ peers) ∧
    (NoDup peers → NoDup succ).
Proof.
  intros Hself.
  destruct (_prep_spec self peers) as (i & _ & Hi & Hprep).
  set (nodes := py_sorted (peers ++ [_node_id self])) in *.
  assert (nodes ≡ₚ peers ++ [_node_id self]) as Hperm
    by apply py_sorted_Permutation.
  assert (length nodes = S (length peers)) as Hlen.
  { rewrite Hperm, length_app. simpl. lia. }
  assert (i < length nodes)%nat as HiN by (by eapply lookup_lt_Some).
  set (ms := _min_successors self).
  set (k := Z.to_nat (if decide (Z.of_nat (length peers) >= ms)
                      then ms else Z.of_nat (length peers))).
  assert (k ≤ length peers)%nat as Hk by (unfold k; case_decide; lia).
  destruct (successors_loop_spec nodes k (Z.of_nat i + 1) [])
    as (succ & Hloop & Hsl & Hsucc); [lia|].
  assert (∀ j, (j < k)%nat →
     Z.to_nat ((Z.of_nat i + 1 + Z.of_nat j) `mod` Z.of_nat (length nodes)) ≠ i)
    as Hne.
  { intros j Hj Heq.
    apply (clockwise_index_not_self (Z.of_nat (length nodes)) (Z.of_nat i)
             (Z.of_nat j)); [lia..|].
    pose proof (Z.mod_pos_bound (Z.of_nat i + 1 + Z.of_nat j)
                  (Z.of_nat (length nodes)) ltac:(lia)). lia. }
  assert (∀ j x, succ !! j = Some x → x ≠ _node_id self ∧ x ∈ peers) as Hpeer.
  { intros j x Hj.
    assert (j < k)%nat as Hjk by (rewrite <- Hsl; by eapply lookup_lt_Some).
    rewrite Hsucc in Hj by done.
    destruct (single_occurrence _ _ _ Hperm Hself _ _ Hj) as [Hsame Hother].
    assert (x ≠ _node_id self) as Hx.
    { intros ->. by apply (Hne j Hjk), Hsame. }
    auto. }
  eexists _, succ. split_and!.
  - exact Hprep.
  - done.
  - apply py_sorted_Sorted.
  - simpl. lia.
  - simpl. by rewrite Nat2Z.id.
  - unfold _get_successors. simpl. fold nodes ms k. by rewrite Hloop.
  - rewrite Hsl. unfold k. case_decide; lia.
  - intros j Hj. simpl. fold nodes. rewrite Hsucc by lia. done.
  - intros [j Hj]%list_elem_of_lookup_1. by destruct (Hpeer _ _ Hj).
  - intros x [j Hj]%list_elem_of_lookup_1. by destruct (Hpeer _ _ Hj).
  - intros Hnd. apply NoDup_alt. intros a b x Ha Hb.
    assert (a < k)%nat as Hak by (rewrite <- Hsl; by eapply lookup_lt_Some).
    assert (b < k)%nat as Hbk by (rewrite <- Hsl; by eapply lookup_lt_Some).
    rewrite Hsucc in Ha, Hb by done.
    assert (NoDup nodes) as Hndn.
    { rewrite Hperm. apply NoDup_app. split_and!; [done| |apply NoDup_singleton].
      intros y Hy ->%list_elem_of_singleton. done. }
    pose proof (NoDup_lookup _ _ _ _ Hndn Ha Hb) as Heq.
    apply Nat2Z.inj.
    apply (clockwise_index_inj (Z.of_nat (length nodes)) (Z.of_nat i)); [lia..|].
    pose proof (Z.mod_pos_bound (Z.of_nat i + 1 + Z.of_nat a)
                  (Z.of_nat (length nodes)) ltac:(lia)).
    pose proof (Z.mod_pos_bound (Z.of_nat i + 1 + Z.of_nat b)
                  (Z.of_nat (length nodes)) ltac:(lia)).
    lia.
Qed.

(** C7.  For every set of peers (a peer list without duplicates) that
    does not contain the self node id, and a successor count
    [MinSuccessors] that is not negative, [_prep] followed by
    [_get_successors] returns exactly [min(min_successors, |peers|)]
    pairwise distinct peers; the j-th one is
    [nodes[(my_idx + 1 + j) mod |nodes|]] in [nodes = sorted(peers + [self])],
    where [nodes[my_idx]] is the self id; and the self id is never among
    them.  The peer set may be empty: then there is no successor. *)
Theorem successors_are_as_specified (self : t) (peers : list string) :
  _node_id self ∉ peers →
  NoDup peers →
  0 ≤ _min_successors self →
  successors_as_specified self peers ∧
  ∃ self' succ,
    _prep peers self = (Ok tt, self') ∧
    _nodes self' = py_sorted (peers ++ [_node_id self]) ∧
    Sorted str_le (_nodes self') ∧
    0 ≤ _my_idx self' ∧
    _nodes self' !! Z.to_nat (_my_idx self') = Some (_node_id self) ∧
    _get_successors self' = (Ok succ, self') ∧
    Z.of_nat (length succ) = Z.min (_min_successors self) (Z.of_nat (length peers)) ∧
    NoDup succ ∧
    (∀ j, (j < length succ)%nat →
       succ !! j =
       _nodes self' !! Z.to_nat ((_my_idx self' + 1 + Z.of_nat j)
                                  `mod` Z.of_nat (length (_nodes self')))) ∧
    (_node_id self ∉ succ) ∧
    (∀ x, x ∈ succ → x ∈ peers).
Proof.
  intros Hself Hnd Hms.
  destruct (successors_are_clockwise_neighbours self peers Hself)
    as (self' & succ & Hprep & Hnodes & Hsorted & Hidx & Hme & Hget & Hlen & Hsucc
        & Hnot & Hpeers & Hdistinct).
  assert (Z.of_nat (length succ) = Z.min (_min_successors self) (Z.of_nat (length peers)))
    as Hlen' by lia.
  split.
  - exists self', succ. auto.
  - exists self', succ. split_and!; auto.
Qed.

Lemma successors_are_as_specified_witness :
  ∃ self' succ,
    _prep ["n3"; "n1"; "n4"] (mk "n2" [] [] 0 2) = (Ok tt, self') ∧
    _get_successors self' = (Ok succ, self') ∧
    succ = ["n3"; "n4"].
Proof.
  destruct (successors_are_as_specified (mk "n2" [] [] 0 2) ["n3"; "n1"; "n4"])
    as (_ & self' & succ & Hprep & _).
  { simpl. intros Hin. repeat (apply elem_of_cons in Hin as [Hin|Hin]; [done|]).
    by apply elem_of_nil in Hin. }
  { repeat (apply NoDup_cons; split; [set_solver|]). apply NoDup_nil_2. }
  { simpl. lia. }
  exists self'. vm_compute in Hprep. injection Hprep as <-.
  eexists. split_and!; reflexivity.
Defined.

(** Both hypotheses are used.  [_prep] copies the peer list as it is, so a
    peer id that is listed twice is chosen twice; and for a negative
    [MinSuccessors] the loop [range(num_succ)] is empty. *)
Lemma successors_of_a_list_with_duplicates :
  ¬ successors_as_specified (mk "b" [] [] 0 2) ["a"; "a"] ∧
  ¬ successors_as_specified (mk "b" [] [] 0 (-1)) ["a"].
Proof.
  split; intros (self' & succ & Hprep & Hget & Hlen & Hnd).
  - vm_compute in Hprep. injection Hprep as <-.
    vm_compute in Hget. injection Hget as <-.
    apply NoDup_cons in Hnd as [Hnot _]. apply Hnot, list_elem_of_here.
  - vm_compute in Hprep. injection Hprep as <-.
    vm_compute in Hget. injection Hget as <-.
    vm_compute in Hlen. discriminate.
Qed.

(** *** Distances on the ring *)

(** [nsz] is never 0, so [%] cannot fail; the [ValueError] of
    [self._nodes.index(peer_id)] is caught and logged, and [dst] stays 0. *)
Definition _distance (peer_id : string) : M t Z := λ self,
  let dst := 0 in
  let nsz := Z.max 1 (Z.of_nat (length (_nodes self))) in
  match list_index peer_id (_nodes self) with
  | Some pr_i => (Ok ((Z.of_nat pr_i + nsz - _my_idx self) `mod` nsz), self)
  | None => (Ok dst, self)
  end.

Lemma list_index_Some (x : string) (l : list string) (i : nat) :
  list_index x l = Some i → l !! i = Some x.
Proof.
  revert i. induction l as [|y l IH]; intros i; simpl; [done|].
  case_decide; [by intros [= <-]; subst|].
  destruct (list_index x l) as [j|]; simpl; [|done]. intros [= <-]. by apply IH.
Qed.

Lemma list_index_None (x : string) (l : list string) : list_index x l = None → x ∉ l.
Proof.
  induction l as [|y l IH]; simpl; [intros _; apply not_elem_of_nil|].
  case_decide; [done|]. destruct (list_index x l); simpl; [done|].
  intros _. apply not_elem_of_cons. auto.
Qed.

Lemma list_index_NoDup (x : string) (l : list string) (i : nat) :
  NoDup l → l !! i = Some x → list_index x l = Some i.
Proof.
  intros Hnd Hi.
  destruct (list_index_first x l) as (j & Hj & Hjx); [by eapply list_elem_of_lookup_2|].
  rewrite Hj. f_equal. by eapply NoDup_lookup.
Qed.

(** X1.  After [_prep], for every peer list: the distance of a node of the
    ring is the number of steps from this node's index to the first position
    of that node, clockwise, so it lies in [0, |nodes|) and [nodes[(my_idx +
    distance) mod |nodes|]] is that node; the distance is 0 exactly for the
    node itself; and the distance of an id that is not on the ring is also 0
    (the [ValueError] of [index] is swallowed). *)
Theorem distance_is_clockwise_offset (self : t) (peers : list string) :
  ∃ self',
    _prep peers self = (Ok tt, self') ∧
    let N := Z.of_nat (length (_nodes self')) in
    ∀ p, ∃ d,
      _distance p self' = (Ok d, self') ∧
      0 ≤ d < N ∧
      (p ∈ _nodes self' →
         _nodes self' !! Z.to_nat ((_my_idx self' + d) `mod` N) = Some p ∧
         (d = 0 ↔ p = _node_id self)) ∧
      (p ∉ _nodes self' → d = 0).
Proof.
  destruct (_prep_spec self peers) as (i & Hidx & Hi & Hprep).
  eexists. split; [exact Hprep|]. simpl.
  set (nodes := py_sorted (peers ++ [_node_id self])) in *.
  assert (i < length nodes)%nat as HiN by (by eapply lookup_lt_Some).
  set (N := Z.of_nat (length nodes)).
  assert (Z.max 1 N = N) as Hmax by lia.
  intros p. unfold _distance. simpl. fold nodes N. rewrite Hmax.
  destruct (list_index p nodes) as [j|] eqn:Hj.
  - pose proof (list_index_Some _ _ _ Hj) as Hjp.
    assert (j < length nodes)%nat as HjN by (by eapply lookup_lt_Some).
    eexists. split; [reflexivity|].
    pose proof (Z.mod_pos_bound (Z.of_nat j + N - Z.of_nat i) N ltac:(lia)) as Hb.
    split; [lia|]. split; [|intros Hnot; exfalso; by eapply Hnot, list_elem_of_lookup_2].
    intros _.
    assert ((Z.of_nat i + (Z.of_nat j + N - Z.of_nat i) `mod` N) `mod` N = Z.of_nat j) as Hpos.
    { rewrite Zplus_mod_idemp_r.
      replace (Z.of_nat i + (Z.of_nat j + N - Z.of_nat i)) with (Z.of_nat j + 1 * N) by lia.
      rewrite Z.mod_add by lia. apply Z.mod_small. lia. }
    split; [by rewrite Hpos, Nat2Z.id|]. split.
    + intros Hd. rewrite Hd, Z.add_0_r, Z.mod_small in Hpos by lia.
      apply Nat2Z.inj in Hpos. subst j. congruence.
    + intros ->. rewrite Hidx in Hj. injection Hj as <-.
      replace (Z.of_nat i + N - Z.of_nat i) with N by lia. apply Z_mod_same_full.
  - exists 0. split; [reflexivity|]. split; [lia|]. split; [|done].
    intros Hin. by apply list_index_None in Hj.
Qed.

(** X2.  [_get_successors] and [_distance] agree.  For a duplicate-free
    peer list that does not contain this node's id, the j-th successor
    (counting from 0) is at distance j + 1. *)
Theorem successors_at_distance (self : t) (peers : list string) :
  _node_id self ∉ peers →
  NoDup peers →
  ∃ self' succ,
    _prep peers self = (Ok tt, self') ∧
    _get_successors self' = (Ok succ, self') ∧
    ∀ j x, succ !! j = Some x → _distance x self' = (Ok (Z.of_nat j + 1), self').
Proof.
  intros Hself Hnd.
  destruct (_prep_spec self peers) as (i & _ & Hi & Hprep).
  set (nodes := py_sorted (peers ++ [_node_id self])) in *.
  assert (nodes ≡ₚ peers ++ [_node_id self]) as Hperm by apply py_sorted_Permutation.
  assert (length nodes = S (length peers)) as Hlen.
  { rewrite Hperm, length_app. simpl. lia. }
  assert (NoDup nodes) as Hndn.
  { rewrite Hperm. apply NoDup_app. split_and!; [done| |apply NoDup_singleton].
    intros y Hy ->%list_elem_of_singleton. done. }
  assert (i < length nodes)%nat as HiN by (by eapply lookup_lt_Some).
  set (ms := _min_successors self).
  set (k := Z.to_nat (if decide (Z.of_nat (length peers) >= ms)
                      then ms else Z.of_nat (length peers))).
  assert (k ≤ length peers)%nat as Hk by (unfold k; case_decide; lia).
  destruct (successors_loop_spec nodes k (Z.of_nat i + 1) [])
    as (succ & Hloop & Hsl & Hsucc); [lia|].
  eexists _, succ. split_and!; [exact Hprep| |].
  - unfold _get_successors. simpl. fold nodes ms k. by rewrite Hloop.
  - intros j x Hj.
    assert (j < k)%nat as Hjk by (rewrite <- Hsl; by eapply lookup_lt_Some).
    rewrite Hsucc in Hj by done.
    set (N := Z.of_nat (length nodes)) in *.
    pose proof (Z.mod_pos_bound (Z.of_nat i + 1 + Z.of_nat j) N ltac:(lia)) as Hb.
    unfold _distance. simpl. fold nodes N.
    rewrite (list_index_NoDup _ _ _ Hndn Hj). rewrite Z2Nat.id by lia.
    replace (Z.max 1 N) with N by lia. do 2 f_equal.
    pose proof (Z.div_mod (Z.of_nat i + 1 + Z.of_nat j) N ltac:(lia)) as Hdm.
    set (q := (Z.of_nat i + 1 + Z.of_nat j) `div` N) in Hdm.
    set (m := (Z.of_nat i + 1 + Z.of_nat j) `mod` N) in *.
    replace (m + N - Z.of_nat i) with (Z.of_nat j + 1 + (1 - q) * N) by lia.
    rewrite Z.mod_add by lia. apply Z.mod_small. lia.
Qed.

Lemma successors_at_distance_witness :
  ∃ self',
    _prep ["n3"; "n1"; "n4"] (mk "n2" [] [] 0 2) = (Ok tt, self') ∧
    _get_successors self' = (Ok ["n3"; "n4"], self') ∧
    _distance "n3" self' = (Ok 1, self') ∧
    _distance "n4" self' = (Ok 2, self').
Proof.
  destruct (successors_at_distance (mk "n2" [] [] 0 2) ["n3"; "n1"; "n4"])
    as (self' & succ & Hprep & Hsucc & Hdist).
  { simpl. set_solver. }
  { repeat (apply NoDup_cons; split; [set_solver|]). apply NoDup_nil_2. }
  exists self'. split; [done|].
  assert (succ = ["n3"; "n4"]) as ->.
  { vm_compute in Hprep. injection Hprep as <-. vm_compute in Hsucc. by injection Hsucc as <-. }
  split; [done|]. split; [apply (Hdist 0%nat)|apply (Hdist 1%nat)]; reflexivity.
Defined.


(** *** The all-to-all adjacency list *)

(** Modelled from the spec: [controllers/network_graph.py] is not among
    the sources.  An adjacency list is a mapping from peer id to connection
    edge (section 3), here a dictionary in insertion order; of a new edge
    only what the builder passes to the constructor is kept (peer id, edge
    type, role). *)
Inductive EDGE_TYPE_OUT : Type := Static | Successor | LongDistance | OnDemand.
Inductive CONNECTION_ROLE : Type := Initiator | Target.

Record ConnectionEdge : Type := mkConnectionEdge {
  peer_id : string;
  edge_type : EDGE_TYPE_OUT;
  role : CONNECTION_ROLE;
}.

Section adjacency.
(** [self._static_edges] and [self._manual_topo], set once from the
    configuration. *)
Variable _static_edges : list string.
Variable _manual_topo : bool.

Definition build_adj_list_ata : M t (list (string * ConnectionEdge)) := λ self,
  let adj_list :=
    foldl (λ adj_list p,
             if (match _static_edges with
                 | [] => false
                 | _ => bool_decide (p ∈ _static_edges)
                 end)
             then dict_set p (mkConnectionEdge p Static Initiator) adj_list
             else if negb _manual_topo && String.ltb (_node_id self) p
             then dict_set p (mkConnectionEdge p Successor Initiator) adj_list
             else adj_list) [] (_peers self) in
  (Ok adj_list, self).

(** The edge, if any, that the loop of [build_adj_list_ata] files for the
    peer [p]. *)
Definition ata_edge (self : t) (p : string) : option ConnectionEdge :=
  if (match _static_edges with
      | [] => false
      | _ => bool_decide (p ∈ _static_edges)
      end)
  then Some (mkConnectionEdge p Static Initiator)
  else if negb _manual_topo && String.ltb (_node_id self) p
  then Some (mkConnectionEdge p Successor Initiator)
  else None.

Lemma ata_loop (self : t) (p : string) (peers : list string)
    (acc : list (string * ConnectionEdge)) :
  dict_get p (foldl (λ adj_list p,
                       if (match _static_edges with
                           | [] => false
                           | _ => bool_decide (p ∈ _static_edges)
                           end)
                       then dict_set p (mkConnectionEdge p Static Initiator) adj_list
                       else if negb _manual_topo && String.ltb (_node_id self) p
                       then dict_set p (mkConnectionEdge p Successor Initiator) adj_list
                       else adj_list) acc peers) =
  if decide (p ∈ peers)
  then match ata_edge self p with Some ce => Some ce | None => dict_get p acc end
  else dict_get p acc.
Proof.
  revert acc. induction peers as [|q peers IH]; intros acc; cbn [foldl].
  - rewrite decide_False; [done|]. apply not_elem_of_nil.
  - rewrite IH. unfold ata_edge. destruct (decide (p = q)) as [->|Hne].
    + rewrite (decide_True (P := q ∈ q :: peers)) by apply list_elem_of_here.
      destruct (match _static_edges with [] => false | _ => bool_decide (q ∈ _static_edges) end).
      * rewrite dict_get_set_eq. by case_decide.
      * destruct (negb _manual_topo && String.ltb (_node_id self) q).
        -- rewrite dict_get_set_eq. by case_decide.
        -- by case_decide.
    + assert (∀ d, dict_get p
                (if (match _static_edges with
                     | [] => false
                     | _ => bool_decide (q ∈ _static_edges)
                     end)
                 then dict_set q (mkConnectionEdge q Static Initiator) d
                 else if negb _manual_topo && String.ltb (_node_id self) q
                 then dict_set q (mkConnectionEdge q Successor Initiator) d
                 else d) = dict_get p d) as Hframe.
      { intros d.
        destruct (match _static_edges with [] => false | _ => bool_decide (q ∈ _static_edges) end);
          [by apply dict_get_set_ne|].
        destruct (negb _manual_topo && String.ltb (_node_id self) q);
          [by apply dict_get_set_ne|done]. }
      rewrite Hframe.
      destruct (decide (p ∈ peers)) as [Hin|Hnin].
      * rewrite decide_True; [done|]. by apply list_elem_of_further.
      * rewrite decide_False; [done|]. rewrite not_elem_of_cons. naive_solver.
Qed.

Lemma ata_get (self : t) (adj_list : list (string * ConnectionEdge)) (p : string) :
  build_adj_list_ata self = (Ok adj_list, self) →
  dict_get p adj_list = if decide (p ∈ _peers self) then ata_edge self p else None.
Proof.
  intros [= <-]. rewrite ata_loop. case_decide; [|done]. by destruct (ata_edge self p).
Qed.

End adjacency.

Lemma ltb_one_way (a b : string) : a ≠ b → String.ltb a b = negb (String.ltb b a).
Proof.
  intros Hne. unfold String.ltb. rewrite (String.compare_antisym b a).
  destruct (String.compare a b) eqn:Hc; simpl; try done.
  by apply String.compare_eq_iff in Hc.
Qed.

(** X3.  The all-to-all adjacency list with no static edges in an automatic
    topology.  The list of a node has exactly the peers whose id is greater
    than the node's own id, each filed under its own id as an initiating
    successor edge; hence, of two distinct nodes that list each other as
    peers, exactly one has an edge to the other. *)
Theorem all_to_all_has_one_initiator (a b : t) :
  _node_id a ≠ _node_id b →
  _node_id b ∈ _peers a →
  _node_id a ∈ _peers b →
  ∃ adj_a adj_b,
    build_adj_list_ata [] false a = (Ok adj_a, a) ∧
    build_adj_list_ata [] false b = (Ok adj_b, b) ∧
    (∀ p, dict_get p adj_a =
            if bool_decide (p ∈ _peers a) && String.ltb (_node_id a) p
            then Some (mkConnectionEdge p Successor Initiator) else None) ∧
    (is_Some (dict_get (_node_id b) adj_a) ↔ ¬ is_Some (dict_get (_node_id a) adj_b)).
Proof.
  intros Hne Hb Ha. eexists _, _. split; [reflexivity|]. split; [reflexivity|].
  split.
  - intros p. rewrite (ata_get [] false a _ p eq_refl). unfold ata_edge. simpl.
    destruct (decide (p ∈ _peers a)) as [Hin|Hnin].
    + rewrite bool_decide_eq_true_2 by done. simpl.
      by destruct (String.ltb (_node_id a) p).
    + by rewrite bool_decide_eq_false_2.
  - rewrite (ata_get [] false a _ _ eq_refl), (ata_get [] false b _ _ eq_refl).
    unfold ata_edge. simpl.
    rewrite !decide_True by done. rewrite (ltb_one_way (_node_id a) (_node_id b)) by done.
    destruct (String.ltb (_node_id b) (_node_id a)); simpl.
    + split; [by intros [? ?]|]. intros Hn. exfalso. apply Hn. eauto.
    + split; [intros _ [? ?]; done|]. eauto.
Qed.

Lemma all_to_all_has_one_initiator_witness :
  build_adj_list_ata [] false (mk "n1" ["n2"; "n3"] [] 0 2) =
    (Ok [("n2", mkConnectionEdge "n2" Successor Initiator);
         ("n3", mkConnectionEdge "n3" Successor Initiator)],
     mk "n1" ["n2"; "n3"] [] 0 2) ∧
  build_adj_list_ata [] false (mk "n2" ["n1"; "n3"] [] 0 2) =
    (Ok [("n3", mkConnectionEdge "n3" Successor Initiator)], mk "n2" ["n1"; "n3"] [] 0 2) ∧
  (is_Some (dict_get "n2" [("n2", mkConnectionEdge "n2" Successor Initiator);
                           ("n3", mkConnectionEdge "n3" Successor Initiator)]) ↔
   ¬ is_Some (dict_get "n1" [("n3", mkConnectionEdge "n3" Successor Initiator)])).
Proof.
  destruct (all_to_all_has_one_initiator (mk "n1" ["n2"; "n3"] [] 0 2)
              (mk "n2" ["n1"; "n3"] [] 0 2))
    as (adj_a & adj_b & Hadj_a & Hadj_b & _ & Hone); [done|simpl; set_solver..|].
  vm_compute in Hadj_a. injection Hadj_a as <-.
  vm_compute in Hadj_b. injection Hadj_b as <-.
  split; [reflexivity|]. split; [reflexivity|]. exact Hone.
Defined.


End GraphBuilder.

(** ** controllers/signal.py: class [JidCache]

    Readings of [time.time()] and the expiry are integers (clock ticks);
    each method takes the reading [now] it obtains from the clock. *)

Module JidCache.

Record t : Type := mk {
  _cache : gmap string (string * Z);   (* node id -> (jid, timestamp) *)
  _expiry : Z;
}.

Definition add_entry (now : Z) (node_id jid : string) : M t Z := λ self,
  let ts := now in
  (Ok ts, {| _cache := <[node_id := (jid, ts)]> (_cache self);
             _expiry := _expiry self |}).

Definition scavenge (now : Z) : M t unit := λ self,
  let curr_time := now in
  (Ok tt,
   {| _cache := filter (λ kv, ¬ (curr_time - kv.2.2 >= _expiry self)) (_cache self);
      _expiry := _expiry self |}).

Definition lookup (now : Z) (node_id : string) : M t (option string) := λ self,
  match _cache self !! node_id with
  | Some entry =>
      if decide (now - entry.2 < _expiry self)
      then (Ok (Some entry.1), self)
      else (Ok None, {| _cache := delete node_id (_cache self);
                        _expiry := _expiry self |})
  | None => (Ok None, self)
  end.

(** C9.  After [add_entry(n, a)] returned the timestamp [t], a [lookup(n)]
    made while [now - t < expiry] returns [a] and leaves the cache as it
    is; a [lookup(n)] made when [now - t >= expiry] returns nothing and
    removes the entry of [n] from the cache. *)
Theorem lookup_after_add_entry (self : t) (n a : string) (clock now : Z) :
  ∃ ts self1,
    add_entry clock n a self = (Ok ts, self1) ∧
    _cache self1 !! n = Some (a, ts) ∧
    (now - ts < _expiry self → lookup now n self1 = (Ok (Some a), self1)) ∧
    (now - ts >= _expiry self →
       ∃ self2, lookup now n self1 = (Ok None, self2) ∧
                _cache self2 !! n = None ∧
                _cache self2 = delete n (_cache self1)).
Proof.
  eexists _, _. split; [reflexivity|]. simpl.
  split; [apply lookup_insert_eq|].
  unfold lookup. simpl. rewrite lookup_insert_eq. simpl. split; intros Hage.
  - by rewrite decide_True.
  - rewrite decide_False by lia. eexists. split; [reflexivity|]. simpl.
    split; [apply lookup_delete_eq|done].
Qed.

Lemma lookup_after_add_entry_witness :
  let c := mk ∅ 2 in
  ∃ self1, add_entry 0 "P1" "p1@host" c = (Ok 0, self1) ∧
    lookup 1 "P1" self1 = (Ok (Some "p1@host"), self1) ∧
    ∃ self2, lookup 3 "P1" self1 = (Ok None, self2) ∧ _cache self2 !! "P1" = None.
Proof.
  intros c.
  destruct (lookup_after_add_entry c "P1" "p1@host" 0 1)
    as (ts & self1 & Hadd & _ & Hfresh & _).
  destruct (lookup_after_add_entry c "P1" "p1@host" 0 3)
    as (ts' & self1' & Hadd' & _ & _ & Hstale).
  injection Hadd as <- <-. injection Hadd' as <- <-.
  eexists. split; [reflexivity|]. split.
  - apply Hfresh. simpl. lia.
  - destruct Hstale as (self2 & Hl & Hnone & _); [simpl; lia|].
    exists self2. by split.
Defined.

(** Entries that are still fresh survive [scavenge]; stale ones do not. *)
Lemma scavenge_lookup (self self' : t) (now : Z) (n : string) :
  scavenge now self = (Ok tt, self') →
  _cache self' !! n =
    match _cache self !! n with
    | Some (a, ts) => if decide (now - ts < _expiry self) then Some (a, ts) else None
    | None => None
    end.
Proof.
  intros [= <-]. simpl.
  destruct (_cache self !! n) as [[a ts]|] eqn:Hn.
  - case_decide.
    + apply map_lookup_filter_Some. split; [done|]. simpl. lia.
    + apply map_lookup_filter_None. right. intros x Hx. simpl.
      rewrite Hn in Hx. injection Hx as <-. simpl. lia.
  - apply map_lookup_filter_None. by left.
Qed.

(** X4.  [scavenge] removes exactly the entries that are at least [expiry]
    old and keeps the others as they are; for the clock not running
    backwards, no later [lookup] can tell whether [scavenge] ran: it returns
    the same answer with or without it. *)
Theorem scavenge_is_invisible_to_lookup (self : t) (now : Z) :
  ∃ self',
    scavenge now self = (Ok tt, self') ∧
    _expiry self' = _expiry self ∧
    (∀ n a ts, _cache self' !! n = Some (a, ts) ↔
               _cache self !! n = Some (a, ts) ∧ now - ts < _expiry self) ∧
    ∀ now' n, now ≤ now' → (lookup now' n self').1 = (lookup now' n self).1.
Proof.
  eexists. split; [reflexivity|]. simpl. split; [done|].
  assert (∀ n a ts,
            filter (λ kv : string * (string * Z), ¬ now - kv.2.2 >= _expiry self)
              (_cache self) !! n = Some (a, ts) ↔
            _cache self !! n = Some (a, ts) ∧ now - ts < _expiry self) as Hkept.
  { intros n a ts. rewrite map_lookup_filter_Some. simpl. split; intros [? ?]; split; [done|lia|done|lia]. }
  split; [exact Hkept|].
  intros now' n Hlater. unfold lookup. simpl.
  destruct (_cache self !! n) as [[a ts]|] eqn:Hn.
  - destruct (decide (now - ts < _expiry self)) as [Hfresh|Hstale].
    + rewrite (proj2 (Hkept n a ts)) by done. simpl. by case_decide.
    + rewrite (proj2 (map_lookup_filter_None _ _ n)).
      * simpl. rewrite decide_False by lia. done.
      * right. intros x Hx. rewrite Hn in Hx. injection Hx as <-. simpl. lia.
  - rewrite (proj2 (map_lookup_filter_None _ _ n)); [done|]. by left.
Qed.


End JidCache.

(** ** broker/timed_transactions.py

    [Item] is the registered object and [W] the state that the callbacks
    [is_completed] and [on_expired] act on.  The standard [sched.scheduler]
    is its queue of events ordered by (time, priority, sequence number);
    [run()] pops the events in that order and calls their action, waiting
    for the due time of each. *)

Module TimedTransactions.
Section with_callbacks.
Context {Item W : Type}.

Record Transaction : Type := mkTransaction {
  item : Item;
  _is_completed : Item → M W bool;
  on_expired : Item → Z → M W unit;
  lifespan : Z;
  priority : Z;
}.

Definition is_completed (self : Transaction) : M W bool :=
  _is_completed self (item self).

Record event : Type := mkEvent {
  ev_time : Z;
  ev_priority : Z;
  ev_sequence : nat;
  ev_argument : Transaction;
}.

Record t : Type := mk {
  _exit_ev : bool;
  _chk_interval : Z;
  _queue : list event;       (* self._sched._queue *)
  _sequence : nat;           (* the scheduler's sequence generator *)
  clock : Z;
  world : W;
}.

Definition event_lt (a b : event) : bool :=
  (ev_time a <? ev_time b)
  || ((ev_time a =? ev_time b)
      && ((ev_priority a <? ev_priority b)
          || ((ev_priority a =? ev_priority b)
              && (ev_sequence a <? ev_sequence b)%nat))).

(** [heapq.heappush] seen through the order in which [run()] pops. *)
Fixpoint heappush (q : list event) (ev : event) : list event :=
  match q with
  | [] => [ev]
  | x :: q' => if event_lt ev x then ev :: x :: q' else x :: heappush q' ev
  end.

Definition register (entry : Transaction) : M t unit := λ self,
  if _exit_ev self then (Ok tt, self)
  else
    let ev := mkEvent (clock self + lifespan entry) (priority entry)
                      (_sequence self) entry in
    (Ok tt, mk (_exit_ev self) (_chk_interval self) (heappush (_queue self) ev)
               (S (_sequence self)) (clock self) (world self)).

(** [now] is the reading of [time.time()] stored in [entry.time_expired]. *)
Definition _get_expired (now : Z) (entry : Transaction) : M W unit :=
  completed ← is_completed entry;
  if negb completed then on_expired entry (item entry) now else mret tt.

(** [self._sched.run()]: [n] bounds the number of queued events. *)
Fixpoint sched_run (n : nat) : M t unit := λ self,
  match n, _queue self with
  | S n', ev :: q =>
      let now := Z.max (clock self) (ev_time ev) in
      match _get_expired now (ev_argument ev) (world self) with
      | (Ok _, w) =>
          sched_run n' (mk (_exit_ev self) (_chk_interval self) q
                           (_sequence self) now w)
      | (Raise e, w) =>
          (Raise e, mk (_exit_ev self) (_chk_interval self) q
                       (_sequence self) now w)
      end
  | _, _ => (Ok tt, self)
  end.

(** The worker thread: [while not self._exit_ev.wait(interval): run()],
    followed for [ticks] wake-ups.  [Raise e] is the thread ending with
    the uncaught exception [e]. *)
Fixpoint _run (ticks : nat) : M t unit := λ self,
  match ticks with
  | O => (Ok tt, self)
  | S ticks' =>
      if _exit_ev self then (Ok tt, self)
      else
        let self1 := mk (_exit_ev self) (_chk_interval self) (_queue self)
                        (_sequence self) (clock self + _chk_interval self)
                        (world self) in
        match sched_run (length (_queue self1)) self1 with
        | (Ok _, self2) => _run ticks' self2
        | (Raise e, self2) => (Raise e, self2)
        end
  end.

Definition terminate : M t unit := λ self,
  (Ok tt, mk true (_chk_interval self) [] (_sequence self) (clock self) (world self)).

(** A callback of [entry] raises [e] when the entry fires in world [w]. *)
Definition callback_raises (entry : Transaction) (now : Z) (w : W) (e : exn) (w' : W) : Prop :=
  is_completed entry w = (Raise e, w') ∨
  ∃ w1, is_completed entry w = (Ok false, w1) ∧
        on_expired entry (item entry) now w1 = (Raise e, w').

Lemma _get_expired_propagates entry now w e w' :
  callback_raises entry now w e w' → _get_expired now entry w = (Raise e, w').
Proof.
  unfold _get_expired, mbind, M_bind.
  intros [->|(w1 & -> & Hexp)]; [done|]. simpl. exact Hexp.
Qed.

(** Running the events [pre] first and then what is queued behind them. *)
Lemma sched_run_app (pre rest : list event) (n : nat) ex int sq clk (w : W) :
  match sched_run (length pre) (mk ex int pre sq clk w) with
  | (Ok _, s1) =>
      sched_run (length pre + n) (mk ex int (pre ++ rest) sq clk w) =
      sched_run n (mk ex int rest sq (clock s1) (world s1))
  | (Raise e, s1) =>
      sched_run (length pre + n) (mk ex int (pre ++ rest) sq clk w) =
      (Raise e, mk ex int (_queue s1 ++ rest) sq (clock s1) (world s1))
  end.
Proof.
  revert clk w. induction pre as [|ev pre IH]; intros clk w; simpl.
  - by destruct n.
  - destruct (_get_expired (Z.max clk (ev_time ev)) (ev_argument ev) w) as [[[]|e] w1].
    + apply IH.
    + reflexivity.
Qed.

End with_callbacks.
Arguments Transaction : clear implicits.
Arguments event : clear implicits.
Arguments t : clear implicits.
End TimedTransactions.

(** X5.  After [terminate], nothing fires any more.  [terminate] sets the
    exit flag and drops the queue without calling any callback; from then on
    [register] is a no-op for every transaction, the worker loop ends at its
    next wake-up without touching the world, and a second [terminate]
    changes nothing. *)
Theorem nothing_fires_after_terminate {Item W : Type} (self : TimedTransactions.t Item W)
    (entries : list (TimedTransactions.Transaction Item W)) (ticks : nat) :
  let stopped :=
    TimedTransactions.mk true (TimedTransactions._chk_interval self) []
      (TimedTransactions._sequence self) (TimedTransactions.clock self)
      (TimedTransactions.world self) in
  TimedTransactions.terminate self = (Ok tt, stopped) ∧
  for_each entries TimedTransactions.register stopped = (Ok tt, stopped) ∧
  TimedTransactions._run ticks stopped = (Ok tt, stopped) ∧
  TimedTransactions.terminate stopped = (Ok tt, stopped).
Proof.
  intros stopped. split_and!.
  - reflexivity.
  - induction entries as [|entry entries IH]; [done|].
    cbn [for_each]. by erewrite bind_returns.
  - by destruct ticks.
  - reflexivity.
Qed.


(** C8 (amended).  [TimedTransactions] has no exception handler: when
    [is_complete_fn] or [on_expire_fn] of a due entry raises, after the
    entries [pre] before it have fired and returned, the exception leaves
    [_get_expired], leaves the scheduler's [run()] and ends the worker loop
    [_run]; the entries [q] behind it stay in the queue and their callbacks
    are not called. *)
Theorem callback_exception_ends_worker {Item W : Type}
    (self s1 : TimedTransactions.t Item W)
    (pre : list (TimedTransactions.event Item W))
    (ev : TimedTransactions.event Item W)
    (q : list (TimedTransactions.event Item W)) (ticks : nat) (e : exn) (w' : W) :
  TimedTransactions._exit_ev self = false →
  TimedTransactions._queue self = pre ++ ev :: q →
  TimedTransactions.sched_run (length pre)
    (TimedTransactions.mk false (TimedTransactions._chk_interval self) pre
       (TimedTransactions._sequence self)
       (TimedTransactions.clock self + TimedTransactions._chk_interval self)
       (TimedTransactions.world self)) = (Ok tt, s1) →
  TimedTransactions.callback_raises (TimedTransactions.ev_argument ev)
    (Z.max (TimedTransactions.clock s1) (TimedTransactions.ev_time ev))
    (TimedTransactions.world s1) e w' →
  TimedTransactions._run (S ticks) self =
    (Raise e,
     TimedTransactions.mk false (TimedTransactions._chk_interval self) q
       (TimedTransactions._sequence self)
       (Z.max (TimedTransactions.clock s1) (TimedTransactions.ev_time ev))
       w').
Proof.
  intros Hexit Hq Hpre Hraise.
  apply TimedTransactions._get_expired_propagates in Hraise.
  destruct self as [ex int queue sq clk w]. simpl in *. subst ex queue.
  pose proof (TimedTransactions.sched_run_app pre (ev :: q) (S (length q))
                false int sq (clk + int) w) as Happ.
  rewrite Hpre in Happ. rewrite length_app. simpl length. rewrite Happ.
  simpl. by rewrite Hraise.
Qed.

Module TimedTransactionsExample.
Import TimedTransactions.

(** Two transactions over a log of expired items: the first one's
    completion test raises, the second one is incomplete and would log its
    item on expiry. *)
Definition log_expired (it : string) (now : Z) : M (list string) unit :=
  modify (λ w, w ++ [it]).
Definition faulty : Transaction string (list string) :=
  mkTransaction "T1" (λ _, raise (UserError "boom")) log_expired 1 10.
Definition pending : Transaction string (list string) :=
  mkTransaction "T2" (λ _, mret false) log_expired 1 10.
Definition started : t string (list string) := mk false 1 [] 0 0 [].
Definition loaded : t string (list string) :=
  snd ((register faulty ≫= λ _, register pending) started).

End TimedTransactionsExample.

Lemma callback_exception_ends_worker_witness :
  TimedTransactions._run 3 TimedTransactionsExample.loaded =
    (Raise (UserError "boom"),
     TimedTransactions.mk false 1
       [TimedTransactions.mkEvent 1 10 1 TimedTransactionsExample.pending] 2 1 []).
Proof.
  apply (callback_exception_ends_worker TimedTransactionsExample.loaded
           (TimedTransactions.mk false 1 [] 2 1 []) []
           (TimedTransactions.mkEvent 1 10 0 TimedTransactionsExample.faulty)
           [TimedTransactions.mkEvent 1 10 1 TimedTransactionsExample.pending]
           2 (UserError "boom") []).
  - reflexivity.
  - reflexivity.
  - reflexivity.
  - left. reflexivity.
Defined.

(** C8 as worded fails: the worker does not survive the raising callback
    and never expires the entry queued behind it. *)
Lemma worker_does_not_survive_exception :
  ¬ ∃ self', TimedTransactions._run 3 TimedTransactionsExample.loaded = (Ok tt, self') ∧
             TimedTransactions.world self' = ["T2"].
Proof. intros (self' & Hrun & _). vm_compute in Hrun. discriminate. Qed.

(** ** controllers/tunnel.py *)

(** Modelled from the spec: [controllers/tunnel.py], which declares the
    tunnel states, the tunnel events, the data-plane kinds and the tunnel
    record of the kernel-flavour manager, is not among the sources.  The
    five states and the five events are those of the specification's data
    model. *)
Inductive TUNNEL_STATES : Type := AUTHORIZED | CREATING | QUERYING | ONLINE | OFFLINE.
Inductive TUNNEL_EVENTS : Type := Authorized | AuthExpired | Connected | Disconnected | Removed.
Inductive DATAPLANE_TYPES : Type := Geneve | Tincan.

#[export] Instance TUNNEL_STATES_eq_dec : EqDecision TUNNEL_STATES.
Proof. solve_decision. Defined.
#[export] Instance TUNNEL_EVENTS_eq_dec : EqDecision TUNNEL_EVENTS.
Proof. solve_decision. Defined.
#[export] Instance DATAPLANE_TYPES_eq_dec : EqDecision DATAPLANE_TYPES.
Proof. solve_decision. Defined.

Module Tunnel.

(** Modelled from the spec: the tunnel record of [controllers/tunnel.py]
    has the attributes the kernel-flavour manager reads and writes; a new
    record has no MAC address yet. *)
Record t : Type := mk {
  tnlid : string;
  overlay_id : string;
  peer_id : string;
  state : TUNNEL_STATES;
  tap_name : string;
  dataplane : DATAPLANE_TYPES;
  mac : option string;
  peer_mac : option string;
}.

(** [Tunnel(tnlid, overlay_id, peer_id, tnl_state, tap_name, dataplane)] *)
Definition new (tnlid overlay_id peer_id : string) (tnl_state : TUNNEL_STATES)
    (tap_name : string) (dataplane : DATAPLANE_TYPES) : t :=
  mk tnlid overlay_id peer_id tnl_state tap_name dataplane None None.

Definition with_state (st : TUNNEL_STATES) (tnl : t) : t :=
  mk (tnlid tnl) (overlay_id tnl) (peer_id tnl) st (tap_name tnl)
     (dataplane tnl) (mac tnl) (peer_mac tnl).
Definition with_peer_mac (m : option string) (tnl : t) : t :=
  mk (tnlid tnl) (overlay_id tnl) (peer_id tnl) (state tnl) (tap_name tnl)
     (dataplane tnl) (mac tnl) m.

End Tunnel.

(** ** The request/response bus *)

Module Bus.

(** Modelled from the spec: [broker/cbt.py] and [broker/remote_action.py]
    are not among the sources.  A CBT is the envelope of section 4.7 (tag,
    request parameters, response slot, optional parent); a RemoteAction is
    the value object of section 2.  A parameter dictionary is a record of
    optional keys: a key that is [None] is absent and reading it raises
    [KeyError]. *)
Record Params : Type := mkParams {
  p_OverlayId : option string;
  p_TunnelId : option string;
  p_PeerId : option string;
  p_NodeId : option string;
  p_VNId : option Z;
  p_MAC : option (option string);
  p_EndPointAddress : option string;
  p_Dataplane : option DATAPLANE_TYPES;
}.

Definition no_params : Params := mkParams None None None None None None None None.

Record RemoteAction : Type := mkRemoteAction {
  overlay_id : string;
  recipient_id : string;
  recipient_cm : string;
  action : string;
  params : Params;
  data : Params;
}.

(** The parameters of the requests sent to the data plane ([TCI_*]). *)
Record TciParams : Type := mkTciParams {
  tci_OverlayId : string;
  tci_TunnelId : string;
  tci_LinkId : option string;
  tci_PeerId : string;
  tci_TapName : option string;
  tci_TincanId : Z;
}.

(** One entry [resp_data[tnlid][lnkid]] of a [TCI_QUERY_LINK_STATS]
    response.  The response dictionary of the data plane, [PLinkStats]
    below, holds an optional ["CurrentId"] (the session id of the data
    plane) and the entries by tunnel id and link id, in the order of the
    dictionary. *)
Record LinkStat : Type := mkLinkStat {
  Status : string;
  Stats : option string;
}.

Inductive payload : Type :=
| PNone
| PText (s : string)
| PDict (p : Params)
| PRemAct (ra : RemoteAction)
| PTci (p : TciParams)
| PTunnelIds (tnlids : list string)
| PLinkStats (CurrentId : option Z) (stats : list (string * list (string * LinkStat))).

Record Response : Type := mkResponse {
  r_data : payload;
  r_status : bool;
}.

Inductive CBT : Type := mkCBT {
  tag : nat;
  request_params : payload;
  response : option Response;
  parent : option CBT;
}.

(** [cbt.set_response(data, status)] *)
Definition set_response (data : payload) (status : bool) (cbt : CBT) : CBT :=
  mkCBT (tag cbt) (request_params cbt) (Some (mkResponse data status)) (parent cbt).

(** The parameters of an event handed to a publisher's [post_update]. *)
Record Update : Type := mkUpdate {
  UpdateType : TUNNEL_EVENTS;
  u_OverlayId : string;
  u_PeerId : string;
  u_TunnelId : string;
  u_LinkId : option string;
  u_TapName : option string;
  u_ConnectedTimestamp : option Z;
  u_MAC : option string;
  u_PeerMac : option string;
  u_Dataplane : option DATAPLANE_TYPES;
}.

(** [cbt.request.params] read as a dictionary. *)
Definition request_dict {St} (cbt : CBT) : M St Params :=
  match request_params cbt with
  | PDict p => mret p
  | _ => raise (TypeError "request params is not a dict")
  end.

(** [cbt.request.params] and [cbt.response.data] read as a RemoteAction. *)
Definition as_rem_act {St} (p : payload) : M St RemoteAction :=
  match p with
  | PRemAct ra => mret ra
  | _ => raise (AttributeError "object is not a RemoteAction")
  end.

(** [cbt.response], whose attributes are read next. *)
Definition response_of {St} (cbt : CBT) : M St Response :=
  match response cbt with
  | Some resp => mret resp
  | None => raise (AttributeError "'NoneType' object has no attribute 'status'")
  end.

End Bus.

(** The per-overlay configuration keys read by the tunnel managers. *)
Record OverlayCfg : Type := mkOverlayCfg {
  TapNamePrefix : option string;
  EndPointAddress : option string;
}.

(** ** controllers/geneve_tunnel.py: class [GeneveTunnel]

    The object state is the tunnel dictionary, the Geneve links known to
    the kernel (what [pyroute2.IPRoute] talks to) and, in order, everything
    the module hands to the bus: completed and freed CBTs, published
    updates, submitted remote actions, registered timed transactions. *)

Module GeneveTunnel.
Import Bus.

Inductive effect : Type :=
| complete_cbt_eff (cbt : CBT)
| free_cbt_eff (cbt : CBT)
| post_update_eff (param : Update)
| submit_remote_act_eff (rem_act : RemoteAction) (parent_cbt : option CBT)
| register_timed_transaction_eff (tnl : Tunnel.t) (lifespan : Z).

Record t : Type := mk {
  _tunnels : list (string * Tunnel.t);
  netlink : gmap string (Z * string);      (* ifname -> (geneve_id, geneve_remote) *)
  outbox : list effect;
}.

(** An argument of [_deauth_tnls]: the callers pass tunnel records or, in
    [req_handler_abort_tunnel], tunnel ids. *)
Inductive pyobj : Type :=
| ObjTunnel (tnl : Tunnel.t)
| ObjStr (s : string).

(** Unfolding the monad of a handler down to a match on the state. *)
Ltac run_handler :=
  unfold mbind, M_bind, mret, M_ret, raise, gets, modify, lift, getitem,
    request_dict, as_rem_act, response_of, try_except, try_finally,
    with_locals, on_self, assign, local; simpl.

Definition TAPNAME_MAXLEN : Z := 15.

Section with_config.
(** [self.config["Overlays"]], [self.node_id], the constant
    [GENEVE_SETUP_TIMEOUT] of the broker package, the value of
    [TUNNEL_STATES.TNL_OFFLINE] (tunnel.py is not among the sources), and
    what calling the logger object as a function does (for a
    [logging.Logger], which is not callable, it raises [TypeError]). *)
Variable config : gmap string OverlayCfg.
Variable node_id : string.
Variable GENEVE_SETUP_TIMEOUT : Z.
Variable TNL_OFFLINE : TUNNEL_STATES.
Variable logger_call : outcome unit.

Definition emit (e : effect) : M t unit :=
  modify (λ self, mk (_tunnels self) (netlink self) (outbox self ++ [e])).
Definition complete_cbt (cbt : CBT) : M t unit := emit (complete_cbt_eff cbt).
Definition free_cbt (cbt : CBT) : M t unit := emit (free_cbt_eff cbt).
Definition post_update (param : Update) : M t unit := emit (post_update_eff param).
Definition submit_remote_act (rem_act : RemoteAction) (parent_cbt : option CBT) : M t unit :=
  emit (submit_remote_act_eff rem_act parent_cbt).
Definition register_timed_transaction (tnl : Tunnel.t) (lifespan : Z) : M t unit :=
  emit (register_timed_transaction_eff tnl lifespan).

Definition set_tunnels (f : list (string * Tunnel.t) → list (string * Tunnel.t)) : M t unit :=
  modify (λ self, mk (f (_tunnels self)) (netlink self) (outbox self)).

(** [self._tunnels[tnlid]] *)
Definition tunnel_at (tnlid : string) : M t Tunnel.t :=
  tunnels ← gets _tunnels;
  getitem tnlid (dict_get tnlid tunnels).

(** [self._tunnels[tnlid].state = st] *)
Definition set_tunnel_state (tnlid : string) (st : TUNNEL_STATES) : M t unit :=
  tnl ← tunnel_at tnlid;
  set_tunnels (dict_set tnlid (Tunnel.with_state st tnl)).

(** [self._tunnels[tnlid].peer_mac = m] *)
Definition set_tunnel_peer_mac (tnlid : string) (m : option string) : M t unit :=
  tnl ← tunnel_at tnlid;
  set_tunnels (dict_set tnlid (Tunnel.with_peer_mac m tnl)).

(** [self._tunnels.pop(tnlid)], which raises [KeyError] on a missing key. *)
Definition pop_tunnel (tnlid : string) : M t unit :=
  tunnel_at tnlid;;
  set_tunnels (dict_pop tnlid).

Definition _deauth_tnls (tnls : list pyobj) : M t unit :=
  for_each tnls (λ tnl,
    match tnl with
    | ObjTunnel tnl => set_tunnels (dict_pop (Tunnel.tnlid tnl))
    | ObjStr _ => raise (AttributeError "'str' object has no attribute 'tnlid'")
    end).

Definition _remove_tunnel (tap_name : string) : M t unit :=
  modify (λ self, mk (_tunnels self) (delete tap_name (netlink self)) (outbox self)).

Definition _rollback_tnls (tnls : list Tunnel.t) : M t unit :=
  for_each tnls (λ tnl,
    set_tunnels (dict_pop (Tunnel.tnlid tnl));;
    _remove_tunnel (Tunnel.tap_name tnl);;
    post_update
      (mkUpdate Removed (Tunnel.overlay_id tnl) (Tunnel.peer_id tnl)
         (Tunnel.tnlid tnl) None (Some (Tunnel.tap_name tnl)) None None None None)).

(** [ipr.link("add", ifname=tap_name, kind="geneve", geneve_id=vnid,
    geneve_remote=remote_addr)], which the source does not guard.  The
    kernel refuses a link whose VNI does not fit in the 24 bits of a Geneve
    VNI and a link whose interface name is taken; either way nothing is
    created.  The remote address is taken to be one that the kernel
    accepts. *)
Definition _create_tunnel (tap_name : string) (vnid : Z) (remote_addr : string) : M t unit := λ self,
  if negb (bool_decide (0 ≤ vnid < 2 ^ 24)) then (Raise (NetlinkError tap_name), self)
  else
    match netlink self !! tap_name with
    | Some _ => (Raise (NetlinkError tap_name), self)
    | None =>
        (Ok tt, mk (_tunnels self) (<[tap_name := (vnid, remote_addr)]> (netlink self))
                   (outbox self))
    end.

Definition _is_tap_exist (tap_name : string) : M t bool :=
  gets (λ self, bool_decide (is_Some (netlink self !! tap_name))).

Definition _is_tunnel_authorized (tunnel_id : string) : M t bool :=
  gets (λ self,
    match dict_get tunnel_id (_tunnels self) with
    | Some tnl => bool_decide (Tunnel.state tnl = AUTHORIZED)
    | None => false
    end).

Definition get_tap_name (peer_id olid : string) : outcome string :=
  match config !! olid with
  | None => Raise (KeyError olid)
  | Some ol_cfg =>
      let tap_name_prefix := default (slice_to olid 5) (TapNamePrefix ol_cfg) in
      let end_i := TAPNAME_MAXLEN - str_len tap_name_prefix in
      let tap_name := tap_name_prefix +:+ slice_to peer_id end_i in
      Ok tap_name
  end.

Definition is_tnl_completed (tnl : Tunnel.t) : bool :=
  bool_decide (Tunnel.state tnl = ONLINE).

Definition req_handler_auth_tunnel (cbt : CBT) : M t unit :=
  params ← request_dict cbt;
  olid ← getitem "OverlayId" (p_OverlayId params);
  peer_id ← getitem "PeerId" (p_PeerId params);
  tnlid ← getitem "TunnelId" (p_TunnelId params);
  tunnels ← gets _tunnels;
  cbt ← (if dict_mem tnlid tunnels then
           mret (set_response
                   (PText ("Geneve tunnel authorization failed, a tunnel with ID "
                           +:+ slice_to tnlid 7 +:+ "already exist for peer"
                           +:+ slice_to peer_id 7)) false cbt)
         else
           tap_name ← lift (get_tap_name peer_id olid);
           let tnl := Tunnel.new tnlid olid peer_id AUTHORIZED tap_name Geneve in
           set_tunnels (dict_set tnlid tnl);;
           register_timed_transaction tnl GENEVE_SETUP_TIMEOUT;;
           let cbt := set_response
                        (PText ("Geneve tunnel authorization completed, TunnelId:"
                                +:+ slice_to tnlid 7)) true cbt in
           post_update (mkUpdate Authorized olid peer_id tnlid None None None None None None);;
           mret cbt);
  complete_cbt cbt.

Definition req_handler_create_tunnel (cbt : CBT) : M t unit :=
  params ← request_dict cbt;
  olid ← getitem "OverlayId" (p_OverlayId params);
  tnlid ← getitem "TunnelId" (p_TunnelId params);
  loc_id ← getitem "VNId" (p_VNId params);
  peer_id ← getitem "PeerId" (p_PeerId params);
  tap_name ← lift (get_tap_name peer_id olid);
  tunnels ← gets _tunnels;
  cbt ← (if dict_mem tnlid tunnels then
           let cbt := set_response (PText ("Tunnel " +:+ tnlid +:+ " already exists"))
                        false cbt in
           complete_cbt cbt;; mret cbt
         else mret cbt);
  tap_exists ← _is_tap_exist tap_name;
  (if (tap_exists : bool) then _remove_tunnel tap_name else mret tt);;
  set_tunnels (dict_set tnlid (Tunnel.new tnlid olid peer_id CREATING tap_name Geneve));;
  ol_cfg ← getitem olid (config !! olid);
  endpt ← getitem "EndPointAddress" (EndPointAddress ol_cfg);
  let params := mkParams (Some olid) (Some tnlid) None (Some node_id) (Some loc_id)
                  None (Some endpt) None in
  let rem_act := mkRemoteAction olid peer_id "GeneveTunnel" "GNV_EXCHANGE_ENDPT"
                   params no_params in
  submit_remote_act rem_act (Some cbt).

Definition req_handler_exchnge_endpt (cbt : CBT) : M t unit :=
  with_locals (None : option string)
    (try_except
       (params ← request_dict cbt;
        olid ← getitem "OverlayId" (p_OverlayId params);
        tnlid ← getitem "TunnelId" (p_TunnelId params);
        assign (λ _, Some tnlid);;
        vnid ← getitem "VNId" (p_VNId params);
        peer_id ← getitem "NodeId" (p_NodeId params);
        endpnt_address ← getitem "EndPointAddress" (p_EndPointAddress params);
        tnl ← on_self (tunnel_at tnlid);
        let tap_name := Tunnel.tap_name tnl in
        authorized ← on_self (_is_tunnel_authorized tnlid);
        (if negb authorized then
           raise (RuntimeWarning
                    ("The requested link endpoint was not authorized or has expired. It will not be created. TunnelId="
                     +:+ tnlid +:+ ", PeerId=" +:+ peer_id +:+ ", VNID=" +:+ pretty vnid))
         else mret tt);;
        tap_exists ← on_self (_is_tap_exist tap_name);
        (if (tap_exists : bool) then on_self (_remove_tunnel tap_name) else mret tt);;
        on_self (_create_tunnel tap_name vnid endpnt_address);;
        on_self (set_tunnel_state tnlid CREATING);;
        ol_cfg ← getitem olid (config !! olid);
        endpt ← getitem "EndPointAddress" (EndPointAddress ol_cfg);
        tnl_mac ← on_self (tunnel_at tnlid);
        tnl_dp ← on_self (tunnel_at tnlid);
        let resp := mkParams None (Some tnlid) None (Some node_id) (Some vnid)
                      (Some (Tunnel.mac tnl_mac)) (Some endpt)
                      (Some (Tunnel.dataplane tnl_dp)) in
        on_self (complete_cbt (set_response (PDict resp) true cbt)))
       (λ err,
        tnlid ← local "tnlid" id;
        let msg := "Node " +:+ node_id +:+ " failed to create Geneve tunnel "
                   +:+ tnlid +:+ ". " +:+ exn_str err in
        on_self (set_tunnel_state tnlid OFFLINE);;
        on_self (set_tunnels (dict_pop tnlid));;
        on_self (complete_cbt (set_response (PText msg) false cbt)))).

Definition req_handler_update_peer_mac (now : Z) (cbt : CBT) : M t unit :=
  params ← request_dict cbt;
  olid ← getitem "OverlayId" (p_OverlayId params);
  tnlid ← getitem "TunnelId" (p_TunnelId params);
  peer_id ← getitem "NodeId" (p_NodeId params);
  tunnels ← gets _tunnels;
  cbt ← match dict_get tnlid tunnels with
        | None =>
            mret (set_response (PText ("Tunnel " +:+ tnlid +:+ " does not  exist")) false cbt)
        | Some tnl =>
            if decide (Tunnel.state tnl = OFFLINE) then
              mret (set_response (PText "Tunnel {tnlid} failed and was destroyed") false cbt)
            else if decide (Tunnel.state tnl = CREATING) then
              mac ← getitem "MAC" (p_MAC params);
              set_tunnel_peer_mac tnlid mac;;
              set_tunnel_state tnlid ONLINE;;
              tnl ← tunnel_at tnlid;
              post_update
                (mkUpdate Connected olid peer_id tnlid None (Some (Tunnel.tap_name tnl))
                   (Some now) (Tunnel.mac tnl) (Tunnel.peer_mac tnl)
                   (Some (Tunnel.dataplane tnl)));;
              mret (set_response (PText "Peer MAC added") true cbt)
            else
              mret (set_response (PText ("Invalid request for Tunnel " +:+ tnlid)) false cbt)
        end;
  complete_cbt cbt.

Definition req_handler_abort_tunnel (cbt : CBT) : M t unit :=
  params ← request_dict cbt;
  olid ← getitem "OverlayId" (p_OverlayId params);
  peer_id ← getitem "PeerId" (p_PeerId params);
  tnlid ← getitem "TunnelId" (p_TunnelId params);
  lift logger_call;;
  tunnels ← gets _tunnels;
  match dict_get tnlid tunnels with
  | Some tnl =>
      let tap_name := Tunnel.tap_name tnl in
      tap_exists ← _is_tap_exist tap_name;
      if (tap_exists : bool) then
        (if decide (Tunnel.state tnl = AUTHORIZED ∨ Tunnel.state tnl = CREATING)
         then _deauth_tnls [ObjStr tnlid] else mret tt);;
        (* [tnl.state = OFFLINE] on the record fetched above, which is the
           one in the dictionary as long as it has not been popped *)
        tunnels ← gets _tunnels;
        match dict_get tnlid tunnels with
        | Some _ => set_tunnels (dict_set tnlid (Tunnel.with_state OFFLINE tnl))
        | None => mret tt
        end
      else mret tt
  | None =>
      tap_name ← lift (get_tap_name olid peer_id);
      _remove_tunnel tap_name
  end;;
  complete_cbt (set_response (PText ("Tunnel aborted: " +:+ tnlid)) true cbt).

Definition req_handler_remove_tunnel (cbt : CBT) : M t unit :=
  params ← request_dict cbt;
  peer_id ← getitem "PeerId" (p_PeerId params);
  olid ← getitem "OverlayId" (p_OverlayId params);
  tnlid ← getitem "TunnelId" (p_TunnelId params);
  tunnels ← gets _tunnels;
  res ← match dict_get tnlid tunnels with
        | Some tnl =>
            let tap_name := Tunnel.tap_name tnl in
            set_tunnel_state tnlid OFFLINE;;
            _remove_tunnel tap_name;;
            pop_tunnel tnlid;;
            mret (set_response (PText ("Tunnel deleted " +:+ tnlid)) true cbt, tap_name)
        | None =>
            tap_name ← lift (get_tap_name olid peer_id);
            _remove_tunnel tap_name;;
            mret (set_response (PText ("Tunnel deleted " +:+ tap_name)) true cbt, tap_name)
        end;
  complete_cbt res.1;;
  post_update (mkUpdate Removed olid peer_id tnlid None (Some res.2) None None None None).

(** The local variables of [resp_handler_remote_action] that its
    [except] and [finally] clauses read. *)
Record ra_locals : Type := mk_ra_locals {
  l_olid : option string;
  l_peer_id : option string;
  l_tnlid : option string;
  l_act_code : option string;
  l_parent_cbt : option CBT;
}.

Definition resp_handler_remote_action (now : Z) (cbt : CBT) : M t unit :=
  let parent_cbt := parent cbt in
  resp ← response_of cbt;
  rem_act ← as_rem_act (request_params cbt);
  if negb (r_status resp) then
    let olid := overlay_id rem_act in
    let peer_id := recipient_id rem_act in
    tnlid ← getitem "TunnelId" (p_TunnelId (params rem_act));
    tunnels ← gets _tunnels;
    (if dict_mem tnlid tunnels then
       set_tunnel_state tnlid OFFLINE;;
       pop_tunnel tnlid
     else mret tt);;
    tap_name ← lift (get_tap_name olid peer_id);
    _remove_tunnel tap_name;;
    free_cbt cbt;;
    match parent_cbt with
    | Some parent_cbt => complete_cbt (set_response (r_data resp) false parent_cbt)
    | None => mret tt
    end
  else if decide (action rem_act = "GNV_EXCHANGE_ENDPT") then
    with_locals (mk_ra_locals None None None None parent_cbt)
      (try_finally
         (try_except
            (rem_act ← as_rem_act (r_data resp);
             let olid := overlay_id rem_act in
             assign (λ l, mk_ra_locals (Some olid) (l_peer_id l) (l_tnlid l)
                            (l_act_code l) (l_parent_cbt l));;
             let peer_id := recipient_id rem_act in
             assign (λ l, mk_ra_locals (l_olid l) (Some peer_id) (l_tnlid l)
                            (l_act_code l) (l_parent_cbt l));;
             tnlid ← getitem "TunnelId" (p_TunnelId (data rem_act));
             assign (λ l, mk_ra_locals (l_olid l) (l_peer_id l) (Some tnlid)
                            (l_act_code l) (l_parent_cbt l));;
             vnid ← getitem "VNId" (p_VNId (data rem_act));
             peer_mac ← getitem "MAC" (p_MAC (data rem_act));
             on_self (set_tunnel_peer_mac tnlid peer_mac);;
             endpnt_address ← getitem "EndPointAddress" (p_EndPointAddress (data rem_act));
             tap_name ← lift (get_tap_name peer_id olid);
             on_self (_create_tunnel tap_name vnid endpnt_address);;
             assign (λ l, mk_ra_locals (l_olid l) (l_peer_id l) (l_tnlid l)
                            (Some "GNV_UPDATE_MAC") (l_parent_cbt l));;
             on_self (free_cbt cbt))
            (λ err,
             tnlid ← local "tnlid" l_tnlid;
             let msg := "Failed to create Geneve tunnel " +:+ tnlid +:+ ". Error="
                        +:+ exn_str err in
             on_self (free_cbt cbt);;
             parent_cbt ← local "parent_cbt" (λ l, Some (l_parent_cbt l));
             match parent_cbt with
             | Some parent_cbt =>
                 on_self (complete_cbt (set_response (PText msg) false parent_cbt))
             | None =>
                 raise (AttributeError "'NoneType' object has no attribute 'set_response'")
             end;;
             assign (λ l, mk_ra_locals (l_olid l) (l_peer_id l) (l_tnlid l)
                            (l_act_code l) None);;
             assign (λ l, mk_ra_locals (l_olid l) (l_peer_id l) (l_tnlid l)
                            (Some "GNV_CANCEL_TUNNEL") (l_parent_cbt l))))
         (olid ← local "olid" l_olid;
          tnlid ← local "tnlid" l_tnlid;
          tnl ← on_self (tunnel_at tnlid);
          let params := mkParams (Some olid) (Some tnlid) None (Some node_id) None
                          (Some (Tunnel.mac tnl)) None None in
          peer_id ← local "peer_id" l_peer_id;
          act_code ← local "act_code" l_act_code;
          let remote_act := mkRemoteAction olid peer_id "GeneveTunnel" act_code
                              params no_params in
          parent_cbt ← local "parent_cbt" (λ l, Some (l_parent_cbt l));
          on_self (submit_remote_act remote_act parent_cbt)))
  else if decide (action rem_act = "GNV_UPDATE_MAC") then
    rem_act ← as_rem_act (r_data resp);
    let olid := overlay_id rem_act in
    let peer_id := recipient_id rem_act in
    tnlid ← getitem "TunnelId" (p_TunnelId (params rem_act));
    set_tunnel_state tnlid ONLINE;;
    tnl ← tunnel_at tnlid;
    post_update
      (mkUpdate Connected olid peer_id tnlid None (Some (Tunnel.tap_name tnl))
         (Some now) (Tunnel.mac tnl) (Tunnel.peer_mac tnl)
         (Some (Tunnel.dataplane tnl)));;
    free_cbt cbt;;
    match parent_cbt with
    | Some parent_cbt =>
        complete_cbt (set_response (PText "Geneve tunnel created") true parent_cbt)
    | None => raise (AttributeError "'NoneType' object has no attribute 'set_response'")
    end
  else if decide (action rem_act = "GNV_CANCEL_TUNNEL") then
    free_cbt cbt
  else mret tt.

Definition abort_handler_remote_action (cbt : CBT) : M t unit :=
  let parent_cbt := parent cbt in
  rem_act ← as_rem_act (request_params cbt);
  if decide (action rem_act = "GNV_EXCHANGE_ENDPT") then
    let olid := overlay_id rem_act in
    let peer_id := recipient_id rem_act in
    tnlid ← getitem "TunnelId" (p_TunnelId (params rem_act));
    tunnels ← gets _tunnels;
    (if dict_mem tnlid tunnels then
       set_tunnel_state tnlid OFFLINE;;
       pop_tunnel tnlid
     else mret tt);;
    tap_name ← lift (get_tap_name olid peer_id);
    _remove_tunnel tap_name;;
    free_cbt cbt;;
    match parent_cbt with
    | Some parent_cbt =>
        resp ← response_of cbt;
        complete_cbt (set_response (r_data resp) false parent_cbt)
    | None => mret tt
    end
  else mret tt.

(** The loop of [on_tnl_timeout] over [self._tunnels.values()]. *)
Fixpoint sort_expired (tnls deauth rlbk : list Tunnel.t) : list Tunnel.t * list Tunnel.t :=
  match tnls with
  | [] => (deauth, rlbk)
  | tnl :: tnls' =>
      if decide (Tunnel.state tnl = AUTHORIZED) then
        sort_expired tnls' (deauth ++ [tnl]) rlbk
      else if decide (Tunnel.state tnl = CREATING ∨ Tunnel.state tnl = TNL_OFFLINE) then
        sort_expired tnls' deauth (rlbk ++ [tnl])
      else sort_expired tnls' deauth rlbk
  end.

Definition on_tnl_timeout (tnl : Tunnel.t) (timeout : Z) : M t unit :=
  tunnels ← gets _tunnels;
  let lists := sort_expired (dict_values tunnels) [] [] in
  _deauth_tnls (ObjTunnel <$> lists.1);;
  _rollback_tnls lists.2.

(** The transaction that [req_handler_auth_tunnel] registers for [tnl]. *)
Definition timed_transaction (tnl : Tunnel.t) : TimedTransactions.Transaction Tunnel.t t :=
  TimedTransactions.mkTransaction tnl (λ tnl, mret (is_tnl_completed tnl))
    on_tnl_timeout GENEVE_SETUP_TIMEOUT 10.

Definition terminate : M t unit :=
  tunnels ← gets _tunnels;
  for_each (dict_values tunnels) (λ tnl, _remove_tunnel (Tunnel.tap_name tnl));;
  set_tunnels (λ _, []).

(** What the bus and the timed-transaction worker deliver to the module:
    the request, response and abort handler tables, and an expiring
    transaction with the registered tunnel record as it is then. *)
Inductive operation : Type :=
| GNV_AUTH_TUNNEL (cbt : CBT)
| GNV_CREATE_TUNNEL (cbt : CBT)
| GNV_REMOVE_TUNNEL (cbt : CBT)
| GNV_EXCHANGE_ENDPT (cbt : CBT)
| GNV_UPDATE_MAC (now : Z) (cbt : CBT)
| GNV_CANCEL_TUNNEL (cbt : CBT)
| RESP_SIG_REMOTE_ACTION (now : Z) (cbt : CBT)
| ABORT_SIG_REMOTE_ACTION (cbt : CBT)
| TRANSACTION_EXPIRED (now : Z) (tnl : Tunnel.t)
| TERMINATE.

Definition handle (op : operation) : M t unit :=
  match op with
  | GNV_AUTH_TUNNEL cbt => req_handler_auth_tunnel cbt
  | GNV_CREATE_TUNNEL cbt => req_handler_create_tunnel cbt
  | GNV_REMOVE_TUNNEL cbt => req_handler_remove_tunnel cbt
  | GNV_EXCHANGE_ENDPT cbt => req_handler_exchnge_endpt cbt
  | GNV_UPDATE_MAC now cbt => req_handler_update_peer_mac now cbt
  | GNV_CANCEL_TUNNEL cbt => req_handler_abort_tunnel cbt
  | RESP_SIG_REMOTE_ACTION now cbt => resp_handler_remote_action now cbt
  | ABORT_SIG_REMOTE_ACTION cbt => abort_handler_remote_action cbt
  | TRANSACTION_EXPIRED now tnl => TimedTransactions._get_expired now (timed_transaction tnl)
  | TERMINATE => terminate
  end.

(** *** The tunnel dictionary and the state [OFFLINE] *)

Definition on_tunnels (P : list (string * Tunnel.t) → Prop) : t → Prop :=
  λ self, P (_tunnels self).

(** No record of the dictionary is [OFFLINE] (and, as in every Python
    dictionary, no key occurs twice). *)
Definition no_offline (d : list (string * Tunnel.t)) : Prop :=
  NoDup (dict_keys d) ∧ ∀ k tnl, (k, tnl) ∈ d → Tunnel.state tnl ≠ OFFLINE.

(** The same, except for the record under the key [k0]. *)
Definition no_offline_but (k0 : string) (d : list (string * Tunnel.t)) : Prop :=
  NoDup (dict_keys d) ∧ ∀ k tnl, (k, tnl) ∈ d → k ≠ k0 → Tunnel.state tnl ≠ OFFLINE.

Lemma no_offline_weaken k0 d : no_offline d → no_offline_but k0 d.
Proof. intros [Hnd Hst]. split; [done|]. intros k tnl Hin _. by eapply Hst. Qed.

Lemma no_offline_but_absent k0 d :
  dict_get k0 d = None → no_offline_but k0 d → no_offline d.
Proof.
  intros Hnone [Hnd Hst]. split; [done|]. intros k tnl Hin.
  apply (Hst k tnl Hin). intros ->.
  apply dict_get_None_keys in Hnone. apply Hnone.
  apply list_elem_of_fmap. by exists (k0, tnl).
Qed.

Lemma no_offline_set k tnl d :
  Tunnel.state tnl ≠ OFFLINE → no_offline d → no_offline (dict_set k tnl d).
Proof.
  intros Hst [Hnd Hall]. split; [by apply dict_set_NoDup|].
  intros k' tnl' [[= -> ->]|Hin]%dict_set_elem; [done|by eapply Hall].
Qed.

Lemma no_offline_but_set k tnl d :
  no_offline_but k d → no_offline_but k (dict_set k tnl d).
Proof.
  intros [Hnd Hall]. split; [by apply dict_set_NoDup|].
  intros k' tnl' [[= -> ->]|Hin]%dict_set_elem; [done|by eapply Hall].
Qed.

Lemma no_offline_pop k d : no_offline d → no_offline (dict_pop k d).
Proof.
  intros [Hnd Hall]. split; [by apply dict_pop_NoDup|].
  intros k' tnl' Hin%dict_pop_subset. by eapply Hall.
Qed.

Lemma no_offline_but_pop k d : no_offline_but k d → no_offline (dict_pop k d).
Proof.
  intros [Hnd Hall].
  apply (no_offline_but_absent k); [by apply dict_get_pop_eq|].
  split; [by apply dict_pop_NoDup|].
  intros k' tnl' Hin%dict_pop_subset. by eapply Hall.
Qed.

Lemma keeps_emit P e : keeps (on_tunnels P) (emit e).
Proof. intros s Hs. exact Hs. Qed.

Lemma keeps_set_tunnels (P : list (string * Tunnel.t) → Prop) f :
  (∀ d, P d → P (f d)) → keeps (on_tunnels P) (set_tunnels f).
Proof. intros Hf s Hs. by apply Hf. Qed.

Lemma keeps__remove_tunnel P tap_name : keeps (on_tunnels P) (_remove_tunnel tap_name).
Proof. intros s Hs. exact Hs. Qed.

Lemma keeps__create_tunnel P tap_name vnid remote_addr :
  keeps (on_tunnels P) (_create_tunnel tap_name vnid remote_addr).
Proof.
  intros s Hs. unfold _create_tunnel.
  destruct (bool_decide (0 ≤ vnid < 2 ^ 24)); [|done]. by destruct (netlink s !! tap_name).
Qed.

Lemma keeps_tunnel_at P tnlid : keeps (on_tunnels P) (tunnel_at tnlid).
Proof.
  intros s Hs. unfold tunnel_at, mbind, M_bind, gets. simpl.
  by destruct (dict_get tnlid (_tunnels s)).
Qed.

Lemma keeps_request_dict {St} (I : St → Prop) cbt : keeps I (request_dict cbt).
Proof. intros s Hs. unfold request_dict. by destruct (request_params cbt). Qed.

Lemma keeps_as_rem_act {St} (I : St → Prop) p : keeps I (as_rem_act p).
Proof. intros s Hs. unfold as_rem_act. by destruct p. Qed.

Lemma keeps_response_of {St} (I : St → Prop) cbt : keeps I (response_of cbt).
Proof. intros s Hs. unfold response_of. by destruct (response cbt). Qed.

(** Writing a state other than [OFFLINE] keeps the dictionary free of
    [OFFLINE] records. *)
Lemma keeps_set_tunnel_state tnlid st :
  st ≠ OFFLINE → keeps (on_tunnels no_offline) (set_tunnel_state tnlid st).
Proof.
  intros Hst s Hs. unfold set_tunnel_state, tunnel_at, mbind, M_bind, gets. simpl.
  destruct (dict_get tnlid (_tunnels s)) as [tnl|] eqn:Hget; simpl; [|done].
  by apply no_offline_set.
Qed.

Lemma keeps_set_tunnel_peer_mac tnlid m :
  keeps (on_tunnels no_offline) (set_tunnel_peer_mac tnlid m).
Proof.
  intros s Hs. unfold set_tunnel_peer_mac, tunnel_at, mbind, M_bind, gets. simpl.
  destruct (dict_get tnlid (_tunnels s)) as [tnl|] eqn:Hget; simpl; [|done].
  apply no_offline_set; [|done]. simpl.
  destruct Hs as [_ Hs]. eapply Hs. by apply dict_get_Some_elem.
Qed.

(** Writing [OFFLINE] under [tnlid] leaves at most that record [OFFLINE];
    popping [tnlid] restores the invariant. *)
Lemma set_tunnel_state_OFFLINE tnlid :
  triple (on_tunnels no_offline) (set_tunnel_state tnlid OFFLINE)
    (λ _, on_tunnels (no_offline_but tnlid)) (λ _, on_tunnels no_offline).
Proof.
  intros s Hs. unfold set_tunnel_state, tunnel_at, mbind, M_bind, gets. simpl.
  destruct (dict_get tnlid (_tunnels s)) as [tnl|] eqn:Hget; simpl; [|done].
  by apply no_offline_but_set, no_offline_weaken.
Qed.

Lemma pop_tunnel_restores tnlid :
  triple (on_tunnels (no_offline_but tnlid)) (pop_tunnel tnlid)
    (λ _, on_tunnels no_offline) (λ _, on_tunnels no_offline).
Proof.
  intros s Hs. unfold pop_tunnel, tunnel_at, mbind, M_bind, gets. simpl.
  destruct (dict_get tnlid (_tunnels s)) as [tnl|] eqn:Hget; simpl.
  - by apply no_offline_but_pop.
  - by apply (no_offline_but_absent tnlid).
Qed.

Lemma dict_pop_restores tnlid :
  triple (on_tunnels (no_offline_but tnlid)) (set_tunnels (dict_pop tnlid))
    (λ _, on_tunnels no_offline) (λ _, on_tunnels no_offline).
Proof. intros s Hs. by apply no_offline_but_pop. Qed.

(** [self._tunnels[tnlid].state = OFFLINE] followed by a continuation that
    pops [tnlid]. *)
Lemma keeps_offline_then {A} tnlid (rest : M t A) :
  triple (on_tunnels (no_offline_but tnlid)) rest
    (λ _, on_tunnels no_offline) (λ _, on_tunnels no_offline) →
  keeps (on_tunnels no_offline) (set_tunnel_state tnlid OFFLINE ;; rest).
Proof.
  intros Hrest. eapply triple_bind; [apply set_tunnel_state_OFFLINE|].
  intros ?. exact Hrest.
Qed.

(** [_remove_tunnel] swallows every error of the kernel: it never raises. *)
Lemma _remove_tunnel_returns P tap_name :
  triple (on_tunnels P) (_remove_tunnel tap_name) (λ _, on_tunnels P) (λ _ _, False).
Proof. intros s Hs. exact Hs. Qed.

Lemma restore_by_pop_tunnel {A} tnlid tap_name (k : M t A) :
  keeps (on_tunnels no_offline) k →
  triple (on_tunnels (no_offline_but tnlid))
    (_remove_tunnel tap_name ;; pop_tunnel tnlid ;; k)
    (λ _, on_tunnels no_offline) (λ _, on_tunnels no_offline).
Proof.
  intros Hk.
  apply (triple_bind _ _ _ (λ _, on_tunnels (no_offline_but tnlid))).
  { eapply triple_conseq; [apply _remove_tunnel_returns|..]; simpl; eauto.
    intros ? s []. }
  intros ?. eapply triple_bind; [apply pop_tunnel_restores|]. intros ?. exact Hk.
Qed.

(** The failure branch shared by [resp_handler_remote_action] and
    [abort_handler_remote_action]. *)
Lemma keeps_offline_pop tnlid :
  keeps (on_tunnels no_offline) (set_tunnel_state tnlid OFFLINE ;; pop_tunnel tnlid).
Proof. apply keeps_offline_then, pop_tunnel_restores. Qed.

(** The [except] clause of [req_handler_exchnge_endpt]. *)
Lemma keeps_offline_pop_with_locals {L A} tnlid (k : M (t * L) A) :
  keeps (λ sl : t * L, on_tunnels no_offline sl.1) k →
  keeps (λ sl : t * L, on_tunnels no_offline sl.1)
    (on_self (set_tunnel_state tnlid OFFLINE) ;;
     on_self (set_tunnels (dict_pop tnlid)) ;; k).
Proof.
  intros Hk.
  apply (triple_bind _ _ _ (λ _ sl, on_tunnels (no_offline_but tnlid) sl.1)).
  { apply (triple_on_self _ _ _ _ (set_tunnel_state_OFFLINE tnlid)). }
  intros ?.
  apply (triple_bind _ _ _ (λ _ sl, on_tunnels no_offline sl.1)).
  { apply (triple_on_self _ _ _ _ (dict_pop_restores tnlid)). }
  intros ?. exact Hk.
Qed.

(** One step of a proof that a handler keeps an invariant on the tunnel
    dictionary: follow the handler's control flow down to its primitives. *)
Ltac keeps_common :=
  lazymatch goal with
  | |- keeps _ (mbind _ _) => apply keeps_bind; [|intros ?]
  | |- keeps _ (mret _) => apply keeps_ret
  | |- keeps _ (raise _) => apply keeps_raise
  | |- keeps _ (gets _) => apply keeps_gets
  | |- keeps _ (lift _) => apply keeps_lift
  | |- keeps _ (getitem _ _) => apply keeps_getitem
  | |- keeps _ (request_dict _) => apply keeps_request_dict
  | |- keeps _ (as_rem_act _) => apply keeps_as_rem_act
  | |- keeps _ (response_of _) => apply keeps_response_of
  | |- keeps _ (assign _) => apply (keeps_assign (on_tunnels _))
  | |- keeps _ (local _ _) => apply (keeps_local (on_tunnels _))
  | |- keeps _ (on_self _) => apply (keeps_on_self (on_tunnels _))
  | |- keeps _ (with_locals _ _) => apply keeps_with_locals
  | |- keeps _ (try_except _ _) => apply keeps_try_except; [|intros ?]
  | |- keeps _ (try_finally _ _) => apply keeps_try_finally
  | |- keeps _ (for_each _ _) => apply keeps_for_each; intros ?
  | |- keeps _ (complete_cbt _) => apply keeps_emit
  | |- keeps _ (free_cbt _) => apply keeps_emit
  | |- keeps _ (post_update _) => apply keeps_emit
  | |- keeps _ (submit_remote_act _ _) => apply keeps_emit
  | |- keeps _ (register_timed_transaction _ _) => apply keeps_emit
  | |- keeps _ (_remove_tunnel _) => apply keeps__remove_tunnel
  | |- keeps _ (_create_tunnel _ _ _) => apply keeps__create_tunnel
  | |- keeps _ (_is_tap_exist _) => apply keeps_gets
  | |- keeps _ (_is_tunnel_authorized _) => apply keeps_gets
  | |- keeps _ (tunnel_at _) => apply keeps_tunnel_at
  | |- keeps _ (if ?b then _ else _) => destruct b
  | |- keeps _ (match ?x with _ => _ end) => destruct x
  | |- keeps _ (let _ := _ in _) => cbv zeta
  end.

Ltac no_offline_step :=
  lazymatch goal with
  | |- keeps _ (mbind (λ _, pop_tunnel _) (set_tunnel_state _ OFFLINE)) =>
      apply keeps_offline_pop
  | |- keeps _ (mbind _ (set_tunnel_state _ OFFLINE)) =>
      apply keeps_offline_then, restore_by_pop_tunnel
  | |- keeps _ (mbind _ (on_self (set_tunnel_state _ OFFLINE))) =>
      apply keeps_offline_pop_with_locals
  | |- keeps _ (set_tunnel_peer_mac _ _) => apply keeps_set_tunnel_peer_mac
  | |- keeps _ (set_tunnel_state _ _) => apply keeps_set_tunnel_state; done
  | |- keeps _ (set_tunnels (dict_pop _)) =>
      apply keeps_set_tunnels; intros ?; apply no_offline_pop
  | |- keeps _ (set_tunnels (dict_set _ _)) =>
      apply keeps_set_tunnels; intros ?; apply no_offline_set; done
  | |- _ => keeps_common
  end.

Ltac keeps_step := no_offline_step.

Lemma keeps_req_handler_auth_tunnel cbt :
  keeps (on_tunnels no_offline) (req_handler_auth_tunnel cbt).
Proof. unfold req_handler_auth_tunnel. repeat keeps_step. Qed.

Lemma keeps_req_handler_create_tunnel cbt :
  keeps (on_tunnels no_offline) (req_handler_create_tunnel cbt).
Proof. unfold req_handler_create_tunnel. repeat keeps_step. Qed.

Lemma keeps_req_handler_update_peer_mac now cbt :
  keeps (on_tunnels no_offline) (req_handler_update_peer_mac now cbt).
Proof. unfold req_handler_update_peer_mac. repeat keeps_step. Qed.

Lemma keeps_req_handler_remove_tunnel cbt :
  keeps (on_tunnels no_offline) (req_handler_remove_tunnel cbt).
Proof. unfold req_handler_remove_tunnel. repeat keeps_step. Qed.

Lemma keeps_req_handler_exchnge_endpt cbt :
  keeps (on_tunnels no_offline) (req_handler_exchnge_endpt cbt).
Proof. unfold req_handler_exchnge_endpt. repeat keeps_step. Qed.

Lemma keeps_resp_handler_remote_action now cbt :
  keeps (on_tunnels no_offline) (resp_handler_remote_action now cbt).
Proof. unfold resp_handler_remote_action. repeat keeps_step. Qed.

Lemma keeps_abort_handler_remote_action cbt :
  keeps (on_tunnels no_offline) (abort_handler_remote_action cbt).
Proof. unfold abort_handler_remote_action. repeat keeps_step. Qed.

Lemma keeps__deauth_tnls tnls : keeps (on_tunnels no_offline) (_deauth_tnls tnls).
Proof. unfold _deauth_tnls. repeat keeps_step. Qed.

Lemma keeps__rollback_tnls tnls : keeps (on_tunnels no_offline) (_rollback_tnls tnls).
Proof. unfold _rollback_tnls. repeat keeps_step. Qed.

Lemma keeps_on_tnl_timeout tnl timeout :
  keeps (on_tunnels no_offline) (on_tnl_timeout tnl timeout).
Proof.
  unfold on_tnl_timeout. keeps_step; [keeps_step|]. cbv zeta.
  apply keeps_bind; [apply keeps__deauth_tnls|]. intros ?. apply keeps__rollback_tnls.
Qed.

Lemma keeps_terminate : keeps (on_tunnels no_offline) terminate.
Proof.
  unfold terminate. repeat keeps_step.
  apply keeps_set_tunnels. intros d _. split; [apply NoDup_nil_2|].
  intros k tnl Hin. by apply elem_of_nil in Hin.
Qed.

(** Every operation of the kernel-flavour manager other than
    [GNV_CANCEL_TUNNEL] leaves the dictionary free of [OFFLINE] records,
    whether its handler returns or raises. *)
Lemma keeps_handle op :
  (∀ cbt, op ≠ GNV_CANCEL_TUNNEL cbt) →
  keeps (on_tunnels no_offline) (handle op).
Proof.
  intros Hop. destruct op; simpl.
  - apply keeps_req_handler_auth_tunnel.
  - apply keeps_req_handler_create_tunnel.
  - apply keeps_req_handler_remove_tunnel.
  - apply keeps_req_handler_exchnge_endpt.
  - apply keeps_req_handler_update_peer_mac.
  - by destruct (Hop cbt).
  - apply keeps_resp_handler_remote_action.
  - apply keeps_abort_handler_remote_action.
  - unfold TimedTransactions._get_expired, TimedTransactions.is_completed. simpl.
    repeat keeps_step. apply keeps_on_tnl_timeout.
  - apply keeps_terminate.
Qed.

(** *** Records are filed under their own id *)

(** Keys are unique and every record is filed under its own id. *)
Definition filed_by_id (d : list (string * Tunnel.t)) : Prop :=
  NoDup (dict_keys d) ∧ ∀ k tnl, (k, tnl) ∈ d → Tunnel.tnlid tnl = k.

Lemma filed_by_id_nil : filed_by_id [].
Proof. split; [apply NoDup_nil_2|]. intros k tnl Hin. by apply elem_of_nil in Hin. Qed.

Lemma filed_by_id_set k tnl d :
  Tunnel.tnlid tnl = k → filed_by_id d → filed_by_id (dict_set k tnl d).
Proof.
  intros Hid [Hnd Hall]. split; [by apply dict_set_NoDup|].
  intros k' tnl' [[= -> ->]|Hin]%dict_set_elem; [done|by apply Hall].
Qed.

Lemma filed_by_id_pop k d : filed_by_id d → filed_by_id (dict_pop k d).
Proof.
  intros [Hnd Hall]. split; [by apply dict_pop_NoDup|].
  intros k' tnl' Hin%dict_pop_subset. by apply Hall.
Qed.

Lemma filed_by_id_get k tnl d : filed_by_id d → dict_get k d = Some tnl → Tunnel.tnlid tnl = k.
Proof. intros [_ Hall] Hget. by apply Hall, dict_get_Some_elem. Qed.

Lemma filed_set_tunnel_state tnlid st :
  keeps (on_tunnels filed_by_id) (set_tunnel_state tnlid st).
Proof.
  intros s Hs. unfold set_tunnel_state, tunnel_at, mbind, M_bind, gets. simpl.
  destruct (dict_get tnlid (_tunnels s)) as [tnl|] eqn:Hget; simpl; [|done].
  apply filed_by_id_set; [|done]. simpl. by eapply filed_by_id_get.
Qed.

Lemma filed_set_tunnel_peer_mac tnlid m :
  keeps (on_tunnels filed_by_id) (set_tunnel_peer_mac tnlid m).
Proof.
  intros s Hs. unfold set_tunnel_peer_mac, tunnel_at, mbind, M_bind, gets. simpl.
  destruct (dict_get tnlid (_tunnels s)) as [tnl|] eqn:Hget; simpl; [|done].
  apply filed_by_id_set; [|done]. simpl. by eapply filed_by_id_get.
Qed.

Lemma filed_pop_tunnel tnlid : keeps (on_tunnels filed_by_id) (pop_tunnel tnlid).
Proof.
  intros s Hs. unfold pop_tunnel, tunnel_at, mbind, M_bind, gets. simpl.
  destruct (dict_get tnlid (_tunnels s)) as [tnl|] eqn:Hget; simpl; [|done].
  by apply filed_by_id_pop.
Qed.

Ltac filed_step :=
  lazymatch goal with
  | |- keeps _ (set_tunnel_peer_mac _ _) => apply filed_set_tunnel_peer_mac
  | |- keeps _ (set_tunnel_state _ _) => apply filed_set_tunnel_state
  | |- keeps _ (pop_tunnel _) => apply filed_pop_tunnel
  | |- keeps _ (set_tunnels (dict_pop _)) =>
      apply keeps_set_tunnels; intros ?; apply filed_by_id_pop
  | |- keeps _ (set_tunnels (dict_set _ (Tunnel.new _ _ _ _ _ _))) =>
      apply keeps_set_tunnels; intros ?; apply filed_by_id_set; reflexivity
  | |- keeps _ (set_tunnels (λ _, [])) =>
      apply keeps_set_tunnels; intros ? _; apply filed_by_id_nil
  | |- _ => keeps_common
  end.

(** [req_handler_abort_tunnel] rewrites the record it has just read. *)
Lemma filed_req_handler_abort_tunnel cbt :
  keeps (on_tunnels filed_by_id) (req_handler_abort_tunnel cbt).
Proof.
  intros s Hs.
  unfold req_handler_abort_tunnel, _is_tap_exist, _deauth_tnls, complete_cbt, emit,
    set_tunnels, _remove_tunnel.
  run_handler.
  destruct (request_params cbt) as [| |params| | | |]; simpl; try done.
  destruct (p_OverlayId params) as [olid|]; simpl; [|done].
  destruct (p_PeerId params) as [peer_id|]; simpl; [|done].
  destruct (p_TunnelId params) as [tnlid|]; simpl; [|done].
  destruct logger_call as [[]|e]; simpl; [|done].
  destruct (dict_get tnlid (_tunnels s)) as [tnl|] eqn:Hget; simpl.
  - case_bool_decide; simpl; [|done].
    case_decide; simpl; [done|]. rewrite Hget. simpl.
    apply filed_by_id_set; [|done]. simpl. by eapply filed_by_id_get.
  - by destruct (get_tap_name olid peer_id).
Qed.

Lemma filed_handle op : keeps (on_tunnels filed_by_id) (handle op).
Proof.
  destruct op; simpl.
  - unfold req_handler_auth_tunnel. repeat filed_step.
  - unfold req_handler_create_tunnel. repeat filed_step.
  - unfold req_handler_remove_tunnel. repeat filed_step.
  - unfold req_handler_exchnge_endpt. repeat filed_step.
  - unfold req_handler_update_peer_mac. repeat filed_step.
  - apply filed_req_handler_abort_tunnel.
  - unfold resp_handler_remote_action. repeat filed_step.
  - unfold abort_handler_remote_action. repeat filed_step.
  - unfold TimedTransactions._get_expired, TimedTransactions.is_completed. simpl.
    repeat filed_step. unfold on_tnl_timeout. filed_step; [filed_step|]. cbv zeta.
    apply keeps_bind; [|intros ?].
    + unfold _deauth_tnls. repeat filed_step.
    + unfold _rollback_tnls. repeat filed_step.
  - unfold terminate. repeat filed_step.
Qed.

(** The manager after a sequence of operations. *)
Definition run (ops : list operation) (self : t) : t :=
  foldl (λ s op, (handle op s).2) self ops.

Lemma keeps_final {A} (I : t → Prop) (m : M t A) (s : t) : keeps I m → I s → I (m s).2.
Proof. intros Hm Hs. specialize (Hm s Hs). by destruct (m s) as [[a|e] s']. Qed.

Lemma run_filed_by_id ops self :
  filed_by_id (_tunnels self) → filed_by_id (_tunnels (run ops self)).
Proof.
  revert self. induction ops as [|op ops IH]; intros self Hs; [done|].
  simpl. apply IH. by apply (keeps_final (on_tunnels filed_by_id)), Hs; apply filed_handle.
Qed.

Lemma run_no_offline ops self :
  Forall (λ op, ∀ cbt, op ≠ GNV_CANCEL_TUNNEL cbt) ops →
  no_offline (_tunnels self) → no_offline (_tunnels (run ops self)).
Proof.
  revert self. induction ops as [|op ops IH]; intros self Hops Hs; [done|].
  apply Forall_cons in Hops as [Hop Hops].
  simpl. apply IH; [done|].
  by apply (keeps_final (on_tunnels no_offline)), Hs; apply keeps_handle.
Qed.


(** *** Records carry the tap name derived for their peer and overlay *)

(** Every record is a Geneve tunnel whose tap name is the one that
    [get_tap_name] derives for its peer id and overlay id. *)
Definition tap_derived (d : list (string * Tunnel.t)) : Prop :=
  ∀ k tnl, (k, tnl) ∈ d →
    get_tap_name (Tunnel.peer_id tnl) (Tunnel.overlay_id tnl) = Ok (Tunnel.tap_name tnl) ∧
    Tunnel.dataplane tnl = Geneve.

Lemma tap_derived_nil : tap_derived [].
Proof. intros k tnl Hin. by apply elem_of_nil in Hin. Qed.

Lemma tap_derived_set k tnl d :
  get_tap_name (Tunnel.peer_id tnl) (Tunnel.overlay_id tnl) = Ok (Tunnel.tap_name tnl) →
  Tunnel.dataplane tnl = Geneve →
  tap_derived d → tap_derived (dict_set k tnl d).
Proof.
  intros Htap Hdp Hall k' tnl' [[= -> ->]|Hin]%dict_set_elem; [done|by eapply Hall].
Qed.

Lemma tap_derived_pop k d : tap_derived d → tap_derived (dict_pop k d).
Proof. intros Hall k' tnl' Hin%dict_pop_subset. by eapply Hall. Qed.

Lemma tap_derived_get k tnl d :
  tap_derived d → dict_get k d = Some tnl →
  get_tap_name (Tunnel.peer_id tnl) (Tunnel.overlay_id tnl) = Ok (Tunnel.tap_name tnl) ∧
  Tunnel.dataplane tnl = Geneve.
Proof. intros Hall Hget. by eapply Hall, dict_get_Some_elem. Qed.

Lemma tap_set_tunnel_state tnlid st :
  keeps (on_tunnels tap_derived) (set_tunnel_state tnlid st).
Proof.
  intros s Hs. unfold set_tunnel_state, tunnel_at, mbind, M_bind, gets. simpl.
  destruct (dict_get tnlid (_tunnels s)) as [tnl|] eqn:Hget; simpl; [|done].
  destruct (tap_derived_get _ _ _ Hs Hget). by apply tap_derived_set.
Qed.

Lemma tap_set_tunnel_peer_mac tnlid m :
  keeps (on_tunnels tap_derived) (set_tunnel_peer_mac tnlid m).
Proof.
  intros s Hs. unfold set_tunnel_peer_mac, tunnel_at, mbind, M_bind, gets. simpl.
  destruct (dict_get tnlid (_tunnels s)) as [tnl|] eqn:Hget; simpl; [|done].
  destruct (tap_derived_get _ _ _ Hs Hget). by apply tap_derived_set.
Qed.

Lemma tap_pop_tunnel tnlid : keeps (on_tunnels tap_derived) (pop_tunnel tnlid).
Proof.
  intros s Hs. unfold pop_tunnel, tunnel_at, mbind, M_bind, gets. simpl.
  destruct (dict_get tnlid (_tunnels s)) as [tnl|] eqn:Hget; simpl; [|done].
  by apply tap_derived_pop.
Qed.

(** Binding the result of a pure computation: its value is known below. *)
Lemma keeps_lift_bind {St A B} (I : St → Prop) (o : outcome A) (f : A → M St B) :
  (∀ a, o = Ok a → keeps I (f a)) → keeps I (lift o ≫= f).
Proof.
  intros Hf s Hs. unfold mbind, M_bind, lift. destruct o as [a|e]; [|done].
  by apply Hf.
Qed.

Ltac tap_step :=
  lazymatch goal with
  | |- keeps _ (mbind _ (lift (get_tap_name _ _))) =>
      apply keeps_lift_bind; intros ? ?
  | |- keeps _ (set_tunnel_peer_mac _ _) => apply tap_set_tunnel_peer_mac
  | |- keeps _ (set_tunnel_state _ _) => apply tap_set_tunnel_state
  | |- keeps _ (pop_tunnel _) => apply tap_pop_tunnel
  | |- keeps _ (set_tunnels (dict_pop _)) =>
      apply keeps_set_tunnels; intros ?; apply tap_derived_pop
  | |- keeps _ (set_tunnels (dict_set _ (Tunnel.new _ _ _ _ _ _))) =>
      apply keeps_set_tunnels; intros ?; apply tap_derived_set; [assumption|reflexivity]
  | |- keeps _ (set_tunnels (λ _, [])) =>
      apply keeps_set_tunnels; intros ? _; apply tap_derived_nil
  | |- _ => keeps_common
  end.

Lemma tap_req_handler_abort_tunnel cbt :
  keeps (on_tunnels tap_derived) (req_handler_abort_tunnel cbt).
Proof.
  intros s Hs.
  unfold req_handler_abort_tunnel, _is_tap_exist, _deauth_tnls, complete_cbt, emit,
    set_tunnels, _remove_tunnel.
  run_handler.
  destruct (request_params cbt) as [| |params| | | |]; simpl; try done.
  destruct (p_OverlayId params) as [olid|]; simpl; [|done].
  destruct (p_PeerId params) as [peer_id|]; simpl; [|done].
  destruct (p_TunnelId params) as [tnlid|]; simpl; [|done].
  destruct logger_call as [[]|e]; simpl; [|done].
  destruct (dict_get tnlid (_tunnels s)) as [tnl|] eqn:Hget; simpl.
  - case_bool_decide; simpl; [|done].
    case_decide; simpl; [done|]. rewrite Hget. simpl.
    destruct (tap_derived_get _ _ _ Hs Hget). by apply tap_derived_set.
  - by destruct (get_tap_name olid peer_id).
Qed.

Lemma tap_handle op : keeps (on_tunnels tap_derived) (handle op).
Proof.
  destruct op; simpl.
  - unfold req_handler_auth_tunnel. repeat tap_step.
  - unfold req_handler_create_tunnel. repeat tap_step.
  - unfold req_handler_remove_tunnel. repeat tap_step.
  - unfold req_handler_exchnge_endpt. repeat tap_step.
  - unfold req_handler_update_peer_mac. repeat tap_step.
  - apply tap_req_handler_abort_tunnel.
  - unfold resp_handler_remote_action. repeat tap_step.
  - unfold abort_handler_remote_action. repeat tap_step.
  - unfold TimedTransactions._get_expired, TimedTransactions.is_completed. simpl.
    repeat tap_step. unfold on_tnl_timeout. tap_step; [tap_step|]. cbv zeta.
    apply keeps_bind; [|intros ?].
    + unfold _deauth_tnls. repeat tap_step.
    + unfold _rollback_tnls. repeat tap_step.
  - unfold terminate. repeat tap_step.
Qed.

Lemma run_tap_derived ops self :
  tap_derived (_tunnels self) → tap_derived (_tunnels (run ops self)).
Proof.
  revert self. induction ops as [|op ops IH]; intros self Hs; [done|].
  simpl. apply IH. by apply (keeps_final (on_tunnels tap_derived)), Hs; apply tap_handle.
Qed.

End with_config.

(** C10.  A [GNV_UPDATE_MAC] request for a tunnel id that is in the
    dictionary with a state that is neither [CREATING] nor [OFFLINE] is
    completed with status false; nothing else is handed to the bus (no
    [Connected] update), and the dictionary, hence the record, its state
    and its [peer_mac], and the kernel links are unchanged. *)
Theorem update_peer_mac_invalid_state (now : Z) (cbt : CBT) (self : t)
    (params : Params) (olid tnlid peer_id : string) (tnl : Tunnel.t) :
  request_params cbt = PDict params →
  p_OverlayId params = Some olid →
  p_TunnelId params = Some tnlid →
  p_NodeId params = Some peer_id →
  dict_get tnlid (_tunnels self) = Some tnl →
  Tunnel.state tnl ≠ CREATING →
  Tunnel.state tnl ≠ OFFLINE →
  ∃ self',
    req_handler_update_peer_mac now cbt self = (Ok tt, self') ∧
    _tunnels self' = _tunnels self ∧
    dict_get tnlid (_tunnels self') = Some tnl ∧
    netlink self' = netlink self ∧
    outbox self' =
      outbox self ++
      [complete_cbt_eff
         (set_response (PText ("Invalid request for Tunnel " +:+ tnlid)) false cbt)].
Proof.
  intros Hreq Holid Htnlid Hpeer Hget Hnc Hno.
  eexists. unfold req_handler_update_peer_mac. run_handler.
  rewrite Hreq; simpl. rewrite Holid; simpl. rewrite Htnlid; simpl.
  rewrite Hpeer; simpl. rewrite Hget.
  rewrite (decide_False (P := Tunnel.state tnl = OFFLINE)) by done.
  rewrite (decide_False (P := Tunnel.state tnl = CREATING)) by done.
  simpl. split_and!; [reflexivity|done..].
Qed.

Lemma update_peer_mac_invalid_state_witness :
  let tnl := Tunnel.mk "T1" "ol001" "peerA" ONLINE "ol001peerA" Geneve None (Some "aa:bb:cc:00:00:02") in
  let self := mk [("T1", tnl)] ∅ [] in
  let cbt := mkCBT 7 (PDict (mkParams (Some "ol001") (Some "T1") None (Some "peerA")
                               None (Some (Some "aa:bb:cc:00:00:03")) None None))
               None None in
  ∃ self',
    req_handler_update_peer_mac 100 cbt self = (Ok tt, self') ∧
    _tunnels self' = [("T1", tnl)] ∧
    outbox self' =
      [complete_cbt_eff (set_response (PText "Invalid request for Tunnel T1") false cbt)].
Proof.
  intros tnl self cbt.
  destruct (update_peer_mac_invalid_state 100 cbt self
              (mkParams (Some "ol001") (Some "T1") None (Some "peerA")
                 None (Some (Some "aa:bb:cc:00:00:03")) None None)
              "ol001" "T1" "peerA" tnl)
    as (self' & Hrun & Htun & _ & _ & Hout); try reflexivity; try discriminate.
  exists self'. by split_and!.
Defined.

(** C2, where the code departs from the claim.  For a [GNV_EXCHANGE_ENDPT]
    request whose tunnel id is not in the dictionary, the [except] clause
    itself raises [KeyError] at [self._tunnels[tnlid].state = OFFLINE]: the
    exception leaves the handler and the CBT is never completed. *)
Theorem exchnge_endpt_unknown_tunnel_raises (config : gmap string OverlayCfg)
    (node_id : string) (cbt : CBT) (self : t) (params : Params)
    (olid tnlid peer_id endpnt_address : string) (vnid : Z) :
  request_params cbt = PDict params →
  p_OverlayId params = Some olid →
  p_TunnelId params = Some tnlid →
  p_VNId params = Some vnid →
  p_NodeId params = Some peer_id →
  p_EndPointAddress params = Some endpnt_address →
  dict_get tnlid (_tunnels self) = None →
  req_handler_exchnge_endpt config node_id cbt self = (Raise (KeyError tnlid), self).
Proof.
  intros Hreq Holid Htnlid Hvnid Hpeer Hep Hget.
  unfold req_handler_exchnge_endpt. run_handler.
  rewrite Hreq; simpl. rewrite Holid; simpl. rewrite Htnlid; simpl.
  rewrite Hvnid; simpl. rewrite Hpeer; simpl. rewrite Hep; simpl.
  unfold set_tunnel_state, tunnel_at. run_handler. rewrite Hget. simpl.
  rewrite Hget. simpl. by destruct self.
Qed.

Lemma exchnge_endpt_unknown_tunnel_raises_witness :
  req_handler_exchnge_endpt {[ "ol001" := mkOverlayCfg None (Some "10.0.0.2") ]} "nodeB"
    (mkCBT 1 (PDict (mkParams (Some "ol001") (Some "T1") None (Some "nodeA") (Some 42)
                       None (Some "10.0.0.1") None)) None None)
    (mk [] ∅ []) =
  (Raise (KeyError "T1"), mk [] ∅ []).
Proof.
  by apply (exchnge_endpt_unknown_tunnel_raises _ _ _ _
              (mkParams (Some "ol001") (Some "T1") None (Some "nodeA") (Some 42)
                 None (Some "10.0.0.1") None) "ol001" "T1" "nodeA" "10.0.0.1" 42).
Defined.

(** The part of C2 that the code does satisfy: when the tunnel id is in
    the dictionary but its record is not [AUTHORIZED], the request is
    completed with status false, no kernel link is created and the record
    is removed. *)
Lemma exchnge_endpt_not_authorized (config : gmap string OverlayCfg)
    (node_id : string) (cbt : CBT) (self : t) (params : Params)
    (olid tnlid peer_id endpnt_address : string) (vnid : Z) (tnl : Tunnel.t) :
  request_params cbt = PDict params →
  p_OverlayId params = Some olid →
  p_TunnelId params = Some tnlid →
  p_VNId params = Some vnid →
  p_NodeId params = Some peer_id →
  p_EndPointAddress params = Some endpnt_address →
  NoDup (dict_keys (_tunnels self)) →
  dict_get tnlid (_tunnels self) = Some tnl →
  Tunnel.state tnl ≠ AUTHORIZED →
  ∃ self' msg,
    req_handler_exchnge_endpt config node_id cbt self = (Ok tt, self') ∧
    dict_get tnlid (_tunnels self') = None ∧
    netlink self' = netlink self ∧
    outbox self' = outbox self ++ [complete_cbt_eff (set_response (PText msg) false cbt)].
Proof.
  intros Hreq Holid Htnlid Hvnid Hpeer Hep Hnd Hget Hst.
  unfold req_handler_exchnge_endpt. run_handler.
  rewrite Hreq; simpl. rewrite Holid; simpl. rewrite Htnlid; simpl.
  rewrite Hvnid; simpl. rewrite Hpeer; simpl. rewrite Hep; simpl.
  unfold set_tunnel_state, tunnel_at, _is_tunnel_authorized, set_tunnels,
    complete_cbt, emit. run_handler.
  rewrite Hget. simpl. rewrite Hget. simpl.
  rewrite bool_decide_eq_false_2 by done. simpl. rewrite Hget. simpl.
  eexists _, _. split_and!; [reflexivity| |done..].
  simpl. apply dict_get_pop_eq. by apply dict_set_NoDup.
Qed.

(** C3, where the code departs from the claim.  [req_handler_create_tunnel]
    does not return after failing a request whose tunnel id is already in
    the dictionary: the CBT is completed with status false, and then the
    stale tap is removed, the existing record is replaced by a new one in
    state [CREATING], and a [GNV_EXCHANGE_ENDPT] remote action is submitted
    to the peer. *)
Theorem create_tunnel_duplicate_id_overwrites (config : gmap string OverlayCfg)
    (node_id : string) (cbt : CBT) (self : t) (params : Params)
    (olid tnlid peer_id tap_name endpt : string) (loc_id : Z)
    (ol_cfg : OverlayCfg) (old : Tunnel.t) :
  request_params cbt = PDict params →
  p_OverlayId params = Some olid →
  p_TunnelId params = Some tnlid →
  p_VNId params = Some loc_id →
  p_PeerId params = Some peer_id →
  config !! olid = Some ol_cfg →
  EndPointAddress ol_cfg = Some endpt →
  get_tap_name config peer_id olid = Ok tap_name →
  dict_get tnlid (_tunnels self) = Some old →
  let failed := set_response (PText ("Tunnel " +:+ tnlid +:+ " already exists")) false cbt in
  let record := Tunnel.new tnlid olid peer_id CREATING tap_name Geneve in
  let rem_act :=
    mkRemoteAction olid peer_id "GeneveTunnel" "GNV_EXCHANGE_ENDPT"
      (mkParams (Some olid) (Some tnlid) None (Some node_id) (Some loc_id) None
         (Some endpt) None) no_params in
  req_handler_create_tunnel config node_id cbt self =
    (Ok tt,
     mk (dict_set tnlid record (_tunnels self))
        (delete tap_name (netlink self))
        (outbox self ++ [complete_cbt_eff failed;
                         submit_remote_act_eff rem_act (Some failed)])).
Proof.
  intros Hreq Holid Htnlid Hvnid Hpeer Hcfg Hep Htap Hget failed record rem_act.
  unfold req_handler_create_tunnel. run_handler.
  rewrite Hreq; simpl. rewrite Holid; simpl. rewrite Htnlid; simpl.
  rewrite Hvnid; simpl. rewrite Hpeer; simpl. rewrite Htap; simpl.
  unfold dict_mem. rewrite Hget. rewrite bool_decide_eq_true_2 by eauto.
  unfold complete_cbt, emit, _is_tap_exist, _remove_tunnel, set_tunnels,
    submit_remote_act, emit. run_handler.
  destruct (netlink self !! tap_name) as [lnk|] eqn:Hlnk.
  - rewrite bool_decide_eq_true_2 by eauto. simpl. rewrite Hcfg. simpl.
    rewrite Hep. simpl. by rewrite <- app_assoc.
  - rewrite bool_decide_eq_false_2 by (by intros [? ?]). simpl. rewrite Hcfg. simpl.
    rewrite Hep. simpl. rewrite delete_id by done. by rewrite <- app_assoc.
Qed.

Lemma create_tunnel_duplicate_id_overwrites_witness :
  let config : gmap string OverlayCfg := {[ "ol001" := mkOverlayCfg None (Some "10.0.0.1") ]} in
  let old := Tunnel.mk "T1" "ol001" "peerB" ONLINE "ol001peerB" Geneve None (Some "aa:bb:cc:00:00:01") in
  let cbt := mkCBT 3 (PDict (mkParams (Some "ol001") (Some "T1") (Some "peerB") None
                               (Some 42) None None None)) None None in
  ∃ self',
    req_handler_create_tunnel config "nodeA" cbt
      (mk [("T1", old)] {[ "ol001peerB" := (42, "10.0.0.2") ]} []) = (Ok tt, self') ∧
    _tunnels self' = [("T1", Tunnel.new "T1" "ol001" "peerB" CREATING "ol001peerB" Geneve)] ∧
    netlink self' !! "ol001peerB" = None ∧
    length (outbox self') = 2%nat.
Proof.
  intros config old cbt. eexists. split.
  - apply (create_tunnel_duplicate_id_overwrites config "nodeA" cbt _
             (mkParams (Some "ol001") (Some "T1") (Some "peerB") None
                (Some 42) None None None)
             "ol001" "T1" "peerB" "ol001peerB" "10.0.0.1" 42
             (mkOverlayCfg None (Some "10.0.0.1")) old); reflexivity.
  - split_and!; reflexivity.
Defined.

(** *** The timeout sweep *)

Fixpoint pop_all (ids : list string) (d : list (string * Tunnel.t)) : list (string * Tunnel.t) :=
  match ids with
  | [] => d
  | k :: ids' => pop_all ids' (dict_pop k d)
  end.

Fixpoint delete_all (taps : list string) (m : gmap string (Z * string)) : gmap string (Z * string) :=
  match taps with
  | [] => m
  | tap :: taps' => delete_all taps' (delete tap m)
  end.

Definition removed_update (tnl : Tunnel.t) : Update :=
  mkUpdate Removed (Tunnel.overlay_id tnl) (Tunnel.peer_id tnl) (Tunnel.tnlid tnl)
    None (Some (Tunnel.tap_name tnl)) None None None None.

Lemma pop_all_NoDup ids d : NoDup (dict_keys d) → NoDup (dict_keys (pop_all ids d)).
Proof.
  revert d. induction ids as [|k ids IH]; intros d Hnd; simpl; [done|].
  by apply IH, dict_pop_NoDup.
Qed.

Lemma dict_get_pop_None (k k' : string) (d : list (string * Tunnel.t)) :
  dict_get k d = None → dict_get k (dict_pop k' d) = None.
Proof.
  rewrite !dict_get_None_keys. intros Hk Hin. by apply Hk, (dict_pop_keys_subset k').
Qed.

Lemma dict_get_pop_all ids k d :
  NoDup (dict_keys d) →
  dict_get k (pop_all ids d) = if decide (k ∈ ids) then None else dict_get k d.
Proof.
  revert d. induction ids as [|k' ids IH]; intros d Hnd; cbn [pop_all].
  - rewrite decide_False; [done|]. apply not_elem_of_nil.
  - rewrite IH by (by apply dict_pop_NoDup).
    destruct (decide (k' = k)) as [->|Hne].
    + rewrite (decide_True (P := k ∈ k :: ids)) by apply list_elem_of_here.
      rewrite dict_get_pop_eq by done. by case_decide.
    + rewrite dict_get_pop_ne by done.
      destruct (decide (k ∈ ids)) as [Hin|Hnin].
      * rewrite decide_True; [done|]. by apply list_elem_of_further.
      * rewrite decide_False; [done|]. rewrite not_elem_of_cons. naive_solver.
Qed.

Lemma lookup_delete_all taps tap (m : gmap string (Z * string)) :
  delete_all taps m !! tap = if decide (tap ∈ taps) then None else m !! tap.
Proof.
  revert m. induction taps as [|tap' taps IH]; intros m; cbn [delete_all].
  - rewrite decide_False; [done|]. apply not_elem_of_nil.
  - rewrite IH. destruct (decide (tap' = tap)) as [->|Hne].
    + rewrite (decide_True (P := tap ∈ tap :: taps)) by apply list_elem_of_here.
      rewrite lookup_delete_eq. by case_decide.
    + rewrite lookup_delete_ne by done.
      destruct (decide (tap ∈ taps)) as [Hin|Hnin].
      * rewrite decide_True; [done|]. by apply list_elem_of_further.
      * rewrite decide_False; [done|]. rewrite not_elem_of_cons. naive_solver.
Qed.

Lemma _deauth_tnls_tunnels (tnls : list Tunnel.t) (self : t) :
  _deauth_tnls (ObjTunnel <$> tnls) self =
    (Ok tt, mk (pop_all (Tunnel.tnlid <$> tnls) (_tunnels self)) (netlink self) (outbox self)).
Proof.
  revert self. induction tnls as [|tnl tnls IH]; intros self; simpl.
  - by destruct self.
  - unfold _deauth_tnls in *. simpl. unfold mbind, M_bind, set_tunnels, modify. simpl.
    by rewrite IH.
Qed.

Lemma _rollback_tnls_spec (tnls : list Tunnel.t) (self : t) :
  _rollback_tnls tnls self =
    (Ok tt, mk (pop_all (Tunnel.tnlid <$> tnls) (_tunnels self))
               (delete_all (Tunnel.tap_name <$> tnls) (netlink self))
               (outbox self ++ (post_update_eff <$> (removed_update <$> tnls)))).
Proof.
  revert self. induction tnls as [|tnl tnls IH]; intros self; simpl.
  - rewrite app_nil_r. by destruct self.
  - unfold _rollback_tnls in *. simpl.
    unfold mbind, M_bind, set_tunnels, _remove_tunnel, post_update, emit, modify. simpl.
    rewrite IH. simpl. by rewrite <- app_assoc.
Qed.

Lemma sort_expired_spec (TNL_OFFLINE : TUNNEL_STATES) tnls deauth rlbk :
  sort_expired TNL_OFFLINE tnls deauth rlbk =
    (deauth ++ filter (λ tnl, Tunnel.state tnl = AUTHORIZED) tnls,
     rlbk ++ filter (λ tnl, Tunnel.state tnl ≠ AUTHORIZED ∧
                            (Tunnel.state tnl = CREATING ∨ Tunnel.state tnl = TNL_OFFLINE))
               tnls).
Proof.
  revert deauth rlbk. induction tnls as [|tnl tnls IH]; intros deauth rlbk; simpl.
  - by rewrite !app_nil_r.
  - rewrite !filter_cons. destruct (decide (Tunnel.state tnl = AUTHORIZED)) as [Ha|Ha].
    + rewrite IH. rewrite decide_False by naive_solver. by rewrite <- app_assoc.
    + destruct (decide (Tunnel.state tnl = CREATING ∨ Tunnel.state tnl = TNL_OFFLINE)).
      * rewrite IH. rewrite decide_True by done. by rewrite <- app_assoc.
      * rewrite IH. rewrite decide_False by naive_solver. done.
Qed.

(** The records whose id is [k] are the one under the key [k]. *)
Lemma filter_none {A} (P : A → Prop) `{∀ x, Decision (P x)} (l : list A) :
  (∀ x, x ∈ l → ¬ P x) → filter P l = [].
Proof.
  induction l as [|y l IH]; intros Hall; [done|].
  rewrite filter_cons, decide_False by (apply Hall, list_elem_of_here).
  apply IH. intros x Hx. by apply Hall, list_elem_of_further.
Qed.

Lemma values_with_id k tnl d :
  filed_by_id d → dict_get k d = Some tnl →
  filter (λ x, Tunnel.tnlid x = k) (dict_values d) = [tnl].
Proof.
  unfold filed_by_id, dict_values, dict_keys.
  induction d as [|[k1 t1] d IH]; simpl; intros [Hnd Hid] Hget; [done|].
  apply NoDup_cons in Hnd as [Hk1 Hnd].
  assert (Tunnel.tnlid t1 = k1) as Ht1 by (apply Hid, list_elem_of_here).
  assert (∀ k' tnl', (k', tnl') ∈ d → Tunnel.tnlid tnl' = k') as Hid'
    by (intros ???; by apply Hid, list_elem_of_further).
  rewrite filter_cons. destruct (decide (k = k1)) as [->|Hne].
  - injection Hget as ->. rewrite decide_True by done. f_equal.
    apply filter_none. intros x Hx Hxk.
    apply list_elem_of_fmap in Hx as ([k' x'] & -> & Hin). simpl in Hxk.
    apply Hk1. apply list_elem_of_fmap. exists (k', x'). split; [|done].
    simpl. by rewrite <- (Hid' _ _ Hin).
  - rewrite decide_False by congruence. by apply IH.
Qed.

Lemma filter_comm {A} (P Q : A → Prop) `{∀ x, Decision (P x)} `{∀ x, Decision (Q x)}
    (l : list A) :
  filter Q (filter P l) = filter P (filter Q l).
Proof.
  induction l as [|x l IH]; [done|].
  rewrite !filter_cons.
  destruct (decide (P x)), (decide (Q x)); rewrite ?filter_cons;
    rewrite ?decide_True by done; rewrite ?decide_False by done; by rewrite ?IH.
Qed.

Lemma filter_fmap_comm {A B} (f : A → B) (P : B → Prop) `{∀ y, Decision (P y)}
    (l : list A) :
  filter P (f <$> l) = f <$> filter (λ x, P (f x)) l.
Proof.
  induction l as [|x l IH]; [done|].
  rewrite fmap_cons, !filter_cons. case_decide; by rewrite ?fmap_cons, IH.
Qed.

Lemma with_id_of_filter (P : Tunnel.t → Prop) `{∀ x, Decision (P x)} k tnl d :
  filed_by_id d → dict_get k d = Some tnl →
  filter (λ x, Tunnel.tnlid x = k) (filter P (dict_values d)) =
    if decide (P tnl) then [tnl] else [].
Proof.
  intros Hd Hget. rewrite filter_comm, (values_with_id k tnl d) by done.
  apply filter_singleton. exact [].
Qed.

Lemma ids_of_filter (P : Tunnel.t → Prop) `{∀ x, Decision (P x)} k tnl d :
  filed_by_id d → dict_get k d = Some tnl →
  k ∈ Tunnel.tnlid <$> filter P (dict_values d) ↔ P tnl.
Proof.
  intros Hd Hget. pose proof (with_id_of_filter P k tnl d Hd Hget) as Hf. split.
  - intros (x & -> & Hx)%list_elem_of_fmap.
    assert (x ∈ filter (λ y, Tunnel.tnlid y = Tunnel.tnlid x) (filter P (dict_values d)))
      as Hx' by (by apply list_elem_of_filter).
    rewrite Hf in Hx'. case_decide; [done|]. by apply elem_of_nil in Hx'.
  - intros HP. rewrite decide_True in Hf by done.
    assert (tnl ∈ filter (λ x, Tunnel.tnlid x = k) (filter P (dict_values d)))
      as Hin by (rewrite Hf; apply list_elem_of_here).
    apply list_elem_of_filter in Hin as [Hid Hin].
    apply list_elem_of_fmap. by exists tnl.
Qed.

(** C4.  When the timed transaction of a kernel-flavour tunnel expires and
    the registered tunnel is not [ONLINE], the sweep of [on_tnl_timeout]
    returns, and for every record of the dictionary: an [AUTHORIZED] one is
    removed and no update is published for it; one in state [CREATING] or
    [TNL_OFFLINE] is removed, its kernel link is gone, and exactly one
    update, a [Removed] one, is published for it; any other record stays
    as it is. *)
Theorem tunnel_timeout_sweep (GENEVE_SETUP_TIMEOUT : Z) (TNL_OFFLINE : TUNNEL_STATES)
    (now : Z) (item : Tunnel.t) (self : t) :
  TNL_OFFLINE ≠ AUTHORIZED →
  filed_by_id (_tunnels self) →
  Tunnel.state item ≠ ONLINE →
  ∃ self' published,
    TimedTransactions._get_expired now
      (timed_transaction GENEVE_SETUP_TIMEOUT TNL_OFFLINE item) self = (Ok tt, self') ∧
    outbox self' = outbox self ++ (post_update_eff <$> published) ∧
    ∀ k tnl, dict_get k (_tunnels self) = Some tnl →
      (Tunnel.state tnl = AUTHORIZED →
         dict_get k (_tunnels self') = None ∧
         filter (λ u, u_TunnelId u = k) published = []) ∧
      (Tunnel.state tnl = CREATING ∨ Tunnel.state tnl = TNL_OFFLINE →
         dict_get k (_tunnels self') = None ∧
         netlink self' !! Tunnel.tap_name tnl = None ∧
         filter (λ u, u_TunnelId u = k) published =
           [mkUpdate Removed (Tunnel.overlay_id tnl) (Tunnel.peer_id tnl) k None
              (Some (Tunnel.tap_name tnl)) None None None None]) ∧
      (Tunnel.state tnl ≠ AUTHORIZED → Tunnel.state tnl ≠ CREATING →
       Tunnel.state tnl ≠ TNL_OFFLINE →
         dict_get k (_tunnels self') = Some tnl).
Proof.
  intros Hoff Hd Hitem.
  set (P1 := λ tnl, Tunnel.state tnl = AUTHORIZED).
  set (P2 := λ tnl, Tunnel.state tnl ≠ AUTHORIZED ∧
                    (Tunnel.state tnl = CREATING ∨ Tunnel.state tnl = TNL_OFFLINE)).
  set (deauth := filter P1 (dict_values (_tunnels self))).
  set (rlbk := filter P2 (dict_values (_tunnels self))).
  exists (mk (pop_all (Tunnel.tnlid <$> rlbk) (pop_all (Tunnel.tnlid <$> deauth) (_tunnels self)))
             (delete_all (Tunnel.tap_name <$> rlbk) (netlink self))
             (outbox self ++ (post_update_eff <$> (removed_update <$> rlbk)))),
         (removed_update <$> rlbk).
  split_and!.
  - unfold TimedTransactions._get_expired, TimedTransactions.is_completed,
      timed_transaction, is_tnl_completed. simpl.
    unfold mbind, M_bind, mret, M_ret. simpl.
    rewrite bool_decide_eq_false_2 by done. simpl.
    unfold on_tnl_timeout, mbind, M_bind, gets. simpl.
    rewrite sort_expired_spec. simpl. fold P1 P2 deauth rlbk.
    rewrite _deauth_tnls_tunnels. by rewrite _rollback_tnls_spec.
  - done.
  - intros k tnl Hget. simpl.
    pose proof (ids_of_filter P1 k tnl _ Hd Hget) as Hin1.
    pose proof (ids_of_filter P2 k tnl _ Hd Hget) as Hin2.
    pose proof (with_id_of_filter P2 k tnl _ Hd Hget) as Hf2.
    fold deauth in Hin1. fold rlbk in Hin2, Hf2.
    assert (filter (λ u, u_TunnelId u = k) (removed_update <$> rlbk) =
            removed_update <$> (if decide (P2 tnl) then [tnl] else [])) as Hpub.
    { rewrite filter_fmap_comm. simpl. by rewrite Hf2. }
    assert (Tunnel.tnlid tnl = k) as Hid.
    { destruct Hd as [_ Hd]. by apply Hd, dict_get_Some_elem. }
    destruct Hd as [Hnd _].
    rewrite !dict_get_pop_all by (done || by apply pop_all_NoDup).
    rewrite lookup_delete_all, Hpub, Hget.
    split_and!.
    + intros Ha. rewrite (decide_True (P := k ∈ Tunnel.tnlid <$> deauth)) by (by apply Hin1).
      rewrite (decide_False (P := P2 tnl)) by (intros [? _]; done).
      split; [by destruct (decide (k ∈ Tunnel.tnlid <$> rlbk))|done].
    + intros Hc.
      assert (P2 tnl) as HP2.
      { split; [|done]. destruct Hc as [Hc|Hc]; rewrite Hc; done. }
      rewrite (decide_True (P := k ∈ Tunnel.tnlid <$> rlbk)) by (by apply Hin2).
      rewrite (decide_True (P := P2 tnl)) by done.
      rewrite decide_True.
      * split_and!; [done..|]. simpl. unfold removed_update. by rewrite Hid.
      * apply list_elem_of_fmap. exists tnl. split; [done|].
        apply list_elem_of_filter. split; [done|].
        apply list_elem_of_fmap. exists (k, tnl). split; [done|].
        by apply dict_get_Some_elem.
    + intros Ha Hc Ho.
      rewrite (decide_False (P := k ∈ Tunnel.tnlid <$> rlbk)).
      * rewrite decide_False; [done|]. rewrite Hin1. done.
      * rewrite Hin2. intros [_ [?|?]]; done.
Qed.

Lemma tunnel_timeout_sweep_witness :
  let authorized := Tunnel.new "T1" "ol001" "peerA" AUTHORIZED "ol001peerA" Geneve in
  let creating := Tunnel.new "T2" "ol001" "peerB" CREATING "ol001peerB" Geneve in
  let online := Tunnel.new "T3" "ol001" "peerC" ONLINE "ol001peerC" Geneve in
  let self := mk [("T1", authorized); ("T2", creating); ("T3", online)]
                 {[ "ol001peerB" := (42, "10.0.0.2"); "ol001peerC" := (43, "10.0.0.3") ]} [] in
  ∃ self',
    TimedTransactions._get_expired 100 (timed_transaction 120 OFFLINE authorized) self
      = (Ok tt, self') ∧
    _tunnels self' = [("T3", online)] ∧
    outbox self' = [post_update_eff (removed_update creating)].
Proof.
  intros authorized creating online self.
  destruct (tunnel_timeout_sweep 120 OFFLINE 100 authorized self)
    as (self' & published & Hrun & _); [done| |done|].
  - split.
    + unfold dict_keys. simpl. repeat (apply NoDup_cons; split; [set_solver|]).
      apply NoDup_nil_2.
    + intros k tnl Hin. simpl in Hin.
      repeat (apply elem_of_cons in Hin as [[= -> ->]|Hin]; [done|]).
      by apply elem_of_nil in Hin.
  - exists self'. vm_compute in Hrun. injection Hrun as <-. by split_and!.
Defined.


(** *** The handshake of the kernel-flavour manager, end to end *)


Lemma dict_pop_set {V} (k : string) (v : V) (d : list (string * V)) :
  dict_pop k (dict_set k v d) = dict_pop k d.
Proof.
  induction d as [|[k' v'] d IH]; simpl.
  - by rewrite decide_True.
  - destruct (decide (k = k')) as [->|Hne]; simpl.
    + by rewrite decide_True.
    + rewrite decide_False by done. by rewrite IH.
Qed.

Lemma dict_pop_absent {V} (k : string) (d : list (string * V)) :
  dict_get k d = None → dict_pop k d = d.
Proof.
  induction d as [|[k' v'] d IH]; simpl; [done|].
  destruct (decide (k = k')) as [->|Hne]; [done|]. intros Hget. by rewrite IH.
Qed.

(** Unfolding the primitives of the manager as well. *)
Ltac run_primitives :=
  unfold set_tunnel_state, set_tunnel_peer_mac, pop_tunnel, tunnel_at,
    _is_tunnel_authorized, _is_tap_exist, _remove_tunnel, _create_tunnel, set_tunnels,
    complete_cbt, free_cbt, post_update, submit_remote_act, register_timed_transaction,
    emit;
  run_handler.











(** X8.  [GNV_REMOVE_TUNNEL] for a tunnel id that is in the dictionary
    always succeeds, whatever the state of the record and whether or not its
    overlay is configured: the record is removed, the kernel link named by
    the record's tap name is deleted, the request is completed with status
    true and one [Removed] update is published, in this order. *)
Theorem remove_tunnel_known (config : gmap string OverlayCfg) (cbt : CBT) (self : t)
    (params : Params) (olid peer_id tnlid : string) (tnl : Tunnel.t) :
  request_params cbt = PDict params →
  p_PeerId params = Some peer_id →
  p_OverlayId params = Some olid →
  p_TunnelId params = Some tnlid →
  NoDup (dict_keys (_tunnels self)) →
  dict_get tnlid (_tunnels self) = Some tnl →
  ∃ self',
    req_handler_remove_tunnel config cbt self = (Ok tt, self') ∧
    _tunnels self' = dict_pop tnlid (_tunnels self) ∧
    dict_get tnlid (_tunnels self') = None ∧
    netlink self' = delete (Tunnel.tap_name tnl) (netlink self) ∧
    outbox self' =
      outbox self ++
      [complete_cbt_eff (set_response (PText ("Tunnel deleted " +:+ tnlid)) true cbt);
       post_update_eff
         (mkUpdate Removed olid peer_id tnlid None (Some (Tunnel.tap_name tnl))
            None None None None)].
Proof.
  intros Hreq Hpeer Holid Htnlid Hnd Hget.
  unfold req_handler_remove_tunnel. run_handler.
  rewrite Hreq; simpl. rewrite Hpeer; simpl. rewrite Holid; simpl. rewrite Htnlid; simpl.
  rewrite Hget. run_primitives. rewrite Hget. simpl. rewrite dict_get_set_eq. simpl.
  eexists. split_and!; [reflexivity|simpl..].
  - apply dict_pop_set.
  - rewrite dict_pop_set. by apply dict_get_pop_eq.
  - done.
  - by rewrite <- app_assoc.
Qed.

Lemma remove_every_tap (tnls : list Tunnel.t) (self : t) :
  for_each tnls (λ tnl, _remove_tunnel (Tunnel.tap_name tnl)) self =
    (Ok tt, mk (_tunnels self) (delete_all (Tunnel.tap_name <$> tnls) (netlink self))
               (outbox self)).
Proof.
  revert self. induction tnls as [|tnl tnls IH]; intros self; simpl.
  - by destruct self.
  - unfold mbind, M_bind, _remove_tunnel, modify. simpl. by rewrite IH.
Qed.

(** X9.  [terminate] never raises: it empties the dictionary, deletes from
    the kernel the link of every record's tap name and no other link, and
    hands nothing to the bus. *)
Theorem terminate_removes_every_tap (self : t) :
  ∃ self',
    terminate self = (Ok tt, self') ∧
    _tunnels self' = [] ∧
    outbox self' = outbox self ∧
    ∀ tap, netlink self' !! tap =
             if decide (tap ∈ Tunnel.tap_name <$> dict_values (_tunnels self))
             then None else netlink self !! tap.
Proof.
  unfold terminate. run_handler. rewrite remove_every_tap. run_primitives.
  eexists. split_and!; [reflexivity|done..|]. intros tap. simpl.
  apply lookup_delete_all.
Qed.

(** X10.  [GNV_AUTH_TUNNEL] for a tunnel id that is already in the
    dictionary completes the request with status false and does nothing
    else: the dictionary and the kernel links are unchanged, no timed
    transaction is registered and no update is published.  The overlay need
    not even be configured. *)
Theorem auth_tunnel_duplicate_id (config : gmap string OverlayCfg)
    (GENEVE_SETUP_TIMEOUT : Z) (cbt : CBT) (self : t) (params : Params)
    (olid peer_id tnlid : string) (old : Tunnel.t) :
  request_params cbt = PDict params →
  p_OverlayId params = Some olid →
  p_PeerId params = Some peer_id →
  p_TunnelId params = Some tnlid →
  dict_get tnlid (_tunnels self) = Some old →
  req_handler_auth_tunnel config GENEVE_SETUP_TIMEOUT cbt self =
    (Ok tt,
     mk (_tunnels self) (netlink self)
        (outbox self ++
         [complete_cbt_eff
            (set_response
               (PText ("Geneve tunnel authorization failed, a tunnel with ID "
                       +:+ slice_to tnlid 7 +:+ "already exist for peer"
                       +:+ slice_to peer_id 7)) false cbt)])).
Proof.
  intros Hreq Holid Hpeer Htnlid Hget.
  unfold req_handler_auth_tunnel. run_handler.
  rewrite Hreq; simpl. rewrite Holid; simpl. rewrite Hpeer; simpl. rewrite Htnlid; simpl.
  unfold dict_mem. rewrite Hget. rewrite bool_decide_eq_true_2 by eauto.
  by run_primitives.
Qed.

(** X11.  [GNV_AUTH_TUNNEL] for an overlay that is not in the configuration:
    [get_tap_name] raises [KeyError] and the handler has no [try], so the
    exception leaves the handler: the request is never completed, and
    nothing has changed. *)
Theorem auth_tunnel_unknown_overlay (config : gmap string OverlayCfg)
    (GENEVE_SETUP_TIMEOUT : Z) (cbt : CBT) (self : t) (params : Params)
    (olid peer_id tnlid : string) :
  request_params cbt = PDict params →
  p_OverlayId params = Some olid →
  p_PeerId params = Some peer_id →
  p_TunnelId params = Some tnlid →
  dict_get tnlid (_tunnels self) = None →
  config !! olid = None →
  req_handler_auth_tunnel config GENEVE_SETUP_TIMEOUT cbt self = (Raise (KeyError olid), self).
Proof.
  intros Hreq Holid Hpeer Htnlid Hget Hcfg.
  unfold req_handler_auth_tunnel. run_handler.
  rewrite Hreq; simpl. rewrite Holid; simpl. rewrite Hpeer; simpl. rewrite Htnlid; simpl.
  unfold dict_mem. rewrite Hget. rewrite bool_decide_eq_false_2 by (by intros [? ?]).
  unfold get_tap_name. by rewrite Hcfg.
Qed.

(** X12.  The peer's successful answer to [GNV_EXCHANGE_ENDPT] arrives after
    the initiator's record has gone (it expired or was removed).  The
    [except] clause frees the response and completes the parent request with
    status false, and then the [finally] clause reads
    [self._tunnels[tnlid].mac], which raises [KeyError]: the handler raises
    and the [GNV_CANCEL_TUNNEL] that would tell the peer is never submitted. *)
Theorem resp_exchange_endpt_after_expiry (config : gmap string OverlayCfg)
    (node_id : string) (now : Z) (cbt parent_cbt : CBT) (self : t)
    (rem_act done : RemoteAction) (tnlid : string) (vnid : Z) (peer_mac : option string) :
  request_params cbt = PRemAct rem_act →
  action rem_act = "GNV_EXCHANGE_ENDPT" →
  response cbt = Some (mkResponse (PRemAct done) true) →
  parent cbt = Some parent_cbt →
  p_TunnelId (data done) = Some tnlid →
  p_VNId (data done) = Some vnid →
  p_MAC (data done) = Some peer_mac →
  dict_get tnlid (_tunnels self) = None →
  resp_handler_remote_action config node_id now cbt self =
    (Raise (KeyError tnlid),
     mk (_tunnels self) (netlink self)
        (outbox self ++
         [free_cbt_eff cbt;
          complete_cbt_eff
            (set_response
               (PText ("Failed to create Geneve tunnel " +:+ tnlid +:+ ". Error="
                       +:+ exn_str (KeyError tnlid))) false parent_cbt)])).
Proof.
  intros Hreq Hact Hresp Hpar Htnlid Hvnid Hmac Hget.
  unfold resp_handler_remote_action. run_handler.
  rewrite Hresp, Hreq. simpl. rewrite Hact. simpl.
  rewrite Htnlid; simpl. rewrite Hvnid; simpl. rewrite Hmac; simpl.
  run_primitives. rewrite Hget. simpl. rewrite Hpar. simpl. rewrite Hget. simpl.
  by rewrite <- app_assoc.
Qed.

(** X13.  The peer's successful answer to [GNV_EXCHANGE_ENDPT] arrives while
    the kernel already has a link with the tunnel's tap name: creating the
    link fails; the handler returns after it has freed the response,
    completed the parent request with status false and submitted
    [GNV_CANCEL_TUNNEL] to the peer with no parent.  The kernel is
    unchanged, and the record stays in the dictionary, in the state it had,
    with the peer's MAC. *)
Theorem resp_exchange_endpt_link_exists (config : gmap string OverlayCfg)
    (node_id : string) (now : Z) (cbt parent_cbt : CBT) (self : t)
    (rem_act done : RemoteAction) (tnl : Tunnel.t) (tnlid tap_name endpnt_address : string)
    (vnid : Z) (peer_mac : option string) (lnk : Z * string) :
  request_params cbt = PRemAct rem_act →
  action rem_act = "GNV_EXCHANGE_ENDPT" →
  response cbt = Some (mkResponse (PRemAct done) true) →
  parent cbt = Some parent_cbt →
  p_TunnelId (data done) = Some tnlid →
  p_VNId (data done) = Some vnid →
  p_MAC (data done) = Some peer_mac →
  p_EndPointAddress (data done) = Some endpnt_address →
  dict_get tnlid (_tunnels self) = Some tnl →
  get_tap_name config (recipient_id done) (overlay_id done) = Ok tap_name →
  netlink self !! tap_name = Some lnk →
  resp_handler_remote_action config node_id now cbt self =
    (Ok tt,
     mk (dict_set tnlid (Tunnel.with_peer_mac peer_mac tnl) (_tunnels self)) (netlink self)
        (outbox self ++
         [free_cbt_eff cbt;
          complete_cbt_eff
            (set_response
               (PText ("Failed to create Geneve tunnel " +:+ tnlid +:+ ". Error="
                       +:+ exn_str (NetlinkError tap_name))) false parent_cbt);
          submit_remote_act_eff
            (mkRemoteAction (overlay_id done) (recipient_id done) "GeneveTunnel"
               "GNV_CANCEL_TUNNEL"
               (mkParams (Some (overlay_id done)) (Some tnlid) None (Some node_id) None
                  (Some (Tunnel.mac tnl)) None None) no_params)
            None])).
Proof.
  intros Hreq Hact Hresp Hpar Htnlid Hvnid Hmac Hep Hget Htap Hlnk.
  unfold resp_handler_remote_action. run_handler.
  rewrite Hresp, Hreq. simpl. rewrite Hact. simpl.
  rewrite Htnlid; simpl. rewrite Hvnid; simpl. rewrite Hmac; simpl.
  run_primitives. rewrite Hget. simpl. rewrite Hep. simpl. rewrite Htap. simpl.
  destruct (bool_decide (0 ≤ vnid < 2 ^ 24)); simpl; rewrite ?Hlnk; simpl;
    rewrite Hpar; simpl; rewrite dict_get_set_eq; simpl; by rewrite <- !app_assoc.
Qed.



(** X28.  [GNV_EXCHANGE_ENDPT] for an [AUTHORIZED] tunnel with a VNId that
    does not fit in 24 bits.  A link of the tunnel's tap name that exists
    is removed first; then the kernel refuses the new link and the
    exception is caught: the handler returns, the record is removed, the
    request is completed with status false, and the kernel has no link of
    that name, neither the old nor a new one. *)
Theorem exchnge_endpt_vni_out_of_range (config : gmap string OverlayCfg)
    (node_id : string) (cbt : CBT) (self : t) (params : Params)
    (olid tnlid peer_id endpnt_address : string) (vnid : Z) (tnl : Tunnel.t) :
  request_params cbt = PDict params →
  p_OverlayId params = Some olid →
  p_TunnelId params = Some tnlid →
  p_VNId params = Some vnid →
  p_NodeId params = Some peer_id →
  p_EndPointAddress params = Some endpnt_address →
  NoDup (dict_keys (_tunnels self)) →
  dict_get tnlid (_tunnels self) = Some tnl →
  Tunnel.state tnl = AUTHORIZED →
  ¬ (0 ≤ vnid < 2 ^ 24) →
  ∃ self' msg,
    req_handler_exchnge_endpt config node_id cbt self = (Ok tt, self') ∧
    dict_get tnlid (_tunnels self') = None ∧
    netlink self' = delete (Tunnel.tap_name tnl) (netlink self) ∧
    netlink self' !! Tunnel.tap_name tnl = None ∧
    outbox self' = outbox self ++ [complete_cbt_eff (set_response (PText msg) false cbt)].
Proof.
  intros Hreq Holid Htnlid Hvnid Hpeer Hep Hnd Hget Hst Hvni.
  unfold req_handler_exchnge_endpt. run_handler.
  rewrite Hreq; simpl. rewrite Holid; simpl. rewrite Htnlid; simpl.
  rewrite Hvnid; simpl. rewrite Hpeer; simpl. rewrite Hep; simpl.
  run_primitives.
  rewrite Hget. simpl. rewrite Hget. simpl.
  rewrite bool_decide_eq_true_2 by done. simpl.
  rewrite (bool_decide_eq_false_2 (0 ≤ vnid < 2 ^ 24)) by done. simpl.
  destruct (netlink self !! Tunnel.tap_name tnl) as [lnk|] eqn:Hlnk.
  - rewrite bool_decide_eq_true_2 by eauto. simpl. rewrite Hget. simpl.
    eexists _, _. split_and!; [reflexivity|simpl..].
    + rewrite dict_pop_set. by apply dict_get_pop_eq.
    + done.
    + apply lookup_delete_eq.
    + done.
  - rewrite bool_decide_eq_false_2 by (by intros [? ?]). simpl. rewrite Hget. simpl.
    eexists _, _. split_and!; [reflexivity|simpl..].
    + rewrite dict_pop_set. by apply dict_get_pop_eq.
    + by rewrite delete_id.
    + done.
    + done.
Qed.


(** X15.  An invariant of the kernel-flavour manager.  Starting with an
    empty dictionary, after any sequence of requests, responses, aborts,
    expiries and terminations, in any order and whether the handlers return
    or raise: no tunnel id occurs twice, every record is filed under its own
    [tnlid], is a Geneve tunnel, and has the tap name that [get_tap_name]
    derives for its peer id and overlay id. *)
Theorem records_are_well_formed (config : gmap string OverlayCfg) (node_id : string)
    (GENEVE_SETUP_TIMEOUT : Z) (TNL_OFFLINE : TUNNEL_STATES) (logger_call : outcome unit)
    (ops : list operation) (kernel : gmap string (Z * string)) :
  let self' :=
    run config node_id GENEVE_SETUP_TIMEOUT TNL_OFFLINE logger_call ops (mk [] kernel []) in
  NoDup (dict_keys (_tunnels self')) ∧
  ∀ k tnl, dict_get k (_tunnels self') = Some tnl →
    Tunnel.tnlid tnl = k ∧
    get_tap_name config (Tunnel.peer_id tnl) (Tunnel.overlay_id tnl)
      = Ok (Tunnel.tap_name tnl) ∧
    Tunnel.dataplane tnl = Geneve.
Proof.
  intros self'.
  pose proof (run_filed_by_id config node_id GENEVE_SETUP_TIMEOUT TNL_OFFLINE logger_call
                ops (mk [] kernel []) filed_by_id_nil) as [Hnd Hid].
  pose proof (run_tap_derived config node_id GENEVE_SETUP_TIMEOUT TNL_OFFLINE logger_call
                ops (mk [] kernel []) (tap_derived_nil config)) as Htap.
  split; [done|]. intros k tnl Hin%dict_get_Some_elem.
  split; [by apply Hid|by eapply Htap].
Qed.


Module Example.
(** Node [nodeB] of overlay [ol001], whose peer [nodeA] initiates tunnel
    [T1]; and node [nodeA] seen from its own side. *)
Definition overlays : gmap string OverlayCfg :=
  {[ "ol001" := mkOverlayCfg None (Some "10.0.0.2") ]}.
Definition fresh : t := mk [] ∅ [].
Definition auth_params : Params :=
  mkParams (Some "ol001") (Some "T1") (Some "nodeA") None None None None None.
Definition exch_params : Params :=
  mkParams (Some "ol001") (Some "T1") None (Some "nodeA") (Some 42) None
    (Some "10.0.0.1") None.
Definition create_params : Params :=
  mkParams (Some "ol001") (Some "T1") (Some "nodeB") None (Some 42) None None None.
Definition request (tag : nat) (params : Params) : CBT := mkCBT tag (PDict params) None None.
(** The remote action sent to [nodeB] and the same action as [nodeB]
    completed it. *)
Definition sent (act : string) (params : Params) : RemoteAction :=
  mkRemoteAction "ol001" "nodeB" "GeneveTunnel" act params no_params.
Definition completed (act : string) (params data : Params) : RemoteAction :=
  mkRemoteAction "ol001" "nodeB" "GeneveTunnel" act params data.
Definition endpt_data : Params :=
  mkParams None (Some "T1") None (Some "nodeB") (Some 42) (Some (Some "aa:bb:cc:00:00:02"))
    (Some "10.0.0.3") (Some Geneve).
Definition answered (tag : nat) (act : string) (params data : Params) (parent_cbt : option CBT)
    : CBT :=
  mkCBT tag (PRemAct (sent act params))
    (Some (mkResponse (PRemAct (completed act params data)) true)) parent_cbt.
Definition online : Tunnel.t :=
  Tunnel.mk "T1" "ol001" "nodeA" ONLINE "ol001nodeA" Geneve None (Some "aa:bb:cc:00:00:01").
End Example.



Lemma remove_tunnel_known_witness :
  ∃ self',
    req_handler_remove_tunnel ∅
      (Example.request 4 (mkParams (Some "ol001") (Some "T1") (Some "nodeA") None None None
                            None None))
      (mk [("T1", Example.online)] {[ "ol001nodeA" := (42, "10.0.0.1") ]} [])
      = (Ok tt, self') ∧
    _tunnels self' = [] ∧
    netlink self' !! "ol001nodeA" = None ∧
    length (outbox self') = 2%nat.
Proof.
  destruct (remove_tunnel_known ∅
              (Example.request 4 (mkParams (Some "ol001") (Some "T1") (Some "nodeA") None None
                                    None None None))
              (mk [("T1", Example.online)] {[ "ol001nodeA" := (42, "10.0.0.1") ]} [])
              (mkParams (Some "ol001") (Some "T1") (Some "nodeA") None None None None None)
              "ol001" "nodeA" "T1" Example.online)
    as (self' & Hrun & Htun & _ & Hnl & Hout); try reflexivity.
  { unfold dict_keys. simpl. apply NoDup_singleton. }
  exists self'. split_and!; [done|by rewrite Htun|by rewrite Hnl|by rewrite Hout].
Defined.

Lemma auth_tunnel_duplicate_id_witness :
  let self := mk [("T1", Example.online)] {[ "ol001nodeA" := (42, "10.0.0.1") ]} [] in
  ∃ failed,
    req_handler_auth_tunnel Example.overlays 120 (Example.request 5 Example.auth_params) self
      = (Ok tt, mk (_tunnels self) (netlink self) [complete_cbt_eff failed]) ∧
    (r_status <$> response failed) = Some false.
Proof.
  intros self. eexists. split.
  - apply (auth_tunnel_duplicate_id Example.overlays 120 _ self Example.auth_params
             "ol001" "nodeA" "T1" Example.online); reflexivity.
  - reflexivity.
Defined.

Lemma auth_tunnel_unknown_overlay_witness :
  req_handler_auth_tunnel ∅ 120 (Example.request 5 Example.auth_params) Example.fresh
    = (Raise (KeyError "ol001"), Example.fresh).
Proof.
  by apply (auth_tunnel_unknown_overlay ∅ 120 _ Example.fresh Example.auth_params
              "ol001" "nodeA" "T1").
Defined.

Lemma resp_exchange_endpt_after_expiry_witness :
  let create := Example.request 1 Example.create_params in
  let r1 := Example.answered 2 "GNV_EXCHANGE_ENDPT" Example.exch_params Example.endpt_data
              (Some create) in
  ∃ failed,
    resp_handler_remote_action Example.overlays "nodeA" 100 r1 Example.fresh =
      (Raise (KeyError "T1"), mk [] ∅ [free_cbt_eff r1; complete_cbt_eff failed]) ∧
    (r_status <$> response failed) = Some false.
Proof.
  intros create r1. eexists. split.
  - apply (resp_exchange_endpt_after_expiry Example.overlays "nodeA" 100 r1 create
             Example.fresh (Example.sent "GNV_EXCHANGE_ENDPT" Example.exch_params)
             (Example.completed "GNV_EXCHANGE_ENDPT" Example.exch_params Example.endpt_data)
             "T1" 42 (Some "aa:bb:cc:00:00:02")); reflexivity.
  - reflexivity.
Defined.

Lemma resp_exchange_endpt_link_exists_witness :
  let create := Example.request 1 Example.create_params in
  let r1 := Example.answered 2 "GNV_EXCHANGE_ENDPT" Example.exch_params Example.endpt_data
              (Some create) in
  let creating := Tunnel.new "T1" "ol001" "nodeB" CREATING "ol001nodeB" Geneve in
  ∃ self',
    resp_handler_remote_action Example.overlays "nodeA" 100 r1
      (mk [("T1", creating)] {[ "ol001nodeB" := (7, "10.9.9.9") ]} []) = (Ok tt, self') ∧
    netlink self' = {[ "ol001nodeB" := (7, "10.9.9.9") ]} ∧
    (Tunnel.state <$> dict_get "T1" (_tunnels self')) = Some CREATING ∧
    last (outbox self') =
      Some (submit_remote_act_eff
              (Example.sent "GNV_CANCEL_TUNNEL"
                 (mkParams (Some "ol001") (Some "T1") None (Some "nodeA") None (Some None)
                    None None))
              None).
Proof.
  intros create r1 creating. eexists. split.
  - apply (resp_exchange_endpt_link_exists Example.overlays "nodeA" 100 r1 create _
             (Example.sent "GNV_EXCHANGE_ENDPT" Example.exch_params)
             (Example.completed "GNV_EXCHANGE_ENDPT" Example.exch_params Example.endpt_data)
             creating "T1" "ol001nodeB" "10.0.0.3" 42 (Some "aa:bb:cc:00:00:02")
             (7, "10.9.9.9")); reflexivity.
  - split_and!; reflexivity.
Defined.


Lemma exchnge_endpt_vni_out_of_range_witness :
  let authorized := Tunnel.new "T1" "ol001" "nodeA" AUTHORIZED "ol001nodeA" Geneve in
  let params := mkParams (Some "ol001") (Some "T1") None (Some "nodeA") (Some 16777216)
                  None (Some "10.0.0.1") None in
  ∃ self' failed,
    req_handler_exchnge_endpt Example.overlays "nodeB" (Example.request 2 params)
      (mk [("T1", authorized)] {[ "ol001nodeA" := (7, "10.0.0.9") ]} [])
      = (Ok tt, self') ∧
    _tunnels self' = [] ∧
    netlink self' !! "ol001nodeA" = None ∧
    outbox self' = [complete_cbt_eff failed] ∧
    (r_status <$> response failed) = Some false.
Proof.
  intros authorized params.
  destruct (exchnge_endpt_vni_out_of_range Example.overlays "nodeB"
              (Example.request 2 params)
              (mk [("T1", authorized)] {[ "ol001nodeA" := (7, "10.0.0.9") ]} [])
              params "ol001" "T1" "nodeA" "10.0.0.1" 16777216 authorized)
    as (self' & msg & Hrun & _ & _ & Hlnk & Hout); try reflexivity.
  { unfold dict_keys. simpl. apply NoDup_singleton. }
  { lia. }
  exists self'. eexists. split; [done|]. split_and!; [|done|exact Hout|reflexivity].
  vm_compute in Hrun. by injection Hrun as <-.
Defined.

End GeneveTunnel.

(** ** controllers/link_manager.py: class [LinkManager]

    The tunnel dictionary, the link index, the data-plane session id and
    what the module hands to the bus.  The dictionaries are only read and
    written by key here, so they are finite maps. *)

Module LinkManager.
Import Bus.

Record Link : Type := mkLink {
  lnkid : string;
  creation_state : Z;
  status_retry : Z;
  stats : option string;
}.

(** [Link(lnkid, state)] *)
Definition new_link (lnkid : string) (state : Z) : Link := mkLink lnkid state 0 None.

Definition link_with_stats (st : string) (l : Link) : Link :=
  mkLink (lnkid l) (creation_state l) (status_retry l) (Some st).
Definition link_with_status_retry (n : Z) (l : Link) : Link :=
  mkLink (lnkid l) (creation_state l) n (stats l).

Record Tunnel : Type := mkTunnel {
  tnlid : string;
  overlay_id : string;
  peer_id : string;
  tap_name : option string;
  mac : option string;
  fpr : option string;
  link : option Link;
  peer_mac : option string;
  tunnel_state : TUNNEL_STATES;
  dataplane : DATAPLANE_TYPES;
  dp_instance_id : Z;
}.

Definition with_tunnel_state (st : TUNNEL_STATES) (tnl : Tunnel) : Tunnel :=
  mkTunnel (tnlid tnl) (overlay_id tnl) (peer_id tnl) (tap_name tnl) (mac tnl)
    (fpr tnl) (link tnl) (peer_mac tnl) st (dataplane tnl) (dp_instance_id tnl).
Definition with_link (l : option Link) (tnl : Tunnel) : Tunnel :=
  mkTunnel (tnlid tnl) (overlay_id tnl) (peer_id tnl) (tap_name tnl) (mac tnl)
    (fpr tnl) l (peer_mac tnl) (tunnel_state tnl) (dataplane tnl) (dp_instance_id tnl).

Inductive effect : Type :=
| complete_cbt_eff (cbt : CBT)
| free_cbt_eff (cbt : CBT)
| post_update_eff (param : Update)
| register_cbt_eff (recipient action : string) (params : payload) (parent_cbt : option CBT).

Record t : Type := mk {
  _tunnels : gmap string Tunnel;
  _links : gmap string string;
  _tc_session_id : Z;
  outbox : list effect;
}.

Definition TAPNAME_MAXLEN : Z := 15.

Definition emit (e : effect) : M t unit :=
  modify (λ self, mk (_tunnels self) (_links self) (_tc_session_id self) (outbox self ++ [e])).
Definition complete_cbt (cbt : CBT) : M t unit := emit (complete_cbt_eff cbt).
Definition free_cbt (cbt : CBT) : M t unit := emit (free_cbt_eff cbt).
Definition post_update (param : Update) : M t unit := emit (post_update_eff param).
Definition register_cbt (recipient action : string) (params : payload)
    (parent_cbt : option CBT) : M t unit :=
  emit (register_cbt_eff recipient action params parent_cbt).

Definition set_tunnels (f : gmap string Tunnel → gmap string Tunnel) : M t unit :=
  modify (λ self, mk (f (_tunnels self)) (_links self) (_tc_session_id self) (outbox self)).
Definition set_links (f : gmap string string → gmap string string) : M t unit :=
  modify (λ self, mk (_tunnels self) (f (_links self)) (_tc_session_id self) (outbox self)).

(** The setter of the property [tc_session_id]. *)
Definition set_tc_session_id (val : Z) : M t unit :=
  modify (λ self, mk (_tunnels self) (_links self) val (outbox self)).

Definition link_id (tnlid : string) : M t (option string) :=
  gets (λ self,
    match _tunnels self !! tnlid with
    | Some tnl => lnkid <$> link tnl
    | None => None
    end).

Definition tunnel_id (lnkid : string) : M t (option string) :=
  gets (λ self, _links self !! lnkid).

Definition _gen_tap_name (config : gmap string OverlayCfg) (overlay_id peer_id : string)
    : outcome string :=
  match config !! overlay_id with
  | None => Raise (KeyError overlay_id)
  | Some ol_cfg =>
      let tap_name_prefix := default (slice_to overlay_id 5) (TapNamePrefix ol_cfg) in
      let end_i := TAPNAME_MAXLEN - str_len tap_name_prefix in
      let tap_name := tap_name_prefix +:+ slice_to peer_id end_i in
      Ok tap_name
  end.

(** [resp_data and "CurrentId" in resp_data], then
    [resp_data["CurrentId"]]: for a text, [in] is the substring test and
    the subscript is a type error. *)
Definition current_id_of (resp_data : payload) : outcome (option Z) :=
  match resp_data with
  | PLinkStats (Some id) _ => Ok (Some id)
  | PText s =>
      match String.index 0 "CurrentId" s with
      | Some _ => Raise (TypeError "string indices must be integers")
      | None => Ok None
      end
  | _ => Ok None
  end.

Definition adopt_current_id (resp_data : payload) : M t unit :=
  cur ← lift (current_id_of resp_data);
  match cur with
  | Some id => set_tc_session_id id
  | None => mret tt
  end.

(** [tnl.link.<attr>] on the tunnel's link, which may be [None]. *)
Definition link_of (tnl : Tunnel) (attr : string) : M t Link :=
  match link tnl with
  | Some l => mret l
  | None => raise (AttributeError ("'NoneType' object has no attribute '" +:+ attr +:+ "'"))
  end.

(** The body of the two loops of [resp_handler_query_link_stats]: one
    entry [resp_data[tnlid][lnkid]]. *)
Definition handle_link_stat (tnlid lnkid : string) (entry : LinkStat) : M t unit :=
  if decide (Status entry = "UNKNOWN") then
    set_tunnels (delete tnlid)
  else
    tunnels ← gets _tunnels;
    match tunnels !! tnlid with
    | None => mret tt
    | Some tnl =>
        if decide (Status entry = "OFFLINE") then
          l ← link_of tnl "status_retry";
          let retry := status_retry l in
          if decide (retry >= 2 ∧ tunnel_state tnl = CREATING) then
            let olid := overlay_id tnl in
            let peer_id := peer_id tnl in
            tc ← gets _tc_session_id;
            let params := mkTciParams olid tnlid (Some lnkid) peer_id (tap_name tnl) tc in
            register_cbt "TincanTunnel" "TCI_REMOVE_TUNNEL" (PTci params) None
          else if decide (tunnel_state tnl = QUERYING ∨
                          (retry >= 1 ∧ tunnel_state tnl = ONLINE)) then
            set_tunnels (<[tnlid := with_tunnel_state OFFLINE tnl]>);;
            let olid := overlay_id tnl in
            let peer_id := peer_id tnl in
            post_update (mkUpdate Disconnected olid peer_id tnlid (Some lnkid)
                           (tap_name tnl) None None None None)
          else
            mret tt
        else if decide (Status entry = "ONLINE") then
          set_tunnels (<[tnlid := with_tunnel_state ONLINE tnl]>);;
          new_stats ← getitem "Stats" (Stats entry);
          l ← link_of tnl "stats";
          set_tunnels (<[tnlid := with_link
                                    (Some (link_with_status_retry 0
                                             (link_with_stats new_stats l)))
                                    (with_tunnel_state ONLINE tnl)]>)
        else
          mret tt
    end.

Definition resp_handler_query_link_stats (cbt : CBT) : M t unit :=
  resp ← response_of cbt;
  let resp_data := r_data resp in
  if negb (r_status resp) then
    free_cbt cbt;;
    adopt_current_id resp_data
  else
    match resp_data with
    | PLinkStats _ entries =>
        for_each entries (λ by_tunnel,
          for_each by_tunnel.2 (λ by_link,
            handle_link_stat by_tunnel.1 by_link.1 by_link.2))
    | _ => raise (TypeError "response data is not a dict of link statistics")
    end;;
    free_cbt cbt.

Definition req_handler_remove_tnl (cbt : CBT) : M t unit :=
  try_except
    (params ← request_dict cbt;
     olid ← getitem "OverlayId" (p_OverlayId params);
     peer_id ← getitem "PeerId" (p_PeerId params);
     tnlid ← getitem "TunnelId" (p_TunnelId params);
     tunnels ← gets _tunnels;
     match tunnels !! tnlid with
     | None => complete_cbt (set_response (PText "No record") true cbt)
     | Some tnl =>
         if decide (tunnel_state tnl = AUTHORIZED ∨ tunnel_state tnl = ONLINE ∨
                    tunnel_state tnl = OFFLINE) then
           let tn := tap_name tnl in
           tc ← gets _tc_session_id;
           let params := mkTciParams olid tnlid None peer_id tn tc in
           register_cbt "TincanTunnel" "TCI_REMOVE_TUNNEL" (PTci params) (Some cbt)
         else
           complete_cbt (set_response (PText "Tunnel busy, retry operation") false cbt)
     end)
    (λ err,
     match err with
     | KeyError _ =>
         complete_cbt (set_response (PText ("Insufficient parameters " +:+ exn_str err))
                         false cbt)
     | _ => raise err
     end).

Definition resp_handler_remove_tunnel (rmv_tnl_cbt : CBT) : M t unit :=
  let parent_cbt := parent rmv_tnl_cbt in
  params ← match request_params rmv_tnl_cbt with
           | PTci p => mret p
           | _ => raise (TypeError "request params is not a dict")
           end;
  let tnlid := tci_TunnelId params in
  lnkid ← link_id tnlid;
  let peer_id := tci_PeerId params in
  let olid := tci_OverlayId params in
  let tap_name := tci_TapName params in
  resp ← response_of rmv_tnl_cbt;
  adopt_current_id (r_data resp);;
  set_tunnels (delete tnlid);;
  match lnkid with
  | Some lnkid => set_links (delete lnkid)
  | None => mret tt
  end;;
  free_cbt rmv_tnl_cbt;;
  match parent_cbt with
  | Some parent_cbt => complete_cbt (set_response (PText "Tunnel removed") true parent_cbt)
  | None => mret tt
  end;;
  post_update (mkUpdate Removed olid peer_id tnlid lnkid tap_name None None None None).

(** *** Properties *)

Ltac run_handler :=
  unfold mbind, M_bind, mret, M_ret, raise, gets, modify, lift, getitem,
    request_dict, as_rem_act, response_of, try_except, try_finally,
    with_locals, on_self, assign, local; simpl.

(** C5 (amended).  For a [QueryLinkStats] entry with status [OFFLINE] for
    a tunnel that is in the dictionary and has a link: if
    [status_retry >= 2] and the state is [CREATING], a [TCI_REMOVE_TUNNEL]
    request is issued to the data plane; if the state is [QUERYING], or
    [status_retry >= 1] and the state is [ONLINE], the state becomes
    [OFFLINE] and a [Disconnected] update is published; in every other case
    nothing changes: [status_retry] stays as it is and no request, hence
    no further statistics query, is issued. *)
Theorem offline_link_stat (self : t) (tnlid lnkid : string) (entry : LinkStat)
    (tnl : Tunnel) (l : Link) :
  Status entry = "OFFLINE" →
  _tunnels self !! tnlid = Some tnl →
  link tnl = Some l →
  (status_retry l >= 2 ∧ tunnel_state tnl = CREATING →
     handle_link_stat tnlid lnkid entry self =
       (Ok tt,
        mk (_tunnels self) (_links self) (_tc_session_id self)
           (outbox self ++
            [register_cbt_eff "TincanTunnel" "TCI_REMOVE_TUNNEL"
               (PTci (mkTciParams (overlay_id tnl) tnlid (Some lnkid) (peer_id tnl)
                        (tap_name tnl) (_tc_session_id self))) None]))) ∧
  (tunnel_state tnl = QUERYING ∨ (status_retry l >= 1 ∧ tunnel_state tnl = ONLINE) →
     handle_link_stat tnlid lnkid entry self =
       (Ok tt,
        mk (<[tnlid := with_tunnel_state OFFLINE tnl]> (_tunnels self)) (_links self)
           (_tc_session_id self)
           (outbox self ++
            [post_update_eff
               (mkUpdate Disconnected (overlay_id tnl) (peer_id tnl) tnlid (Some lnkid)
                  (tap_name tnl) None None None None)]))) ∧
  (¬ (status_retry l >= 2 ∧ tunnel_state tnl = CREATING) →
   ¬ (tunnel_state tnl = QUERYING ∨ (status_retry l >= 1 ∧ tunnel_state tnl = ONLINE)) →
     handle_link_stat tnlid lnkid entry self = (Ok tt, self)).
Proof.
  intros Hst Hget Hlink. unfold handle_link_stat.
  rewrite Hst. rewrite (decide_False (P := "OFFLINE" = "UNKNOWN")) by done.
  unfold link_of. run_handler. rewrite Hget. simpl. rewrite Hlink.
  split_and!.
  - intros Hc. rewrite decide_True by done. reflexivity.
  - intros Hq. rewrite decide_False by (intros [? Hcr]; rewrite Hcr in Hq; naive_solver).
    rewrite decide_True by done. reflexivity.
  - intros Hn1 Hn2. rewrite !decide_False by done. reflexivity.
Qed.

Module Example.
(** A tunnel whose handshake has completed, with its link. *)
Definition up (st : TUNNEL_STATES) (retry : Z) : Tunnel :=
  mkTunnel "T1" "ol001" "peerA" (Some "ol001peerA") (Some "aa:bb:cc:00:00:01") None
    (Some (mkLink "T1" 0xC0 retry None)) (Some "aa:bb:cc:00:00:02") st Tincan 1.
Definition manager (st : TUNNEL_STATES) (retry : Z) : t :=
  mk {[ "T1" := up st retry ]} {[ "T1" := "T1" ]} 1 [].
(** The data plane answers a statistics query: link [T1] is [OFFLINE]. *)
Definition offline_reply : CBT :=
  mkCBT 9 (PTunnelIds ["T1"])
    (Some (mkResponse (PLinkStats None [("T1", [("T1", mkLinkStat "OFFLINE" None)])]) true))
    None.
End Example.

Lemma offline_link_stat_witness :
  handle_link_stat "T1" "T1" (mkLinkStat "OFFLINE" None) (Example.manager CREATING 2) =
    (Ok tt,
     mk {[ "T1" := Example.up CREATING 2 ]} {[ "T1" := "T1" ]} 1
        [register_cbt_eff "TincanTunnel" "TCI_REMOVE_TUNNEL"
           (PTci (mkTciParams "ol001" "T1" (Some "T1") "peerA" (Some "ol001peerA") 1)) None]) ∧
  handle_link_stat "T1" "T1" (mkLinkStat "OFFLINE" None) (Example.manager QUERYING 0) =
    (Ok tt,
     mk (<[ "T1" := Example.up OFFLINE 0 ]> {[ "T1" := Example.up QUERYING 0 ]})
        {[ "T1" := "T1" ]} 1
        [post_update_eff (mkUpdate Disconnected "ol001" "peerA" "T1" (Some "T1")
                            (Some "ol001peerA") None None None None)]) ∧
  handle_link_stat "T1" "T1" (mkLinkStat "OFFLINE" None) (Example.manager ONLINE 0) =
    (Ok tt, Example.manager ONLINE 0).
Proof.
  split_and!.
  - apply (offline_link_stat (Example.manager CREATING 2) "T1" "T1" _
             (Example.up CREATING 2) (mkLink "T1" 0xC0 2 None)); [done..|].
    simpl. split; [lia|done].
  - apply (offline_link_stat (Example.manager QUERYING 0) "T1" "T1" _
             (Example.up QUERYING 0) (mkLink "T1" 0xC0 0 None)); [done..|].
    by left.
  - apply (offline_link_stat (Example.manager ONLINE 0) "T1" "T1" _
             (Example.up ONLINE 0) (mkLink "T1" 0xC0 0 None)); [done..| |].
    + simpl. intros [_ ?]. done.
    + simpl. intros [?|[? _]]; [done|lia].
Defined.

(** C5 as worded fails: an [OFFLINE] entry for an [ONLINE] tunnel whose
    [status_retry] is 0 does not increment [status_retry]. *)
Lemma status_retry_is_not_incremented :
  ¬ ∃ self' tnl' l',
      resp_handler_query_link_stats Example.offline_reply (Example.manager ONLINE 0)
        = (Ok tt, self') ∧
      _tunnels self' !! "T1" = Some tnl' ∧
      link tnl' = Some l' ∧
      status_retry l' = 1.
Proof.
  intros (self' & tnl' & l' & Hrun & Hget & Hlink & Hretry).
  vm_compute in Hrun. injection Hrun as <-.
  vm_compute in Hget. injection Hget as <-.
  injection Hlink as <-. discriminate.
Qed.

(** C1 as worded fails for the NAT-traversing manager: after the
    statistics response reporting [OFFLINE] for a [QUERYING] tunnel has
    been handled, that tunnel is in the dictionary in state [OFFLINE]. *)
Lemma offline_tunnel_stays_in_map :
  ¬ ∀ self',
      resp_handler_query_link_stats Example.offline_reply (Example.manager QUERYING 0)
        = (Ok tt, self') →
      ∀ k tnl, _tunnels self' !! k = Some tnl → tunnel_state tnl ≠ OFFLINE.
Proof.
  intros Hclaim.
  apply (Hclaim _ eq_refl "T1" (Example.up OFFLINE 0)); [|done].
  vm_compute. reflexivity.
Qed.

(** The explicit removal that takes an [OFFLINE] tunnel out of the
    dictionary: [LNK_REMOVE_TUNNEL] accepts it and asks the data plane to
    remove the tunnel, and the handler of the data plane's reply drops the
    record. *)
Lemma remove_tnl_accepts_offline (self : t) (cbt : CBT) (params : Params)
    (olid peer_id tnlid : string) (tnl : Tunnel) :
  request_params cbt = PDict params →
  p_OverlayId params = Some olid →
  p_PeerId params = Some peer_id →
  p_TunnelId params = Some tnlid →
  _tunnels self !! tnlid = Some tnl →
  tunnel_state tnl = OFFLINE →
  req_handler_remove_tnl cbt self =
    (Ok tt,
     mk (_tunnels self) (_links self) (_tc_session_id self)
        (outbox self ++
         [register_cbt_eff "TincanTunnel" "TCI_REMOVE_TUNNEL"
            (PTci (mkTciParams olid tnlid None peer_id (tap_name tnl) (_tc_session_id self)))
            (Some cbt)])).
Proof.
  intros Hreq Holid Hpeer Htnlid Hget Hst.
  unfold req_handler_remove_tnl. run_handler.
  rewrite Hreq; simpl. rewrite Holid; simpl. rewrite Hpeer; simpl.
  rewrite Htnlid; simpl. rewrite Hget.
  rewrite decide_True by auto. reflexivity.
Qed.

Lemma resp_remove_tunnel_drops_record (self : t) (cbt : CBT) (params : TciParams)
    (resp : Response) (cur : option Z) :
  request_params cbt = PTci params →
  response cbt = Some resp →
  current_id_of (r_data resp) = Ok cur →
  ∃ self',
    resp_handler_remove_tunnel cbt self = (Ok tt, self') ∧
    _tunnels self' = delete (tci_TunnelId params) (_tunnels self) ∧
    _tunnels self' !! tci_TunnelId params = None.
Proof.
  intros Hreq Hresp Hcur.
  unfold resp_handler_remove_tunnel, link_id, adopt_current_id. run_handler.
  rewrite Hreq; simpl. rewrite Hresp; simpl. rewrite Hcur. simpl.
  destruct cur as [id|]; simpl;
    destruct (_tunnels self !! tci_TunnelId params) as [tnl|]; simpl;
    try destruct (link tnl); simpl; destruct (parent cbt); simpl;
    (eexists; split_and!; [reflexivity|done|apply lookup_delete_eq]).
Qed.

(** *** The paths that give a tunnel up *)

(** [_assign_link_to_tunnel]: the link index gets its entry whether or
    not the tunnel is in the dictionary. *)
Definition _assign_link_to_tunnel (tnlid lnkid : string) (state : Z) : M t unit :=
  tunnels ← gets _tunnels;
  match tunnels !! tnlid with
  | Some tnl => set_tunnels (<[tnlid := with_link (Some (new_link lnkid state)) tnl]>)
  | None => mret tt
  end;;
  set_links (<[lnkid := tnlid]>).

(** [_cleanup_failed_tunnel_data(tnl)], where [tnl] may be [None].
    [self._links.pop(lnkid, None)] with [lnkid] being [None] removes
    nothing. *)
Definition _cleanup_failed_tunnel_data (tnl : option Tunnel) : M t unit :=
  match tnl with
  | Some tnl =>
      set_tunnels (delete (tnlid tnl));;
      lnkid ← link_id (tnlid tnl);
      match lnkid with
      | Some lnkid => set_links (delete lnkid)
      | None => mret tt
      end
  | None => mret tt
  end.

Definition on_tnl_timeout (tnl : Tunnel) (timeout : Z) : M t unit :=
  _cleanup_failed_tunnel_data (Some tnl).

(** [cbt.request.params.params["TunnelId"]] for a RemoteAction and
    [cbt.request.params["TunnelId"]] otherwise.  The dictionary of link
    statistics is keyed by tunnel ids and ["CurrentId"]: the subscript
    raises [KeyError] unless a tunnel is called ["TunnelId"], and then its
    value, a dictionary, cannot be the key of [self._tunnels.get]. *)
Definition abort_handler_tunnel (cbt : CBT) : M t unit :=
  tnlid ← match request_params cbt with
          | PRemAct ra => getitem "TunnelId" (p_TunnelId (params ra))
          | PDict p => getitem "TunnelId" (p_TunnelId p)
          | PTci p => mret (tci_TunnelId p)
          | PLinkStats _ stats =>
              if bool_decide ("TunnelId" ∈ stats.*1)
              then raise (TypeError "unhashable type: 'dict'")
              else raise (KeyError "TunnelId")
          | PTunnelIds _ => raise (TypeError "list indices must be integers or slices, not str")
          | PText _ => raise (TypeError "string indices must be integers")
          | PNone => raise (TypeError "'NoneType' object is not subscriptable")
          end;
  tunnels ← gets _tunnels;
  let tnl := tunnels !! tnlid in
  _cleanup_failed_tunnel_data tnl.

Definition _deauth_tnl (tnlid : string) : M t unit :=
  tunnels ← gets _tunnels;
  match tunnels !! tnlid with
  | None => mret tt
  | Some tnl =>
      let param := mkUpdate AuthExpired (overlay_id tnl) (peer_id tnl) tnlid None
                     (tap_name tnl) None None None None in
      post_update param;;
      _cleanup_failed_tunnel_data (Some tnl)
  end.

(** [_rollback_link_creation_changes]: the request to the data plane has
    no parent.  ["LinkId"] is [self.link_id(tnlid)]. *)
Definition _rollback_link_creation_changes (tnlid : string) : M t unit :=
  tunnels ← gets _tunnels;
  match tunnels !! tnlid with
  | None => mret tt
  | Some tnl =>
      match link tnl with
      | Some l =>
          let creation_state := creation_state l in
          (if decide (creation_state < 0xC0) then
             let olid := overlay_id tnl in
             let peer_id := peer_id tnl in
             lnkid ← link_id tnlid;
             tc ← gets _tc_session_id;
             let params := mkTciParams olid tnlid lnkid peer_id (tap_name tnl) tc in
             register_cbt "TincanTunnel" "TCI_REMOVE_TUNNEL" (PTci params) None
           else mret tt);;
          _cleanup_failed_tunnel_data (Some tnl)
      | None => mret tt
      end
  end.

Ltac run_link_manager :=
  unfold _rollback_link_creation_changes, _deauth_tnl, abort_handler_tunnel,
    on_tnl_timeout, _cleanup_failed_tunnel_data, _assign_link_to_tunnel,
    resp_handler_remove_tunnel, req_handler_remove_tnl, adopt_current_id,
    link_id, tunnel_id, set_tunnels, set_links, set_tc_session_id,
    register_cbt, post_update, complete_cbt, free_cbt, emit;
  run_handler.

(** The clean-up shared by every path that gives a tunnel up: the record
    filed under the tunnel's id goes, the link index stays as it is. *)
Lemma cleanup_failed_tunnel_data_Some (self : t) (tnl : Tunnel) :
  _cleanup_failed_tunnel_data (Some tnl) self =
    (Ok tt, mk (delete (tnlid tnl) (_tunnels self)) (_links self)
               (_tc_session_id self) (outbox self)).
Proof. run_link_manager. by rewrite lookup_delete_eq. Qed.

(** X16.  Rolling back a link never clears the link index.  For a tunnel
    filed under its own id, [_assign_link_to_tunnel] followed by
    [_rollback_link_creation_changes] returns: the tunnel's record is gone,
    a [TCI_REMOVE_TUNNEL] request with no parent went to the data plane
    exactly if the creation state is below [0xC0], and the index entry of
    the link is still there.  The handler of the data plane's reply to that
    request does not clear it either: the entry still names the removed
    tunnel, and the [Removed] update that is published carries no link id. *)
Theorem rollback_leaves_link_index_entry (self : t) (tnlid lnkid : string) (state : Z)
    (tnl : Tunnel) :
  _tunnels self !! tnlid = Some tnl →
  LinkManager.tnlid tnl = tnlid →
  let request :=
    PTci (mkTciParams (overlay_id tnl) tnlid (Some lnkid) (peer_id tnl) (tap_name tnl)
            (_tc_session_id self)) in
  ∃ s1,
    (_assign_link_to_tunnel tnlid lnkid state;;
     _rollback_link_creation_changes tnlid) self = (Ok tt, s1) ∧
    _tunnels s1 = delete tnlid (_tunnels self) ∧
    _links s1 = <[lnkid := tnlid]> (_links self) ∧
    outbox s1 = outbox self ++
      (if decide (state < 0xC0)
       then [register_cbt_eff "TincanTunnel" "TCI_REMOVE_TUNNEL" request None]
       else []) ∧
    ∀ (n : nat) (resp : Response) (cur : option Z),
      current_id_of (r_data resp) = Ok cur →
      ∃ s2,
        resp_handler_remove_tunnel (mkCBT n request (Some resp) None) s1 = (Ok tt, s2) ∧
        _tunnels s2 = _tunnels s1 ∧
        _links s2 = _links s1 ∧
        tunnel_id lnkid s2 = (Ok (Some tnlid), s2) ∧
        link_id tnlid s2 = (Ok None, s2) ∧
        outbox s2 = outbox s1 ++
          [free_cbt_eff (mkCBT n request (Some resp) None);
           post_update_eff (mkUpdate Removed (overlay_id tnl) (peer_id tnl) tnlid None
                              (tap_name tnl) None None None None)].
Proof.
  intros Hget Hid request.
  set (sent := if decide (state < 0xC0)
               then [register_cbt_eff "TincanTunnel" "TCI_REMOVE_TUNNEL" request None]
               else []).
  set (s1 := mk (delete tnlid (_tunnels self)) (<[lnkid := tnlid]> (_links self))
                (_tc_session_id self) (outbox self ++ sent)).
  assert ((_assign_link_to_tunnel tnlid lnkid state;;
           _rollback_link_creation_changes tnlid) self = (Ok tt, s1)) as Hs1.
  { run_link_manager. rewrite Hget. simpl. rewrite lookup_insert_eq. simpl.
    rewrite Hid. unfold s1, sent, request.
    case_decide; simpl; rewrite ?lookup_insert_eq; simpl;
      rewrite lookup_delete_eq, delete_insert_eq, ?app_nil_r; reflexivity. }
  exists s1.
  split; [exact Hs1|]. split; [done|]. split; [done|]. split; [done|].
  intros n resp cur Hcur.
  exists (mk (_tunnels s1) (_links s1) (default (_tc_session_id self) cur)
             (outbox s1 ++
              [free_cbt_eff (mkCBT n request (Some resp) None);
               post_update_eff (mkUpdate Removed (overlay_id tnl) (peer_id tnl) tnlid None
                                  (tap_name tnl) None None None None)])).
  split.
  { run_link_manager. rewrite Hcur. simpl. rewrite lookup_delete_eq.
    destruct cur; simpl; rewrite delete_delete_eq, <- !app_assoc; reflexivity. }
  split; [done|]. split; [done|].
  split; [run_link_manager; by rewrite lookup_insert_eq|].
  split; [run_link_manager; by rewrite lookup_delete_eq|done].
Qed.

(** X17.  For a tunnel with a link, filed under its own id and indexed under
    its link id: the expiry of its timed transaction, the abort of a request
    to the data plane or of a remote action for it, and its deauthorization
    all return and remove the record of the tunnel but not the index entry
    of its link, which then names a tunnel that [link_id] no longer knows.
    Only the deauthorization publishes an update ([AuthExpired]). *)
Theorem expiry_abort_and_deauth_keep_link_index (self : t) (tnl : Tunnel) (l : Link)
    (timeout : Z) (cbt rem_cbt : CBT) (p : TciParams) (ra : RemoteAction) :
  _tunnels self !! tnlid tnl = Some tnl →
  link tnl = Some l →
  _links self !! lnkid l = Some (tnlid tnl) →
  request_params cbt = PTci p →
  tci_TunnelId p = tnlid tnl →
  request_params rem_cbt = PRemAct ra →
  p_TunnelId (params ra) = Some (tnlid tnl) →
  let gone := mk (delete (tnlid tnl) (_tunnels self)) (_links self) (_tc_session_id self) in
  on_tnl_timeout tnl timeout self = (Ok tt, gone (outbox self)) ∧
  abort_handler_tunnel cbt self = (Ok tt, gone (outbox self)) ∧
  abort_handler_tunnel rem_cbt self = (Ok tt, gone (outbox self)) ∧
  _deauth_tnl (tnlid tnl) self =
    (Ok tt, gone (outbox self ++
                  [post_update_eff (mkUpdate AuthExpired (overlay_id tnl) (peer_id tnl)
                                      (tnlid tnl) None (tap_name tnl) None None None None)])) ∧
  ∀ out,
    link_id (tnlid tnl) (gone out) = (Ok None, gone out) ∧
    tunnel_id (lnkid l) (gone out) = (Ok (Some (tnlid tnl)), gone out).
Proof.
  intros Hget Hlink Hidx Hreq Hp Hrem Hra gone.
  split_and!.
  - apply cleanup_failed_tunnel_data_Some.
  - unfold abort_handler_tunnel. run_handler. rewrite Hreq. simpl. rewrite Hp, Hget.
    apply cleanup_failed_tunnel_data_Some.
  - unfold abort_handler_tunnel. run_handler. rewrite Hrem. simpl. rewrite Hra. simpl.
    rewrite Hget. apply cleanup_failed_tunnel_data_Some.
  - run_link_manager. rewrite Hget. simpl. by rewrite lookup_delete_eq.
  - intros out. split; run_link_manager; [by rewrite lookup_delete_eq|by rewrite Hidx].
Qed.

(** X18.  The explicit removal, end to end.  [LNK_REMOVE_TUNNEL] for a
    tunnel that has a link and is [AUTHORIZED], [ONLINE] or [OFFLINE]
    changes neither table and asks the data plane to remove the tunnel, with
    the request as parent; the handler of the reply then removes the record
    and the index entry of its link, frees the reply, completes the request
    with status true and publishes one [Removed] update with the link id, in
    this order. *)
Theorem remove_tunnel_round_trip (self : t) (cbt : CBT) (prm : Params)
    (olid peer tnlid : string) (tnl : Tunnel) (l : Link) (n : nat) (resp : Response)
    (cur : option Z) :
  request_params cbt = PDict prm →
  p_OverlayId prm = Some olid →
  p_PeerId prm = Some peer →
  p_TunnelId prm = Some tnlid →
  _tunnels self !! tnlid = Some tnl →
  link tnl = Some l →
  tunnel_state tnl = AUTHORIZED ∨ tunnel_state tnl = ONLINE ∨ tunnel_state tnl = OFFLINE →
  current_id_of (r_data resp) = Ok cur →
  let request :=
    PTci (mkTciParams olid tnlid None peer (tap_name tnl) (_tc_session_id self)) in
  let reply := mkCBT n request (Some resp) (Some cbt) in
  ∃ s1 s2,
    req_handler_remove_tnl cbt self = (Ok tt, s1) ∧
    _tunnels s1 = _tunnels self ∧
    _links s1 = _links self ∧
    outbox s1 = outbox self ++
      [register_cbt_eff "TincanTunnel" "TCI_REMOVE_TUNNEL" request (Some cbt)] ∧
    resp_handler_remove_tunnel reply s1 = (Ok tt, s2) ∧
    _tunnels s2 = delete tnlid (_tunnels self) ∧
    _links s2 = delete (lnkid l) (_links self) ∧
    tunnel_id (lnkid l) s2 = (Ok None, s2) ∧
    link_id tnlid s2 = (Ok None, s2) ∧
    outbox s2 = outbox s1 ++
      [free_cbt_eff reply;
       complete_cbt_eff (set_response (PText "Tunnel removed") true cbt);
       post_update_eff (mkUpdate Removed olid peer tnlid (Some (lnkid l)) (tap_name tnl)
                          None None None None)].
Proof.
  intros Hreq Holid Hpeer Htnlid Hget Hlink Hst Hcur request reply.
  set (s1 := mk (_tunnels self) (_links self) (_tc_session_id self)
                (outbox self ++
                 [register_cbt_eff "TincanTunnel" "TCI_REMOVE_TUNNEL" request (Some cbt)])).
  exists s1.
  exists (mk (delete tnlid (_tunnels self)) (delete (lnkid l) (_links self))
             (default (_tc_session_id self) cur)
             (outbox s1 ++
              [free_cbt_eff reply;
               complete_cbt_eff (set_response (PText "Tunnel removed") true cbt);
               post_update_eff (mkUpdate Removed olid peer tnlid (Some (lnkid l))
                                  (tap_name tnl) None None None None)])).
  split.
  { run_link_manager. rewrite Hreq; simpl. rewrite Holid; simpl. rewrite Hpeer; simpl.
    rewrite Htnlid; simpl. rewrite Hget. rewrite decide_True by done. reflexivity. }
  split; [done|]. split; [done|]. split; [done|]. split.
  { run_link_manager. rewrite Hget. simpl. rewrite Hlink. simpl. rewrite Hcur. simpl.
    destruct cur; simpl; rewrite <- !app_assoc; reflexivity. }
  split; [done|]. split; [done|].
  split; [run_link_manager; by rewrite lookup_delete_eq|].
  split; [run_link_manager; by rewrite lookup_delete_eq|done].
Qed.

Lemma rollback_leaves_link_index_entry_witness :
  ∃ s1,
    (_assign_link_to_tunnel "T1" "T1" 0xA1;;
     _rollback_link_creation_changes "T1") (Example.manager CREATING 0) = (Ok tt, s1) ∧
    _tunnels s1 !! "T1" = None ∧
    _links s1 !! "T1" = Some "T1" ∧
    outbox s1 =
      [register_cbt_eff "TincanTunnel" "TCI_REMOVE_TUNNEL"
         (PTci (mkTciParams "ol001" "T1" (Some "T1") "peerA" (Some "ol001peerA") 1)) None].
Proof.
  destruct (rollback_leaves_link_index_entry (Example.manager CREATING 0) "T1" "T1" 0xA1
              (Example.up CREATING 0) eq_refl eq_refl)
    as (s1 & Hrun & Htnl & Hlnk & Hout & _).
  exists s1. split; [exact Hrun|]. rewrite Htnl, Hlnk, Hout.
  split; [apply lookup_delete_eq|]. split; [apply lookup_insert_eq|reflexivity].
Defined.

Lemma expiry_abort_and_deauth_keep_link_index_witness :
  let self := Example.manager AUTHORIZED 0 in
  let tnl := Example.up AUTHORIZED 0 in
  let aborted :=
    mkCBT 5 (PTci (mkTciParams "ol001" "T1" (Some "T1") "peerA" (Some "ol001peerA") 1))
      None None in
  let gone := mk (delete "T1" (_tunnels self)) (_links self) 1 in
  on_tnl_timeout tnl 180 self = (Ok tt, gone []) ∧
  abort_handler_tunnel aborted self = (Ok tt, gone []) ∧
  tunnel_id "T1" (gone []) = (Ok (Some "T1"), gone []).
Proof.
  intros self tnl aborted gone.
  destruct (expiry_abort_and_deauth_keep_link_index self tnl (mkLink "T1" 0xC0 0 None) 180
              aborted
              (mkCBT 6
                 (PRemAct (mkRemoteAction "ol001" "peerA" "LinkManager" "LNK_REQ_LINK_ENDPT"
                             (mkParams (Some "ol001") (Some "T1") None None None None None None)
                             no_params))
                 None None)
              (mkTciParams "ol001" "T1" (Some "T1") "peerA" (Some "ol001peerA") 1)
              (mkRemoteAction "ol001" "peerA" "LinkManager" "LNK_REQ_LINK_ENDPT"
                 (mkParams (Some "ol001") (Some "T1") None None None None None None)
                 no_params))
    as (Htimeout & Habort & _ & _ & Hidx); try reflexivity.
  split; [exact Htimeout|]. split; [exact Habort|]. apply (Hidx []).
Defined.

Lemma remove_tunnel_round_trip_witness :
  let request :=
    mkCBT 7 (PDict (mkParams (Some "ol001") (Some "T1") (Some "peerA") None None None None None))
      None None in
  let removal := PTci (mkTciParams "ol001" "T1" None "peerA" (Some "ol001peerA") 1) in
  ∃ s1 s2,
    req_handler_remove_tnl request (Example.manager ONLINE 0) = (Ok tt, s1) ∧
    resp_handler_remove_tunnel (mkCBT 8 removal (Some (mkResponse PNone true)) (Some request)) s1
      = (Ok tt, s2) ∧
    _tunnels s2 !! "T1" = None ∧
    _links s2 !! "T1" = None.
Proof.
  intros request removal.
  destruct (remove_tunnel_round_trip (Example.manager ONLINE 0) request
              (mkParams (Some "ol001") (Some "T1") (Some "peerA") None None None None None)
              "ol001" "peerA" "T1" (Example.up ONLINE 0) (mkLink "T1" 0xC0 0 None) 8
              (mkResponse PNone true) None)
    as (s1 & s2 & Hreq & _ & _ & _ & Hresp & Htnl & Hlnk & _); try reflexivity.
  { right. left. reflexivity. }
  exists s1, s2. split; [exact Hreq|]. split; [exact Hresp|]. rewrite Htnl, Hlnk.
  split; apply lookup_delete_eq.
Defined.

End LinkManager.

(** ** Tap names *)

Section tap_names.
Variable config : gmap string OverlayCfg.

Lemma default_prefix_length (olid : string) : str_len (slice_to olid 5) ≤ 5.
Proof. rewrite slice_to_length by lia. lia. Qed.

(** Both managers compute the same function of the overlay and the peer. *)
Lemma _gen_tap_name_get_tap_name (overlay_id peer_id : string) :
  LinkManager._gen_tap_name config overlay_id peer_id =
  GeneveTunnel.get_tap_name config peer_id overlay_id.
Proof. reflexivity. Qed.

(** With a prefix of at most 15 characters, which the default prefix always
    is, the name is the prefix followed by the first [15 - |prefix|]
    characters of the peer id, and has at most 15 characters. *)
Lemma get_tap_name_length (peer_id olid : string) (ol_cfg : OverlayCfg) :
  config !! olid = Some ol_cfg →
  let tap_name_prefix := default (slice_to olid 5) (TapNamePrefix ol_cfg) in
  str_len tap_name_prefix ≤ 15 →
  ∃ tap_name,
    GeneveTunnel.get_tap_name config peer_id olid = Ok tap_name ∧
    tap_name = tap_name_prefix +:+ slice_to peer_id (15 - str_len tap_name_prefix) ∧
    str_len tap_name ≤ 15.
Proof.
  intros Hcfg tap_name_prefix Hlen. unfold GeneveTunnel.get_tap_name.
  rewrite Hcfg. fold tap_name_prefix. eexists. split_and!; [reflexivity..|].
  unfold GeneveTunnel.TAPNAME_MAXLEN.
  pose proof (slice_to_length peer_id (15 - str_len tap_name_prefix) ltac:(lia)) as Hs.
  unfold str_len in *. rewrite length_append. lia.
Qed.

Lemma get_tap_name_default_length (peer_id olid : string) :
  config !! olid = Some (mkOverlayCfg None None) →
  ∃ tap_name,
    GeneveTunnel.get_tap_name config peer_id olid = Ok tap_name ∧ str_len tap_name ≤ 15.
Proof.
  intros Hcfg.
  destruct (get_tap_name_length peer_id olid _ Hcfg) as (tap_name & ? & _ & ?).
  - simpl. pose proof (default_prefix_length olid). lia.
  - by exists tap_name.
Qed.

End tap_names.

(** A configured prefix of more than 15 characters is not cut: the slice
    bound [15 - |prefix|] is negative and the name is longer than 15. *)
Example get_tap_name_long_prefix :
  GeneveTunnel.get_tap_name
    {[ "ol001" := mkOverlayCfg (Some "edgevpnio-overlay-") None ]}
    "a1b2c3d4e5f6a7b8" "ol001"
  = Ok "edgevpnio-overlay-a1b2c3d4e5f6a".
Proof. reflexivity. Qed.

(** C6, where the code departs from the claim.  [get_tap_name] is declared
    with the parameters [(peer_id, olid)]; [req_handler_remove_tunnel] (as
    [req_handler_abort_tunnel], the failure branch of
    [resp_handler_remote_action] and [abort_handler_remote_action]) calls
    it with [(olid, peer_id)].  For a tunnel id that is not in the
    dictionary, whose tap [req_handler_create_tunnel] named [tap_name], the
    removal looks the peer id up among the overlays and raises [KeyError]:
    no tap is removed and the CBT is not completed. *)
Theorem remove_tunnel_swaps_tap_name_arguments (config : gmap string OverlayCfg)
    (cbt : Bus.CBT) (self : GeneveTunnel.t) (params : Bus.Params)
    (olid peer_id tnlid tap_name : string) :
  Bus.request_params cbt = Bus.PDict params →
  Bus.p_PeerId params = Some peer_id →
  Bus.p_OverlayId params = Some olid →
  Bus.p_TunnelId params = Some tnlid →
  dict_get tnlid (GeneveTunnel._tunnels self) = None →
  GeneveTunnel.get_tap_name config peer_id olid = Ok tap_name →
  config !! peer_id = None →
  GeneveTunnel.get_tap_name config olid peer_id = Raise (KeyError peer_id) ∧
  GeneveTunnel.get_tap_name config olid peer_id ≠
    GeneveTunnel.get_tap_name config peer_id olid ∧
  GeneveTunnel.req_handler_remove_tunnel config cbt self = (Raise (KeyError peer_id), self).
Proof.
  intros Hreq Hpeer Holid Htnlid Hget Htap Hcfg.
  assert (GeneveTunnel.get_tap_name config olid peer_id = Raise (KeyError peer_id)) as Hswap.
  { unfold GeneveTunnel.get_tap_name. by rewrite Hcfg. }
  split; [done|]. split; [by rewrite Hswap, Htap|].
  unfold GeneveTunnel.req_handler_remove_tunnel. GeneveTunnel.run_handler.
  rewrite Hreq; simpl. rewrite Hpeer; simpl. rewrite Holid; simpl.
  rewrite Htnlid; simpl. rewrite Hget. rewrite Hswap. done.
Qed.

Lemma remove_tunnel_swaps_tap_name_arguments_witness :
  let config : gmap string OverlayCfg := {[ "ol001" := mkOverlayCfg None (Some "10.0.0.1") ]} in
  let self := GeneveTunnel.mk [] {[ "ol001a1b2c3d4e5" := (42, "10.0.0.2") ]} [] in
  let cbt := Bus.mkCBT 5 (Bus.PDict (Bus.mkParams (Some "ol001") (Some "T1")
                                       (Some "a1b2c3d4e5f6a7b8") None None None None None))
               None None in
  GeneveTunnel.get_tap_name config "a1b2c3d4e5f6a7b8" "ol001" = Ok "ol001a1b2c3d4e5" ∧
  GeneveTunnel.get_tap_name config "ol001" "a1b2c3d4e5f6a7b8"
    = Raise (KeyError "a1b2c3d4e5f6a7b8") ∧
  GeneveTunnel.req_handler_remove_tunnel config cbt self
    = (Raise (KeyError "a1b2c3d4e5f6a7b8"), self).
Proof.
  intros config self cbt. split; [reflexivity|].
  destruct (remove_tunnel_swaps_tap_name_arguments config cbt self
           (Bus.mkParams (Some "ol001") (Some "T1") (Some "a1b2c3d4e5f6a7b8")
              None None None None None)
           "ol001" "a1b2c3d4e5f6a7b8" "T1" "ol001a1b2c3d4e5")
    as (Hswap & _ & Hrun); try reflexivity.
  by split.
Defined.

(** ** The tunnel dictionary and the state [OFFLINE] *)

(** [req_handler_abort_tunnel] is the one handler of the kernel-flavour
    manager that writes [OFFLINE] without popping the record.  Where the
    logger object can be called, an [ONLINE] tunnel whose tap exists is left
    in the dictionary in state [OFFLINE]; with a [logging.Logger] the
    handler raises before it reads the dictionary. *)
Example abort_tunnel_leaves_offline_record :
  let tnl := Tunnel.mk "T1" "ol001" "peerA" ONLINE "ol001peerA" Geneve None None in
  let self := GeneveTunnel.mk [("T1", tnl)] {[ "ol001peerA" := (42, "10.0.0.2") ]} [] in
  let cbt := Bus.mkCBT 6 (Bus.PDict (Bus.mkParams (Some "ol001") (Some "T1") (Some "peerA")
                                       None None None None None)) None None in
  GeneveTunnel._tunnels (GeneveTunnel.req_handler_abort_tunnel ∅ (Ok tt) cbt self).2
    = [("T1", Tunnel.with_state OFFLINE tnl)] ∧
  GeneveTunnel.req_handler_abort_tunnel ∅ (Raise (TypeError "'Logger' object is not callable"))
    cbt self
    = (Raise (TypeError "'Logger' object is not callable"), self).
Proof. split; reflexivity. Qed.

(** C1 (amended).  Kernel-flavour manager: every operation other than
    [GNV_CANCEL_TUNNEL] that writes the state [OFFLINE] pops the record
    before it ends, so a dictionary without [OFFLINE] records is still
    without one after the operation, whether its handler returns or
    raises.  NAT-traversing manager: a tunnel set to [OFFLINE] by a
    statistics entry stays in the dictionary; it leaves the dictionary
    through an explicit [LNK_REMOVE_TUNNEL], which accepts tunnels in state
    [OFFLINE], when the data plane's reply is handled. *)
Theorem offline_tunnels_and_the_map :
  (∀ (config : gmap string OverlayCfg) (node_id : string) (setup_timeout : Z)
     (TNL_OFFLINE : TUNNEL_STATES) (logger_call : outcome unit)
     (ops : list GeneveTunnel.operation) (self : GeneveTunnel.t),
     Forall (λ op, ∀ cbt, op ≠ GeneveTunnel.GNV_CANCEL_TUNNEL cbt) ops →
     GeneveTunnel.no_offline (GeneveTunnel._tunnels self) →
     GeneveTunnel.no_offline
       (GeneveTunnel._tunnels
          (GeneveTunnel.run config node_id setup_timeout TNL_OFFLINE logger_call ops self))) ∧
  (∀ (self : LinkManager.t) (tnlid lnkid : string) (entry : Bus.LinkStat)
     (tnl : LinkManager.Tunnel) (l : LinkManager.Link),
     Bus.Status entry = "OFFLINE" →
     LinkManager._tunnels self !! tnlid = Some tnl →
     LinkManager.link tnl = Some l →
     LinkManager.tunnel_state tnl = QUERYING ∨
       (LinkManager.status_retry l >= 1 ∧ LinkManager.tunnel_state tnl = ONLINE) →
     ∃ self',
       LinkManager.handle_link_stat tnlid lnkid entry self = (Ok tt, self') ∧
       LinkManager._tunnels self' !! tnlid =
         Some (LinkManager.with_tunnel_state OFFLINE tnl)) ∧
  (∀ (self : LinkManager.t) (cbt : Bus.CBT) (params : Bus.Params)
     (olid peer_id tnlid : string) (tnl : LinkManager.Tunnel),
     Bus.request_params cbt = Bus.PDict params →
     Bus.p_OverlayId params = Some olid →
     Bus.p_PeerId params = Some peer_id →
     Bus.p_TunnelId params = Some tnlid →
     LinkManager._tunnels self !! tnlid = Some tnl →
     LinkManager.tunnel_state tnl = OFFLINE →
     ∃ self' request,
       LinkManager.req_handler_remove_tnl cbt self = (Ok tt, self') ∧
       LinkManager._tunnels self' = LinkManager._tunnels self ∧
       LinkManager.outbox self' =
         LinkManager.outbox self ++
         [LinkManager.register_cbt_eff "TincanTunnel" "TCI_REMOVE_TUNNEL"
            (Bus.PTci request) (Some cbt)] ∧
       Bus.tci_TunnelId request = tnlid ∧
       ∀ (reply : Bus.CBT) (resp : Bus.Response) (cur : option Z) (later : LinkManager.t),
         Bus.request_params reply = Bus.PTci request →
         Bus.response reply = Some resp →
         LinkManager.current_id_of (Bus.r_data resp) = Ok cur →
         ∃ final,
           LinkManager.resp_handler_remove_tunnel reply later = (Ok tt, final) ∧
           LinkManager._tunnels final !! tnlid = None).
Proof.
  split_and!.
  - intros config node_id setup_timeout TNL_OFFLINE logger_call ops self Hops Hinv.
    by apply GeneveTunnel.run_no_offline.
  - intros self tnlid lnkid entry tnl l Hst Hget Hlink Hq.
    unfold LinkManager.handle_link_stat.
    rewrite Hst. rewrite (decide_False (P := "OFFLINE" = "UNKNOWN")) by done.
    unfold LinkManager.link_of. LinkManager.run_handler.
    rewrite Hget. simpl. rewrite Hlink.
    rewrite decide_False by (intros [? Hcr]; rewrite Hcr in Hq; naive_solver).
    rewrite decide_True by done.
    eexists. split; [reflexivity|]. simpl. apply lookup_insert_eq.
  - intros self cbt params olid peer_id tnlid tnl Hreq Holid Hpeer Htnlid Hget Hst.
    rewrite (LinkManager.remove_tnl_accepts_offline self cbt params olid peer_id tnlid tnl)
      by done.
    eexists _, _. split_and!; [reflexivity|done|done|done|].
    intros reply resp cur later Hrq Hresp Hcur.
    destruct (LinkManager.resp_remove_tunnel_drops_record later reply _ resp cur
                Hrq Hresp Hcur) as (final & Hrun & _ & Hnone).
    by exists final.
Qed.

Lemma offline_tunnels_and_the_map_witness :
  let tnl := Tunnel.mk "T1" "ol001" "peerA" ONLINE "ol001peerA" Geneve None None in
  let self := GeneveTunnel.mk [("T1", tnl)] {[ "ol001peerA" := (42, "10.0.0.2") ]} [] in
  let cbt := Bus.mkCBT 6 (Bus.PDict (Bus.mkParams (Some "ol001") (Some "T1") (Some "peerA")
                                       None None None None None)) None None in
  GeneveTunnel.no_offline
    (GeneveTunnel._tunnels
       (GeneveTunnel.run ∅ "nodeB" 120 OFFLINE (Ok tt)
          [GeneveTunnel.GNV_REMOVE_TUNNEL cbt] self)) ∧
  ∃ self',
    LinkManager.handle_link_stat "T1" "T1" (Bus.mkLinkStat "OFFLINE" None)
      (LinkManager.Example.manager QUERYING 0) = (Ok tt, self') ∧
    LinkManager._tunnels self' !! "T1" = Some (LinkManager.Example.up OFFLINE 0).
Proof.
  intros tnl self cbt.
  destruct offline_tunnels_and_the_map as (Hkernel & Hnat & _). split.
  - apply Hkernel; [by apply Forall_singleton|]. split.
    + unfold dict_keys. simpl. apply NoDup_singleton.
    + intros k tnl' Hin. apply list_elem_of_singleton in Hin.
      injection Hin as -> ->. done.
  - apply (Hnat (LinkManager.Example.manager QUERYING 0) "T1" "T1" _
             (LinkManager.Example.up QUERYING 0) (LinkManager.mkLink "T1" 0xC0 0 None));
      [done..|by left].
Defined.

(** X19.  The tap name of both managers, for a configured overlay: it is the
    prefix (the configured [TapNamePrefix], by default the first five
    characters of the overlay id) followed by the first [15 - |prefix|]
    characters of the peer id.  With a prefix of at most 15 characters the
    name has at most 15 characters; with a longer prefix the slice bound is
    negative, nothing is cut from the prefix, and the name is longer than 15
    characters. *)
Theorem tap_name_fits_iff_prefix_fits (config : gmap string OverlayCfg)
    (peer_id olid : string) (ol_cfg : OverlayCfg) :
  config !! olid = Some ol_cfg →
  let tap_name_prefix := default (slice_to olid 5) (TapNamePrefix ol_cfg) in
  ∃ tap_name,
    GeneveTunnel.get_tap_name config peer_id olid = Ok tap_name ∧
    LinkManager._gen_tap_name config olid peer_id = Ok tap_name ∧
    tap_name = tap_name_prefix +:+ slice_to peer_id (15 - str_len tap_name_prefix) ∧
    (str_len tap_name_prefix ≤ 15 → str_len tap_name ≤ 15) ∧
    (TapNamePrefix ol_cfg = None → str_len tap_name ≤ 15) ∧
    (15 < str_len tap_name_prefix → 15 < str_len tap_name).
Proof.
  intros Hcfg tap_name_prefix.
  unfold GeneveTunnel.get_tap_name, LinkManager._gen_tap_name. rewrite Hcfg.
  fold tap_name_prefix. eexists. split_and!; [reflexivity..| | |].
  - intros Hlen. unfold GeneveTunnel.TAPNAME_MAXLEN.
    pose proof (slice_to_length peer_id (15 - str_len tap_name_prefix) ltac:(lia)) as Hs.
    unfold str_len in *. rewrite length_append. lia.
  - intros Hnone. unfold GeneveTunnel.TAPNAME_MAXLEN.
    assert (str_len tap_name_prefix ≤ 5) as Hlen.
    { unfold tap_name_prefix. rewrite Hnone. simpl. apply default_prefix_length. }
    pose proof (slice_to_length peer_id (15 - str_len tap_name_prefix) ltac:(lia)) as Hs.
    unfold str_len in *. rewrite length_append. lia.
  - intros Hlong. unfold str_len in *. rewrite length_append. lia.
Qed.

Lemma tap_name_fits_iff_prefix_fits_witness :
  GeneveTunnel.get_tap_name {[ "ol001" := mkOverlayCfg None None ]} "a1b2c3d4e5f6a7b8" "ol001"
    = Ok "ol001a1b2c3d4e5" ∧
  LinkManager._gen_tap_name {[ "ol001" := mkOverlayCfg None None ]} "ol001" "a1b2c3d4e5f6a7b8"
    = Ok "ol001a1b2c3d4e5" ∧
  str_len "ol001a1b2c3d4e5" ≤ 15.
Proof.
  destruct (tap_name_fits_iff_prefix_fits {[ "ol001" := mkOverlayCfg None None ]}
              "a1b2c3d4e5f6a7b8" "ol001" (mkOverlayCfg None None))
    as (tap_name & Hgnv & Hlnk & -> & _ & Hfits & _); [reflexivity|].
  split; [exact Hgnv|]. split; [exact Hlnk|]. by apply Hfits.
Defined.

(** ** controllers/signal.py: class [Signal], the remote-action relay *)

Module Signal.
Section with_data.
(** The parameter and result dictionaries that remote actions carry: the
    signalling module ferries them and never looks inside. *)
Context {Data : Type}.

(** Modelled from the spec: [broker/remote_action.py] and [broker/cbt.py]
    are not among the sources.  A RemoteAction has the fields listed in
    section 6 (overlay_id, initiator_id, initiator_cm, recipient_id,
    recipient_cm, action, action_tag, params, data, status); a CBT is the
    envelope of section 4.7, with the time at which it was submitted. *)
Inductive value : Type :=
| VNone
| VText (s : string)
| VData (d : Data)
| VRemAct (ra : RemoteAction)
with RemoteAction : Type :=
| mkRemoteAction (overlay_id recipient_id recipient_cm action : string) (params : value)
    (initiator_id initiator_cm : string) (action_tag : nat) (data : value) (status : bool).

Definition overlay_id (ra : RemoteAction) : string :=
  match ra with mkRemoteAction o _ _ _ _ _ _ _ _ _ => o end.
Definition recipient_id (ra : RemoteAction) : string :=
  match ra with mkRemoteAction _ r _ _ _ _ _ _ _ _ => r end.
Definition recipient_cm (ra : RemoteAction) : string :=
  match ra with mkRemoteAction _ _ c _ _ _ _ _ _ _ => c end.
Definition action (ra : RemoteAction) : string :=
  match ra with mkRemoteAction _ _ _ a _ _ _ _ _ _ => a end.
Definition params (ra : RemoteAction) : value :=
  match ra with mkRemoteAction _ _ _ _ p _ _ _ _ _ => p end.
Definition initiator_id (ra : RemoteAction) : string :=
  match ra with mkRemoteAction _ _ _ _ _ i _ _ _ _ => i end.
Definition initiator_cm (ra : RemoteAction) : string :=
  match ra with mkRemoteAction _ _ _ _ _ _ c _ _ _ => c end.
Definition action_tag (ra : RemoteAction) : nat :=
  match ra with mkRemoteAction _ _ _ _ _ _ _ t _ _ => t end.
Definition data (ra : RemoteAction) : value :=
  match ra with mkRemoteAction _ _ _ _ _ _ _ _ d _ => d end.
Definition status (ra : RemoteAction) : bool :=
  match ra with mkRemoteAction _ _ _ _ _ _ _ _ _ s => s end.

(** [rem_act.initiator_id = ...; rem_act.initiator_cm = ...;
    rem_act.action_tag = ...] *)
Definition with_initiator (id cm : string) (tag : nat) (ra : RemoteAction) : RemoteAction :=
  mkRemoteAction (overlay_id ra) (recipient_id ra) (recipient_cm ra) (action ra) (params ra)
    id cm tag (data ra) (status ra).
(** [rem_act.data = ...; rem_act.status = ...] *)
Definition with_result (d : value) (st : bool) (ra : RemoteAction) : RemoteAction :=
  mkRemoteAction (overlay_id ra) (recipient_id ra) (recipient_cm ra) (action ra) (params ra)
    (initiator_id ra) (initiator_cm ra) (action_tag ra) d st.

Record Response : Type := mkResponse {
  r_data : value;
  r_status : bool;
}.

Record CBT : Type := mkCBT {
  tag : nat;
  op_type : string;
  initiator : string;
  recipient : string;
  req_action : string;
  req_params : value;
  response : option Response;
  time_submit : Z;
}.

Definition set_response (d : value) (st : bool) (cbt : CBT) : CBT :=
  mkCBT (tag cbt) (op_type cbt) (initiator cbt) (recipient cbt) (req_action cbt)
    (req_params cbt) (Some (mkResponse d st)) (time_submit cbt).

(** What the module hands to the transport of an overlay and to the bus,
    in order.  The payload of a message is the remote action that
    [json.dumps(dict(rem_act))] serialises. *)
Inductive effect : Type :=
| send_msg_eff (overlay peer_jid msg_type : string) (payload : RemoteAction)
| send_presence_eff (overlay pstatus : string)
| submit_cbt_eff (cbt : CBT)
| complete_cbt_eff (cbt : CBT)
| free_cbt_eff (cbt : CBT).

(** One entry of [self._circles]: the JID cache, the outgoing queues by
    peer id (entries are [(act_type, rem_act, time)], oldest first) and
    whether the transport thread has stored its ["Transport"] yet. *)
Record circle : Type := mkCircle {
  c_JidCache : JidCache.t;
  c_OutgoingRemoteActs : gmap string (list (string * RemoteAction * Z));
  c_Transport : bool;
}.

Record t : Type := mk {
  node_id : string;
  name : string;
  _circles : gmap string circle;
  _remote_acts : gmap nat RemoteAction;
  _pending_cbts : list (nat * CBT);          (* self._nexus._pending_cbts *)
  _request_timeout : Z;
  outbox : list effect;
}.

Definition emit (e : effect) : M t unit :=
  modify (λ self, mk (node_id self) (name self) (_circles self) (_remote_acts self)
                     (_pending_cbts self) (_request_timeout self) (outbox self ++ [e])).
Definition complete_cbt (cbt : CBT) : M t unit := emit (complete_cbt_eff cbt).
Definition free_cbt (cbt : CBT) : M t unit := emit (free_cbt_eff cbt).
Definition submit_cbt (cbt : CBT) : M t unit := emit (submit_cbt_eff cbt).

Definition set_circles (f : gmap string circle → gmap string circle) : M t unit :=
  modify (λ self, mk (node_id self) (name self) (f (_circles self)) (_remote_acts self)
                     (_pending_cbts self) (_request_timeout self) (outbox self)).
Definition set_remote_acts (f : gmap nat RemoteAction → gmap nat RemoteAction) : M t unit :=
  modify (λ self, mk (node_id self) (name self) (_circles self) (f (_remote_acts self))
                     (_pending_cbts self) (_request_timeout self) (outbox self)).
Definition set_pending_cbts (f : list (nat * CBT) → list (nat * CBT)) : M t unit :=
  modify (λ self, mk (node_id self) (name self) (_circles self) (_remote_acts self)
                     (f (_pending_cbts self)) (_request_timeout self) (outbox self)).

(** [self._circles[olid]] *)
Definition circle_at (olid : string) : M t circle :=
  circles ← gets _circles;
  getitem olid (circles !! olid).

(** [self._circles[olid]["Transport"]] *)
Definition transport_at (olid : string) : M t unit :=
  c ← circle_at olid;
  if c_Transport c then mret tt else raise (KeyError "Transport").

(** [self._circles[olid]["JidCache"].lookup(peer_id)] *)
Definition jid_lookup (now : Z) (olid peer_id : string) : M t (option string) :=
  c ← circle_at olid;
  match JidCache.lookup now peer_id (c_JidCache c) with
  | (Ok jid, cache) =>
      set_circles (<[olid := mkCircle cache (c_OutgoingRemoteActs c) (c_Transport c)]>);;
      mret jid
  | (Raise e, _) => raise e
  end.

(** The loop [while not ra_que.empty(): entry = ra_que.get(); ...] over
    the entries of the queue, oldest first. *)
Definition _send_waiting_remote_acts (overlay_id peer_id peer_jid : string) : M t unit :=
  c ← circle_at overlay_id;
  let out_rem_acts := c_OutgoingRemoteActs c in
  match out_rem_acts !! peer_id with
  | Some ra_que =>
      transport_at overlay_id;;
      for_each ra_que (λ entry,
        c ← circle_at overlay_id;
        set_circles (<[overlay_id :=
          mkCircle (c_JidCache c)
            (alter (drop 1) peer_id (c_OutgoingRemoteActs c)) (c_Transport c)]>);;
        emit (send_msg_eff overlay_id peer_jid entry.1.1 entry.1.2))
  | None => mret tt
  end.

(** [now] is the clock reading of the cache lookup and [queued] the one
    stored with a queued entry. *)
Definition transmit_remote_act (now queued : Z) (rem_act : RemoteAction)
    (peer_id act_type : string) : M t unit :=
  let olid := overlay_id rem_act in
  peer_jid ← jid_lookup now olid peer_id;
  transport_at olid;;
  match peer_jid with
  | None =>
      c ← circle_at olid;
      let out_rem_acts := c_OutgoingRemoteActs c in
      let out_rem_acts :=
        match out_rem_acts !! peer_id with
        | None => <[peer_id := []]> out_rem_acts
        | Some _ => out_rem_acts
        end in
      let out_rem_acts :=
        alter (λ q, q ++ [(act_type, rem_act, queued)]) peer_id out_rem_acts in
      set_circles (<[olid := mkCircle (c_JidCache c) out_rem_acts (c_Transport c)]>);;
      emit (send_presence_eff olid ("uid?#" +:+ peer_id))
  | Some peer_jid =>
      _send_waiting_remote_acts olid peer_id peer_jid;;
      emit (send_msg_eff olid peer_jid act_type rem_act)
  end.

(** [n_tag] is the tag of the CBT that [create_cbt] returns and [now] the
    time stored in it. *)
Definition invoke_remote_action_on_target (n_tag : nat) (now : Z) (rem_act : RemoteAction)
    : M t unit :=
  self_id ← gets node_id;
  if decide (recipient_id rem_act ≠ self_id) then mret tt
  else
    self_name ← gets name;
    let n_cbt := mkCBT n_tag "Request" self_name (recipient_cm rem_act) (action rem_act)
                   (params rem_act) None now in
    set_remote_acts (<[tag n_cbt := rem_act]>);;
    submit_cbt n_cbt.

Fixpoint pending_get (tag : nat) (d : list (nat * CBT)) : option CBT :=
  match d with
  | [] => None
  | (k, v) :: d' => if decide (tag = k) then Some v else pending_get tag d'
  end.

Fixpoint pending_pop (tag : nat) (d : list (nat * CBT)) : list (nat * CBT) :=
  match d with
  | [] => []
  | (k, v) :: d' => if decide (tag = k) then d' else (k, v) :: pending_pop tag d'
  end.

(** [d[tag]] replaced by [cbt], for a [tag] that is a key of [d]. *)
Fixpoint pending_set (tag : nat) (cbt : CBT) (d : list (nat * CBT)) : list (nat * CBT) :=
  match d with
  | [] => []
  | (k, v) :: d' => if decide (tag = k) then (k, cbt) :: d' else (k, v) :: pending_set tag cbt d'
  end.

(** [cbt.request.params = p] *)
Definition set_request_params (p : value) (cbt : CBT) : CBT :=
  mkCBT (tag cbt) (op_type cbt) (initiator cbt) (recipient cbt) (req_action cbt)
    p (response cbt) (time_submit cbt).

(** The object that [d] holds under [tag], changed in place by [f]. *)
Fixpoint pending_alter (tag : nat) (f : CBT → CBT) (d : list (nat * CBT)) : list (nat * CBT) :=
  match d with
  | [] => []
  | (k, v) :: d' => if decide (tag = k) then (k, f v) :: d' else (k, v) :: pending_alter tag f d'
  end.

(** [pending_cbt] is the object that the table holds, and stays in the
    table: [set_response] is seen there too. *)
Definition complete_remote_action_on_initiator (rem_act : RemoteAction) : M t unit :=
  self_id ← gets node_id;
  if decide (initiator_id rem_act ≠ self_id) then mret tt
  else
    let tag := action_tag rem_act in
    let cbt_status := status rem_act in
    pending ← gets _pending_cbts;
    match pending_get tag pending with
    | Some pending_cbt =>
        let pending_cbt := set_response (VRemAct rem_act) cbt_status pending_cbt in
        set_pending_cbts (pending_set tag pending_cbt);;
        complete_cbt pending_cbt
    | None => mret tt
    end.

Definition handle_remote_action (n_tag : nat) (now : Z) (rem_act : RemoteAction)
    (act_type : string) : M t unit :=
  if decide (act_type = "invk") then invoke_remote_action_on_target n_tag now rem_act
  else if decide (act_type = "cmpt") then complete_remote_action_on_initiator rem_act
  else mret tt.

(** [rem_act] is the object [cbt.request.params], and the three assignments
    change it in place.  A request is filed in the table of pending CBTs
    under its tag, so the entry under [cbt.tag], when there is one, is the
    object [cbt] and shows the stamped action from then on, as does the
    entry of the outgoing queue. *)
Definition req_handler_initiate_remote_action (now queued : Z) (cbt : CBT) : M t unit :=
  match req_params cbt with
  | VRemAct rem_act =>
      let peer_id := recipient_id rem_act in
      let overlay_id := overlay_id rem_act in
      circles ← gets _circles;
      match circles !! overlay_id with
      | None => complete_cbt (set_response (VText "Overlay ID not found") false cbt)
      | Some _ =>
          self_id ← gets node_id;
          let rem_act := with_initiator self_id (initiator cbt) (tag cbt) rem_act in
          set_pending_cbts (pending_alter (tag cbt) (set_request_params (VRemAct rem_act)));;
          transmit_remote_act now queued rem_act peer_id "invk"
      end
  | _ => raise (AttributeError "object has no attribute 'recipient_id'")
  end.

Definition resp_handler_remote_action (now queued : Z) (cbt : CBT) : M t unit :=
  acts ← gets _remote_acts;
  rem_act ← getitem (pretty (tag cbt)) (acts !! tag cbt);
  set_remote_acts (delete (tag cbt));;
  let peer_id := initiator_id rem_act in
  resp ← match response cbt with
         | Some resp => mret resp
         | None => raise (AttributeError "'NoneType' object has no attribute 'data'")
         end;
  let rem_act := with_result (r_data resp) (r_status resp) rem_act in
  transmit_remote_act now queued rem_act peer_id "cmpt";;
  free_cbt cbt.

(** The first loop of [scavenge_pending_cbts]; [clock i] is the reading of
    [time.time()] taken for the [i]-th pending item. *)
Fixpoint scavenge_list (clock : nat → Z) (timeout : Z) (i : nat) (items : list (nat * CBT))
    : list nat :=
  match items with
  | [] => []
  | item :: items' =>
      if decide (clock i - time_submit item.2 >= timeout)
      then item.1 :: scavenge_list clock timeout (S i) items'
      else scavenge_list clock timeout (S i) items'
  end.

Definition scavenge_pending_cbts (clock : nat → Z) : M t unit :=
  pending ← gets _pending_cbts;
  timeout ← gets _request_timeout;
  for_each (scavenge_list clock timeout 0 pending) (λ tag,
    pending ← gets _pending_cbts;
    set_pending_cbts (pending_pop tag);;
    match pending_get tag pending with
    | Some pending_cbt =>
        complete_cbt (set_response (VText "The request has expired") false pending_cbt)
    | None => mret tt
    end).

(** *** Properties *)

Ltac run_signal :=
  unfold transmit_remote_act, _send_waiting_remote_acts, jid_lookup, transport_at, circle_at,
    invoke_remote_action_on_target, complete_remote_action_on_initiator,
    req_handler_initiate_remote_action, resp_handler_remote_action,
    complete_cbt, free_cbt, submit_cbt, emit, set_circles, set_remote_acts, set_pending_cbts;
  unfold mbind, M_bind, mret, M_ret, raise, gets, modify, lift, getitem; simpl.

(** The queue of [peer_id] after [entry] has been put on it. *)
Definition enqueue (peer_id : string) (entry : string * RemoteAction * Z)
    (queues : gmap string (list (string * RemoteAction * Z)))
    : gmap string (list (string * RemoteAction * Z)) :=
  <[peer_id := default [] (queues !! peer_id) ++ [entry]]> queues.

Definition with_circle (olid : string) (c : circle) (self : t) : t :=
  mk (node_id self) (name self) (<[olid := c]> (_circles self)) (_remote_acts self)
     (_pending_cbts self) (_request_timeout self) (outbox self).

Definition with_outbox (out : list effect) (self : t) : t :=
  mk (node_id self) (name self) (_circles self) (_remote_acts self)
     (_pending_cbts self) (_request_timeout self) out.

(** Transmitting to a peer whose JID is not in the cache. *)
Lemma transmit_unresolved (self : t) (now queued : Z) (rem_act : RemoteAction)
    (peer_id act_type : string) (c : circle) :
  _circles self !! overlay_id rem_act = Some c →
  c_Transport c = true →
  JidCache._cache (c_JidCache c) !! peer_id = None →
  transmit_remote_act now queued rem_act peer_id act_type self =
    (Ok tt,
     with_outbox (outbox self ++ [send_presence_eff (overlay_id rem_act) ("uid?#" +:+ peer_id)])
       (with_circle (overlay_id rem_act)
          (mkCircle (c_JidCache c)
             (enqueue peer_id (act_type, rem_act, queued) (c_OutgoingRemoteActs c)) true)
          self)).
Proof.
  intros Hc Ht Hj. run_signal. rewrite Hc. simpl.
  unfold JidCache.lookup. rewrite Hj. simpl. rewrite lookup_insert_eq. simpl.
  rewrite Ht. simpl. rewrite lookup_insert_eq. simpl.
  unfold with_outbox, with_circle, enqueue. simpl. rewrite insert_insert_eq.
  do 3 f_equal. f_equal.
  destruct (c_OutgoingRemoteActs c !! peer_id) as [q|] eqn:Hq; simpl.
  - apply map_eq. intros k. destruct (decide (k = peer_id)) as [->|Hne].
    + by rewrite lookup_alter_eq, lookup_insert_eq, Hq.
    + by rewrite lookup_alter_ne, lookup_insert_ne.
  - apply map_eq. intros k. destruct (decide (k = peer_id)) as [->|Hne].
    + by rewrite lookup_alter_eq, !lookup_insert_eq.
    + by rewrite lookup_alter_ne, !lookup_insert_ne.
Qed.

Lemma with_circle_same (olid : string) (c : circle) (self : t) :
  _circles self !! olid = Some c → with_outbox (outbox self) (with_circle olid c self) = self.
Proof.
  intros Hc. destruct self. unfold with_outbox, with_circle. simpl in *.
  by rewrite insert_id.
Qed.

Lemma with_circle_twice (olid : string) (c1 c2 : circle) (out1 out2 : list effect) (self : t) :
  with_outbox out2 (with_circle olid c2 (with_outbox out1 (with_circle olid c1 self))) =
  with_outbox out2 (with_circle olid c2 self).
Proof. unfold with_outbox, with_circle. simpl. by rewrite insert_insert_eq. Qed.

(** The loop of [_send_waiting_remote_acts] over the entries [l], when the
    queue of the peer holds [l']. *)
Lemma flush_loop (olid peer_id peer_jid : string)
    (l l' : list (string * RemoteAction * Z)) (self : t) (cache : JidCache.t)
    (queues : gmap string (list (string * RemoteAction * Z))) (tr : bool) :
  _circles self !! olid = Some (mkCircle cache queues tr) →
  queues !! peer_id = Some l' →
  for_each l (λ entry,
    c ← circle_at olid;
    set_circles (<[olid :=
      mkCircle (c_JidCache c)
        (alter (drop 1) peer_id (c_OutgoingRemoteActs c)) (c_Transport c)]>);;
    emit (send_msg_eff olid peer_jid entry.1.1 entry.1.2)) self =
  (Ok tt,
   with_outbox (outbox self ++ ((λ e, send_msg_eff olid peer_jid e.1.1 e.1.2) <$> l))
     (with_circle olid (mkCircle cache (<[peer_id := drop (length l) l']> queues) tr) self)).
Proof.
  revert l' self queues. induction l as [|e l IH]; intros l' self queues Hc Hq.
  - simpl. rewrite app_nil_r, insert_id by done. by rewrite with_circle_same.
  - cbn [for_each].
    erewrite bind_returns; [|run_signal; rewrite Hc; simpl; reflexivity].
    erewrite (IH (drop 1 l') _ (alter (drop 1) peer_id queues)).
    + unfold with_outbox, with_circle. simpl. rewrite insert_insert_eq, <- app_assoc.
      do 3 f_equal. f_equal. rewrite drop_drop.
      apply map_eq. intros k. destruct (decide (k = peer_id)) as [->|Hne].
      * by rewrite !lookup_insert_eq.
      * by rewrite !lookup_insert_ne, lookup_alter_ne.
    + simpl. apply lookup_insert_eq.
    + by rewrite lookup_alter_eq, Hq.
Qed.

Lemma send_waiting_flushes (self : t) (olid peer_id peer_jid : string) (c : circle)
    (q : list (string * RemoteAction * Z)) :
  _circles self !! olid = Some c →
  c_Transport c = true →
  c_OutgoingRemoteActs c !! peer_id = Some q →
  _send_waiting_remote_acts olid peer_id peer_jid self =
    (Ok tt,
     with_outbox (outbox self ++ ((λ e, send_msg_eff olid peer_jid e.1.1 e.1.2) <$> q))
       (with_circle olid
          (mkCircle (c_JidCache c) (<[peer_id := []]> (c_OutgoingRemoteActs c)) true)
          self)).
Proof.
  intros Hc Ht Hq. unfold _send_waiting_remote_acts.
  erewrite bind_returns; [|run_signal; rewrite Hc; simpl; reflexivity].
  simpl. rewrite Hq.
  erewrite bind_returns; [|run_signal; rewrite Hc; simpl; rewrite Ht; reflexivity].
  destruct c as [cache queues tr]. simpl in *. subst tr.
  rewrite (flush_loop olid peer_id peer_jid q q self cache queues true Hc Hq).
  by rewrite drop_all.
Qed.

Lemma send_waiting_nothing (self : t) (olid peer_id peer_jid : string) (c : circle) :
  _circles self !! olid = Some c →
  c_OutgoingRemoteActs c !! peer_id = None →
  _send_waiting_remote_acts olid peer_id peer_jid self = (Ok tt, self).
Proof.
  intros Hc Hq. unfold _send_waiting_remote_acts. run_signal. rewrite Hc. simpl.
  by rewrite Hq.
Qed.

(** One call [transmit_remote_act(rem_act, peer_id, act_type)] with its two
    readings of the clock. *)
Record transmission : Type := mkTransmission {
  tx_now : Z;
  tx_queued : Z;
  tx_type : string;
  tx_act : RemoteAction;
}.

(** Transmitting several remote actions to a peer whose JID is not in the
    cache: each is put on the peer's queue behind what is already there,
    and each sends one [uid?] probe. *)
Lemma transmit_all_unresolved (olid peer_id : string)
    (txs : list transmission) (self : t) (c : circle) :
  _circles self !! olid = Some c →
  c_Transport c = true →
  JidCache._cache (c_JidCache c) !! peer_id = None →
  Forall (λ tx, overlay_id (tx_act tx) = olid) txs →
  ∃ queues,
    for_each txs (λ tx, transmit_remote_act (tx_now tx) (tx_queued tx) (tx_act tx) peer_id (tx_type tx)) self =
      (Ok tt,
       with_outbox
         (outbox self ++ ((λ _, send_presence_eff olid ("uid?#" +:+ peer_id)) <$> txs))
         (with_circle olid (mkCircle (c_JidCache c) queues true) self)) ∧
    default [] (queues !! peer_id) =
      default [] (c_OutgoingRemoteActs c !! peer_id) ++ ((λ tx, (tx_type tx, tx_act tx, tx_queued tx)) <$> txs).
Proof.
  revert self c. induction txs as [|tx txs IH]; intros self c Hc Ht Hj Hall.
  - exists (c_OutgoingRemoteActs c). simpl. rewrite !app_nil_r. split; [|done].
    destruct c as [cache queues tr]. simpl in *. subst tr. by rewrite with_circle_same.
  - apply Forall_cons in Hall as [Holid Hall]. cbn [for_each].
    rewrite <- Holid in Hc.
    erewrite bind_returns; [|by apply transmit_unresolved].
    rewrite Holid in *.
    match goal with
    | |- context [for_each txs _ ?s] =>
        destruct (IH s (mkCircle (c_JidCache c)
                          (enqueue peer_id (tx_type tx, tx_act tx, tx_queued tx) (c_OutgoingRemoteActs c))
                          true))
          as (queues & Hrun & Hq); [simpl; apply lookup_insert_eq|done..|]
    end.
    exists queues. split.
    + rewrite Hrun. rewrite with_circle_twice. simpl. by rewrite <- app_assoc.
    + rewrite Hq. simpl. unfold enqueue. rewrite lookup_insert_eq. simpl.
      by rewrite <- app_assoc.
Qed.

(** X20.  The outgoing queue is first in, first out.  Remote actions
    transmitted to a peer whose JID is not in the cache are not sent: each
    is put on the peer's queue and answered with one [uid?] presence probe.
    When the waiting actions are then sent to the JID that was resolved,
    what was queued before, followed by these actions, goes out in the order
    of the transmissions, each with its own message type, and the queue is
    left empty. *)
Theorem queued_remote_acts_are_sent_in_order (self : t) (olid peer_id peer_jid : string)
    (c : circle) (txs : list transmission) :
  _circles self !! olid = Some c →
  c_Transport c = true →
  JidCache._cache (c_JidCache c) !! peer_id = None →
  Forall (λ tx, overlay_id (tx_act tx) = olid) txs →
  ∃ self1 self2 c2,
    for_each txs (λ tx, transmit_remote_act (tx_now tx) (tx_queued tx) (tx_act tx) peer_id (tx_type tx)) self
      = (Ok tt, self1) ∧
    outbox self1 =
      outbox self ++ ((λ _, send_presence_eff olid ("uid?#" +:+ peer_id)) <$> txs) ∧
    _send_waiting_remote_acts olid peer_id peer_jid self1 = (Ok tt, self2) ∧
    outbox self2 =
      outbox self1 ++
      ((λ e, send_msg_eff olid peer_jid e.1.1 e.1.2) <$>
         (default [] (c_OutgoingRemoteActs c !! peer_id) ++
          ((λ tx, (tx_type tx, tx_act tx, tx_queued tx)) <$> txs))) ∧
    _circles self2 !! olid = Some c2 ∧
    default [] (c_OutgoingRemoteActs c2 !! peer_id) = [].
Proof.
  intros Hc Ht Hj Hall.
  destruct (transmit_all_unresolved olid peer_id txs self c Hc Ht Hj Hall)
    as (queues & Hrun & Hq).
  destruct (queues !! peer_id) as [q|] eqn:Hqueue; simpl in Hq; rewrite <- Hq.
  - eexists _, _, _. split; [exact Hrun|]. split; [done|].
    erewrite send_waiting_flushes; [|simpl; apply lookup_insert_eq|done|done].
    split; [reflexivity|]. split; [done|].
    split; [simpl; apply lookup_insert_eq|]. simpl. by rewrite lookup_insert_eq.
  - eexists _, _, _. split; [exact Hrun|]. split; [done|].
    erewrite send_waiting_nothing; [|simpl; apply lookup_insert_eq|done].
    split; [reflexivity|]. split; [simpl; by rewrite app_nil_r|].
    split; [simpl; apply lookup_insert_eq|]. simpl. by rewrite Hqueue.
Qed.

(** X21.  Transmitting to a peer whose cached JID is fresh: the entries
    waiting on the peer's queue are sent first, oldest first, then the
    remote action itself, all to the cached JID; no probe is sent, the cache
    is unchanged and the queue is left empty. *)
Theorem resolved_peer_gets_queue_then_message (self : t) (now queued : Z)
    (rem_act : RemoteAction) (peer_id act_type peer_jid : string) (ts : Z) (c : circle) :
  _circles self !! overlay_id rem_act = Some c →
  c_Transport c = true →
  JidCache._cache (c_JidCache c) !! peer_id = Some (peer_jid, ts) →
  now - ts < JidCache._expiry (c_JidCache c) →
  ∃ self' c',
    transmit_remote_act now queued rem_act peer_id act_type self = (Ok tt, self') ∧
    outbox self' =
      outbox self ++
      ((λ e, send_msg_eff (overlay_id rem_act) peer_jid e.1.1 e.1.2) <$>
         default [] (c_OutgoingRemoteActs c !! peer_id)) ++
      [send_msg_eff (overlay_id rem_act) peer_jid act_type rem_act] ∧
    _circles self' !! overlay_id rem_act = Some c' ∧
    c_JidCache c' = c_JidCache c ∧
    default [] (c_OutgoingRemoteActs c' !! peer_id) = [].
Proof.
  intros Hc Ht Hj Hfresh. unfold transmit_remote_act.
  erewrite bind_returns.
  2:{ run_signal. rewrite Hc. simpl. unfold JidCache.lookup. rewrite Hj. simpl.
      rewrite decide_True by done. simpl. reflexivity. }
  erewrite bind_returns.
  2:{ run_signal. rewrite lookup_insert_eq. simpl. rewrite Ht. reflexivity. }
  destruct c as [cache queues tr]. simpl in *. subst tr.
  destruct (queues !! peer_id) as [q|] eqn:Hq.
  - erewrite bind_returns;
      [|apply (send_waiting_flushes _ _ _ _ (mkCircle cache queues true));
        [simpl; apply lookup_insert_eq|done..]].
    run_signal. eexists _, _. split; [reflexivity|]. simpl.
    split; [by rewrite <- app_assoc|]. split; [apply lookup_insert_eq|]. simpl.
    by rewrite lookup_insert_eq.
  - erewrite bind_returns;
      [|apply (send_waiting_nothing _ _ _ _ (mkCircle cache queues true));
        [simpl; apply lookup_insert_eq|done]].
    run_signal. eexists _, _. split; [reflexivity|]. simpl.
    split; [done|]. split; [apply lookup_insert_eq|]. simpl. by rewrite Hq.
Qed.

(** X22.  Transmitting to a peer whose cached JID has expired ([now - ts >=
    expiry], the bound included): nothing is sent to the stale JID; the
    entry is evicted from the cache, the remote action is put on the peer's
    queue and one [uid?] probe is sent. *)
Theorem stale_jid_is_not_used (self : t) (now queued : Z) (rem_act : RemoteAction)
    (peer_id act_type peer_jid : string) (ts : Z) (c : circle) :
  _circles self !! overlay_id rem_act = Some c →
  c_Transport c = true →
  JidCache._cache (c_JidCache c) !! peer_id = Some (peer_jid, ts) →
  now - ts >= JidCache._expiry (c_JidCache c) →
  ∃ self' c',
    transmit_remote_act now queued rem_act peer_id act_type self = (Ok tt, self') ∧
    outbox self' =
      outbox self ++ [send_presence_eff (overlay_id rem_act) ("uid?#" +:+ peer_id)] ∧
    _circles self' !! overlay_id rem_act = Some c' ∧
    JidCache._cache (c_JidCache c') = delete peer_id (JidCache._cache (c_JidCache c)) ∧
    c_OutgoingRemoteActs c' !! peer_id =
      Some (default [] (c_OutgoingRemoteActs c !! peer_id) ++ [(act_type, rem_act, queued)]).
Proof.
  intros Hc Ht Hj Hstale. eexists _, _. split.
  { run_signal. rewrite Hc. simpl. unfold JidCache.lookup. rewrite Hj. simpl.
    rewrite decide_False by lia. simpl. rewrite !lookup_insert_eq. simpl.
    rewrite Ht. simpl. rewrite !lookup_insert_eq. simpl. reflexivity. }
  simpl. split; [done|]. split; [apply lookup_insert_eq|]. simpl. split; [done|].
  destruct (c_OutgoingRemoteActs c !! peer_id) as [q|] eqn:Hq; simpl.
  - by rewrite lookup_alter_eq, Hq.
  - by rewrite lookup_alter_eq, lookup_insert_eq.
Qed.

(** X23.  The round trip of a remote action on its target.  An invocation
    addressed to this node is turned into a request on the bus and recorded
    under the request's tag; when the response to that request arrives, the
    handler forgets the tag (the table is as it was before the invocation)
    and transmits, as a completion ([cmpt]) to the initiator, the recorded
    remote action with the data and the status of the response, and frees
    the response. *)
Theorem remote_action_round_trip_on_target (self : t) (n_tag : nat) (now : Z)
    (rem_act : RemoteAction) :
  recipient_id rem_act = node_id self →
  _remote_acts self !! n_tag = None →
  let n_cbt := mkCBT n_tag "Request" (name self) (recipient_cm rem_act) (action rem_act)
                 (params rem_act) None now in
  let submitted := with_outbox (outbox self ++ [submit_cbt_eff n_cbt]) self in
  ∃ self1,
    invoke_remote_action_on_target n_tag now rem_act self = (Ok tt, self1) ∧
    _remote_acts self1 = <[n_tag := rem_act]> (_remote_acts self) ∧
    outbox self1 = outbox self ++ [submit_cbt_eff n_cbt] ∧
    ∀ (d : value) (st : bool) (now' queued : Z),
      resp_handler_remote_action now' queued (set_response d st n_cbt) self1 =
        (transmit_remote_act now' queued (with_result d st rem_act) (initiator_id rem_act)
           "cmpt" ;;
         free_cbt (set_response d st n_cbt)) submitted.
Proof.
  intros Hrcp Hfresh n_cbt submitted.
  eexists. split_and!.
  - run_signal. rewrite decide_False by (by intros Hne; apply Hne). reflexivity.
  - done.
  - done.
  - intros d st now' queued. unfold resp_handler_remote_action.
    erewrite bind_returns; [|reflexivity].
    erewrite bind_returns; [|run_signal; rewrite lookup_insert_eq; reflexivity].
    erewrite bind_returns; [|reflexivity].
    simpl. erewrite bind_returns; [|reflexivity].
    unfold set_remote_acts, modify. simpl.
    rewrite delete_insert_eq, delete_id by done. reflexivity.
Qed.

Definition with_pending (d : list (nat * CBT)) (out : list effect) (self : t) : t :=
  mk (node_id self) (name self) (_circles self) (_remote_acts self) d
     (_request_timeout self) out.



(** X25.  [SIG_REMOTE_ACTION] for an overlay that has no circle on this node
    completes the request with status false (Overlay ID not found); nothing
    is queued or sent. *)
Theorem initiate_remote_action_unknown_overlay (self : t) (now queued : Z) (cbt : CBT)
    (rem_act : RemoteAction) :
  req_params cbt = VRemAct rem_act →
  _circles self !! overlay_id rem_act = None →
  req_handler_initiate_remote_action now queued cbt self =
    (Ok tt,
     with_outbox
       (outbox self ++
        [complete_cbt_eff (set_response (VText "Overlay ID not found") false cbt)])
       self).
Proof.
  intros Hreq Hc. unfold req_handler_initiate_remote_action. rewrite Hreq.
  run_signal. by rewrite Hc.
Qed.

(** X26.  A remote action that was delivered to the wrong node is dropped
    without a trace: an invocation whose [recipient_id] is not this node, a
    completion whose [initiator_id] is not this node or for whose tag no
    request is pending, and any message type other than [invk] and [cmpt]
    leave the module as it is and hand nothing to the bus or the transport. *)
Theorem misdelivered_remote_actions_are_discarded (self : t) (n_tag : nat) (now : Z)
    (rem_act : RemoteAction) (act_type : string) :
  (act_type = "invk" → recipient_id rem_act ≠ node_id self →
     handle_remote_action n_tag now rem_act act_type self = (Ok tt, self)) ∧
  (act_type = "cmpt" →
   initiator_id rem_act ≠ node_id self ∨
   pending_get (action_tag rem_act) (_pending_cbts self) = None →
     handle_remote_action n_tag now rem_act act_type self = (Ok tt, self)) ∧
  (act_type ≠ "invk" → act_type ≠ "cmpt" →
     handle_remote_action n_tag now rem_act act_type self = (Ok tt, self)).
Proof.
  unfold handle_remote_action. split_and!.
  - intros -> Hne. simpl. run_signal. by rewrite decide_True.
  - intros -> Hor. simpl. run_signal.
    destruct (decide (initiator_id rem_act ≠ node_id self)) as [|Heq]; [done|].
    destruct Hor as [Hne|Hnone]; [done|]. simpl. by rewrite Hnone.
  - intros H1 H2. by rewrite !decide_False.
Qed.

(** *** Pending requests *)

Fixpoint pending_pop_all (tags : list nat) (d : list (nat * CBT)) : list (nat * CBT) :=
  match tags with
  | [] => d
  | tag :: tags' => pending_pop_all tags' (pending_pop tag d)
  end.

Definition expire (cbt : CBT) : effect :=
  complete_cbt_eff (set_response (VText "The request has expired") false cbt).

Lemma pending_get_Some_elem tag cbt d : pending_get tag d = Some cbt → (tag, cbt) ∈ d.
Proof.
  induction d as [|[k v] d IH]; simpl; [done|].
  case_decide; [intros [= ->]; subst; apply list_elem_of_here|].
  intros Hget. by apply list_elem_of_further, IH.
Qed.

Lemma pending_get_None tag d : pending_get tag d = None ↔ tag ∉ d.*1.
Proof.
  induction d as [|[k v] d IH]; simpl.
  - split; [intros _; apply not_elem_of_nil|done].
  - rewrite not_elem_of_cons. case_decide; [naive_solver|]. rewrite IH. naive_solver.
Qed.

Lemma pending_elem_get tag cbt d : NoDup d.*1 → (tag, cbt) ∈ d → pending_get tag d = Some cbt.
Proof.
  induction d as [|[k v] d IH]; simpl; intros Hnd Hin.
  - by apply elem_of_nil in Hin.
  - apply NoDup_cons in Hnd as [Hk Hnd].
    apply elem_of_cons in Hin as [[= -> ->]|Hin]; [by rewrite decide_True|].
    rewrite decide_False; [by apply IH|]. intros ->. apply Hk.
    apply list_elem_of_fmap. by exists (k, cbt).
Qed.

Lemma pending_pop_keys tag d x : x ∈ (pending_pop tag d).*1 → x ∈ d.*1.
Proof.
  induction d as [|[k v] d IH]; simpl; [done|].
  case_decide; simpl; [apply list_elem_of_further|].
  rewrite !elem_of_cons. naive_solver.
Qed.

Lemma pending_pop_NoDup tag d : NoDup d.*1 → NoDup (pending_pop tag d).*1.
Proof.
  induction d as [|[k v] d IH]; simpl; [done|]. intros [Hk Hnd]%NoDup_cons.
  case_decide; [done|]. simpl. apply NoDup_cons. split; [|by apply IH].
  intros Hin. by apply Hk, (pending_pop_keys tag).
Qed.

Lemma pending_get_pop_eq tag d : NoDup d.*1 → pending_get tag (pending_pop tag d) = None.
Proof.
  induction d as [|[k v] d IH]; simpl; [done|]. intros [Hk Hnd]%NoDup_cons.
  case_decide as Hkk; [subst; by apply pending_get_None|].
  simpl. rewrite decide_False by done. by apply IH.
Qed.

Lemma pending_get_pop_ne tag tag' d :
  tag ≠ tag' → pending_get tag' (pending_pop tag d) = pending_get tag' d.
Proof.
  intros Hne. induction d as [|[k v] d IH]; simpl; [done|].
  destruct (decide (tag = k)) as [->|Hk]; simpl.
  - by rewrite decide_False.
  - case_decide; [done|apply IH].
Qed.

Lemma pending_pop_all_NoDup tags d : NoDup d.*1 → NoDup (pending_pop_all tags d).*1.
Proof.
  revert d. induction tags as [|tag tags IH]; intros d Hnd; simpl; [done|].
  by apply IH, pending_pop_NoDup.
Qed.

Lemma pending_get_pop_all tags tag d :
  NoDup d.*1 →
  pending_get tag (pending_pop_all tags d) =
    if decide (tag ∈ tags) then None else pending_get tag d.
Proof.
  revert d. induction tags as [|tag' tags IH]; intros d Hnd; cbn [pending_pop_all].
  - rewrite decide_False; [done|]. apply not_elem_of_nil.
  - rewrite IH by (by apply pending_pop_NoDup).
    destruct (decide (tag' = tag)) as [->|Hne].
    + rewrite (decide_True (P := tag ∈ tag :: tags)) by apply list_elem_of_here.
      rewrite pending_get_pop_eq by done. by case_decide.
    + rewrite pending_get_pop_ne by done.
      destruct (decide (tag ∈ tags)) as [Hin|Hnin].
      * rewrite decide_True; [done|]. by apply list_elem_of_further.
      * rewrite decide_False; [done|]. rewrite not_elem_of_cons. naive_solver.
Qed.

Lemma omap_get_pop (tag : nat) (tags : list nat) (d : list (nat * CBT)) :
  tag ∉ tags →
  omap (λ tag', pending_get tag' (pending_pop tag d)) tags =
  omap (λ tag', pending_get tag' d) tags.
Proof.
  induction tags as [|t tags IH]; intros Hnot; [done|].
  apply not_elem_of_cons in Hnot as [Hne Hnot]. csimpl.
  rewrite pending_get_pop_ne by done. by rewrite IH.
Qed.

(** The second loop of [scavenge_pending_cbts]. *)
Lemma scavenge_loop (tags : list nat) (self : t) :
  NoDup tags →
  for_each tags (λ tag,
    pending ← gets _pending_cbts;
    set_pending_cbts (pending_pop tag);;
    match pending_get tag pending with
    | Some pending_cbt =>
        complete_cbt (set_response (VText "The request has expired") false pending_cbt)
    | None => mret tt
    end) self =
  (Ok tt,
   with_pending (pending_pop_all tags (_pending_cbts self))
     (outbox self ++ (expire <$> omap (λ tag, pending_get tag (_pending_cbts self)) tags))
     self).
Proof.
  revert self. induction tags as [|tag tags IH]; intros self Hnd.
  - simpl. rewrite app_nil_r. by destruct self.
  - apply NoDup_cons in Hnd as [Htag Hnd]. cbn [for_each]. csimpl.
    destruct (pending_get tag (_pending_cbts self)) as [cbt|] eqn:Hget.
    + erewrite bind_returns; [|run_signal; rewrite Hget; reflexivity].
      rewrite IH by done. simpl. rewrite omap_get_pop by done.
      unfold with_pending. simpl. by rewrite <- app_assoc.
    + erewrite bind_returns; [|run_signal; rewrite Hget; reflexivity].
      rewrite IH by done. simpl. by rewrite omap_get_pop.
Qed.

(** The tags collected by the first loop are those of the items whose
    reading of the clock is at least [timeout] past their submission. *)
Lemma scavenge_list_spec (clock : nat → Z) (timeout : Z) (items : list (nat * CBT))
    (i0 : nat) (tag : nat) :
  tag ∈ scavenge_list clock timeout i0 items ↔
  ∃ i cbt, items !! i = Some (tag, cbt) ∧ clock (i0 + i)%nat - time_submit cbt >= timeout.
Proof.
  revert i0. induction items as [|[k v] items IH]; intros i0; simpl.
  - split; [by intros ?%elem_of_nil|]. by intros (i & cbt & ? & _).
  - case_decide as Hexp.
    + rewrite elem_of_cons, IH. split.
      * intros [->|(i & cbt & Hi & Hc)].
        -- exists O, v. by rewrite Nat.add_0_r.
        -- exists (S i), cbt. split; [done|]. by rewrite Nat.add_succ_r.
      * intros ([|i] & cbt & Hi & Hc); simpl in Hi.
        -- left. by injection Hi as -> _.
        -- right. exists i, cbt. split; [done|]. by rewrite Nat.add_succ_r in Hc.
    + rewrite IH. split.
      * intros (i & cbt & Hi & Hc). exists (S i), cbt. split; [done|].
        by rewrite Nat.add_succ_r.
      * intros ([|i] & cbt & Hi & Hc); simpl in Hi.
        -- injection Hi as -> ->. rewrite Nat.add_0_r in Hc. simpl in Hexp. lia.
        -- exists i, cbt. split; [done|]. by rewrite Nat.add_succ_r in Hc.
Qed.

Lemma scavenge_list_sublist (clock : nat → Z) (timeout : Z) (items : list (nat * CBT))
    (i0 : nat) :
  scavenge_list clock timeout i0 items `sublist_of` items.*1.
Proof.
  revert i0. induction items as [|[k v] items IH]; intros i0; simpl; [done|].
  case_decide; [by apply sublist_skip|by apply sublist_cons].
Qed.

(** X27.  [scavenge_pending_cbts], with every reading of the clock between
    [lo] and [hi].  It returns, and hands to the bus only completions with
    status false (The request has expired) of requests that were pending.  A
    pending request submitted at least [RequestTimeout] before [lo] is
    removed and completed; one submitted less than [RequestTimeout] before
    [hi] stays pending; every pending request either stays or is completed,
    and no request is added. *)
Theorem expired_requests_are_completed (self : t) (clock : nat → Z) (lo hi : Z) :
  NoDup (_pending_cbts self).*1 →
  (∀ i, lo ≤ clock i ≤ hi) →
  ∃ self' expired,
    scavenge_pending_cbts clock self = (Ok tt, self') ∧
    outbox self' = outbox self ++ (expire <$> expired) ∧
    (∀ cbt, cbt ∈ expired → ∃ tag, pending_get tag (_pending_cbts self) = Some cbt) ∧
    (∀ tag cbt, pending_get tag (_pending_cbts self') = Some cbt →
       pending_get tag (_pending_cbts self) = Some cbt) ∧
    ∀ tag cbt, pending_get tag (_pending_cbts self) = Some cbt →
      (cbt ∈ expired ∨ pending_get tag (_pending_cbts self') = Some cbt) ∧
      (lo - time_submit cbt >= _request_timeout self →
         pending_get tag (_pending_cbts self') = None ∧ cbt ∈ expired) ∧
      (hi - time_submit cbt < _request_timeout self →
         pending_get tag (_pending_cbts self') = Some cbt).
Proof.
  intros Hnd Hclock.
  set (tags := scavenge_list clock (_request_timeout self) 0 (_pending_cbts self)).
  assert (NoDup tags) as Htags.
  { eapply sublist_NoDup; [exact Hnd|apply scavenge_list_sublist]. }
  eexists _, _. split.
  { unfold scavenge_pending_cbts.
    erewrite bind_returns; [|reflexivity]. erewrite bind_returns; [|reflexivity].
    simpl. fold tags. by apply scavenge_loop. }
  simpl. split; [done|]. split.
  { intros cbt (tag & _ & Hget)%list_elem_of_omap. by exists tag. }
  split.
  { intros tag cbt. rewrite pending_get_pop_all by done. by case_decide. }
  intros tag cbt Hget.
  pose proof (pending_get_Some_elem _ _ _ Hget) as Hin.
  apply list_elem_of_lookup_1 in Hin as [i Hi].
  assert (tag ∈ tags → cbt ∈ omap (λ tag, pending_get tag (_pending_cbts self)) tags) as Hexp.
  { intros Htag. apply list_elem_of_omap. by exists tag. }
  rewrite pending_get_pop_all by done. split_and!.
  - destruct (decide (tag ∈ tags)); [left; auto|by right].
  - intros Hold. assert (tag ∈ tags) as Htag.
    { apply scavenge_list_spec. exists i, cbt. split; [done|]. simpl.
      specialize (Hclock i). lia. }
    rewrite decide_True by done. auto.
  - intros Hyoung. rewrite decide_False; [done|].
    intros (i' & cbt' & Hi' & Hc)%scavenge_list_spec. simpl in Hc.
    assert (cbt' = cbt) as ->.
    { apply list_elem_of_lookup_2 in Hi'.
      apply (pending_elem_get _ _ _ Hnd) in Hi'. congruence. }
    specialize (Hclock i'). lia.
Qed.
End with_data.
Arguments value : clear implicits.
Arguments RemoteAction : clear implicits.
Arguments CBT : clear implicits.
Arguments Response : clear implicits.
Arguments effect : clear implicits.
Arguments circle : clear implicits.
Arguments transmission : clear implicits.
Arguments t : clear implicits.

Module Example.
(** Node [nodeA] on overlay [ol001], with an empty JID cache that expires
    entries after 60 ticks, and two remote actions for the peer [nodeB]. *)
Definition circle0 : circle unit := mkCircle (JidCache.mk ∅ 60) ∅ true.
Definition node : t unit := mk "nodeA" "Signal" {[ "ol001" := circle0 ]} ∅ [] 120 [].
Definition act (name : string) : RemoteAction unit :=
  mkRemoteAction "ol001" "nodeB" "GeneveTunnel" name (VData ()) "nodeA" "Topology" 7
    VNone false.
Definition resolved (ts : Z) (queue : list (string * RemoteAction unit * Z)) : t unit :=
  mk "nodeA" "Signal"
    {[ "ol001" := mkCircle (JidCache.mk {[ "nodeB" := ("b@xmpp/evio", ts) ]} 60)
                    {[ "nodeB" := queue ]} true ]}
    ∅ [] 120 [].
(** A request of the local module [Topology] for a remote action. *)
Definition request (submitted : Z) : CBT unit :=
  mkCBT 7 "Request" "Topology" "Signal" "SIG_REMOTE_ACTION"
    (VRemAct (mkRemoteAction "ol001" "nodeB" "GeneveTunnel" "GNV_EXCHANGE_ENDPT" (VData ())
                "" "" 0 VNone false))
    None submitted.
End Example.

Lemma queued_remote_acts_are_sent_in_order_witness :
  ∃ self1 self2,
    for_each [mkTransmission 1 2 "invk" (Example.act "GNV_EXCHANGE_ENDPT");
              mkTransmission 3 4 "invk" (Example.act "GNV_UPDATE_MAC")]
      (λ tx, transmit_remote_act (tx_now tx) (tx_queued tx) (tx_act tx) "nodeB" (tx_type tx))
      Example.node = (Ok tt, self1) ∧
    _send_waiting_remote_acts "ol001" "nodeB" "b@xmpp/evio" self1 = (Ok tt, self2) ∧
    outbox self2 =
      [send_presence_eff "ol001" "uid?#nodeB"; send_presence_eff "ol001" "uid?#nodeB";
       send_msg_eff "ol001" "b@xmpp/evio" "invk" (Example.act "GNV_EXCHANGE_ENDPT");
       send_msg_eff "ol001" "b@xmpp/evio" "invk" (Example.act "GNV_UPDATE_MAC")].
Proof.
  destruct (queued_remote_acts_are_sent_in_order Example.node "ol001" "nodeB" "b@xmpp/evio"
              Example.circle0
              [mkTransmission 1 2 "invk" (Example.act "GNV_EXCHANGE_ENDPT");
               mkTransmission 3 4 "invk" (Example.act "GNV_UPDATE_MAC")])
    as (self1 & self2 & c2 & Hrun & Hout1 & Hflush & Hout2 & _);
    [reflexivity..|repeat constructor|].
  exists self1, self2. split; [done|]. split; [done|]. by rewrite Hout2, Hout1.
Defined.

Lemma resolved_peer_gets_queue_then_message_witness :
  ∃ self',
    transmit_remote_act 50 50 (Example.act "GNV_UPDATE_MAC") "nodeB" "invk"
      (Example.resolved 0 [("invk", Example.act "GNV_EXCHANGE_ENDPT", 0)]) = (Ok tt, self') ∧
    outbox self' =
      [send_msg_eff "ol001" "b@xmpp/evio" "invk" (Example.act "GNV_EXCHANGE_ENDPT");
       send_msg_eff "ol001" "b@xmpp/evio" "invk" (Example.act "GNV_UPDATE_MAC")].
Proof.
  destruct (resolved_peer_gets_queue_then_message
              (Example.resolved 0 [("invk", Example.act "GNV_EXCHANGE_ENDPT", 0)]) 50 50
              (Example.act "GNV_UPDATE_MAC") "nodeB" "invk" "b@xmpp/evio" 0
              (mkCircle (JidCache.mk {[ "nodeB" := ("b@xmpp/evio", 0) ]} 60)
                 {[ "nodeB" := [("invk", Example.act "GNV_EXCHANGE_ENDPT", 0)] ]} true))
    as (self' & c' & Hrun & Hout & _); [reflexivity..|simpl; lia|].
  exists self'. split; [done|]. by rewrite Hout.
Defined.

Lemma stale_jid_is_not_used_witness :
  ∃ self' c',
    transmit_remote_act 60 61 (Example.act "GNV_UPDATE_MAC") "nodeB" "invk"
      (Example.resolved 0 []) = (Ok tt, self') ∧
    outbox self' = [send_presence_eff "ol001" "uid?#nodeB"] ∧
    _circles self' !! "ol001" = Some c' ∧
    JidCache._cache (c_JidCache c') !! "nodeB" = None ∧
    c_OutgoingRemoteActs c' !! "nodeB" = Some [("invk", Example.act "GNV_UPDATE_MAC", 61)].
Proof.
  destruct (stale_jid_is_not_used (Example.resolved 0 []) 60 61
              (Example.act "GNV_UPDATE_MAC") "nodeB" "invk" "b@xmpp/evio" 0
              (mkCircle (JidCache.mk {[ "nodeB" := ("b@xmpp/evio", 0) ]} 60)
                 {[ "nodeB" := [] ]} true))
    as (self' & c' & Hrun & Hout & Hc & Hcache & Hq); [reflexivity..|simpl; lia|].
  exists self', c'. split_and!; [done..| |done].
  rewrite Hcache. apply lookup_delete_eq.
Defined.

Lemma remote_action_round_trip_on_target_witness :
  let rem_act : RemoteAction unit :=
    mkRemoteAction "ol001" "nodeA" "GeneveTunnel" "GNV_EXCHANGE_ENDPT" (VData ())
      "nodeB" "GeneveTunnel" 7 VNone false in
  let n_cbt := mkCBT 3 "Request" "Signal" "GeneveTunnel" "GNV_EXCHANGE_ENDPT" (VData ())
                 None 10 in
  ∃ self1 self2 c2,
    invoke_remote_action_on_target 3 10 rem_act Example.node = (Ok tt, self1) ∧
    outbox self1 = [submit_cbt_eff n_cbt] ∧
    resp_handler_remote_action 11 12 (set_response (VText "done") true n_cbt) self1
      = (Ok tt, self2) ∧
    _remote_acts self2 = ∅ ∧
    _circles self2 !! "ol001" = Some c2 ∧
    c_OutgoingRemoteActs c2 !! "nodeB" =
      Some [("cmpt", with_result (VText "done") true rem_act, 12)].
Proof.
  intros rem_act n_cbt.
  destruct (remote_action_round_trip_on_target Example.node 3 10 rem_act)
    as (self1 & Hrun & Hacts & Hout & Hresp); [reflexivity..|].
  specialize (Hresp (VText "done") true 11 12).
  exists self1. vm_compute in Hresp.
  eexists _, _. split; [done|]. split; [done|]. split; [exact Hresp|].
  split_and!; reflexivity.
Defined.


Lemma initiate_remote_action_unknown_overlay_witness :
  req_handler_initiate_remote_action 6 6 (Example.request 5)
    (mk "nodeA" "Signal" ∅ ∅ [] 120 []) =
  (Ok tt,
   mk "nodeA" "Signal" ∅ ∅ [] 120
     [complete_cbt_eff (set_response (VText "Overlay ID not found") false (Example.request 5))]).
Proof.
  by apply (initiate_remote_action_unknown_overlay (mk "nodeA" "Signal" ∅ ∅ [] 120 []) 6 6
              (Example.request 5)
              (mkRemoteAction "ol001" "nodeB" "GeneveTunnel" "GNV_EXCHANGE_ENDPT" (VData ())
                 "" "" 0 VNone false)).
Defined.

Lemma misdelivered_remote_actions_are_discarded_witness :
  handle_remote_action 3 10 (Example.act "GNV_EXCHANGE_ENDPT") "invk" Example.node
    = (Ok tt, Example.node) ∧
  handle_remote_action 3 10 (Example.act "GNV_EXCHANGE_ENDPT") "cmpt" Example.node
    = (Ok tt, Example.node).
Proof.
  destruct (misdelivered_remote_actions_are_discarded Example.node 3 10
              (Example.act "GNV_EXCHANGE_ENDPT") "invk") as (Hinvk & _ & _).
  destruct (misdelivered_remote_actions_are_discarded Example.node 3 10
              (Example.act "GNV_EXCHANGE_ENDPT") "cmpt") as (_ & Hcmpt & _).
  split; [by apply Hinvk|]. apply Hcmpt; [done|]. by right.
Defined.

Lemma expired_requests_are_completed_witness :
  let old := Example.request 5 in
  let young := mkCBT 8 "Request" "Topology" "Signal" "SIG_REMOTE_ACTION" VNone None 100 in
  ∃ self',
    scavenge_pending_cbts (λ _, 125)
      (mk "nodeA" "Signal" ∅ ∅ [(7%nat, old); (8%nat, young)] 120 []) = (Ok tt, self') ∧
    _pending_cbts self' = [(8%nat, young)] ∧
    outbox self' = [expire old].
Proof.
  intros old young.
  destruct (expired_requests_are_completed
              (mk "nodeA" "Signal" ∅ ∅ [(7%nat, old); (8%nat, young)] 120 [])
              (λ _, 125) 125 125)
    as (self' & expired & Hrun & _).
  { simpl. repeat (apply NoDup_cons; split; [set_solver|]). apply NoDup_nil_2. }
  { intros _. lia. }
  exists self'. vm_compute in Hrun. injection Hrun as <-. by split_and!.
Defined.

End Signal.
